(** * KnowledgeService: admission scheduler, metadata store and incremental
      directory sync

    A shallow embedding of
      - [src/main/services/KnowledgeService.ts] in its two revisions (the
        one built on [KnowledgeMetadataStore.ts] and the one that takes the
        [incrementalUpdate] option and is built on [utils/metadataStore.ts]),
      - [src/main/services/KnowledgeMetadataStore.ts],
      - [src/main/utils/metadataStore.ts].

    JavaScript numbers that count bytes, items or milliseconds are modelled
    as [Z]; strings as [string]; a [Set]/[Map] keyed by strings as
    [gset]/[gmap]; a table of the SQLite database as the list of its rows in
    insertion order. *)

From stdpp Require Import base list strings gmap.
From Stdlib Require Import ZArith Lia Ascii.

Local Open Scope Z_scope.

(** [MB] of [@shared/config/constant]; docs/technical/KnowledgeService.md
    spells the caps out as [1024 * 1024 * 80]. *)
Definition MB : Z := 1024 * 1024.

(** ** Promises: a unit of work either resolves to a value or rejects, and
    acts on a world [W] on the way *)
Module Promise.

Inductive Settled (A : Type) : Type :=
| Fulfilled (a : A)
| Rejected.
Arguments Fulfilled {A} a.
Arguments Rejected {A}.

Definition Async (W A : Type) : Type := W -> Settled A * W.

Definition resolve {W A} (a : A) : Async W A := fun w => (Fulfilled a, w).

Definition throw {W A} : Async W A := fun w => (Rejected, w).

(** [await m] followed by the rest [k] of an [async] body, which is also
    [m.then(k)]. *)
Definition await {W A B} (m : Async W A) (k : A -> Async W B) : Async W B :=
  fun w =>
    match m w with
    | (Fulfilled a, w') => k a w'
    | (Rejected, w') => (Rejected, w')
    end.

(** [try { m } catch (err) { h }], which is also [m.catch(() => h)]. *)
Definition catch {W A} (m : Async W A) (h : Async W A) : Async W A :=
  fun w =>
    match m w with
    | (Fulfilled a, w') => (Fulfilled a, w')
    | (Rejected, w') => h w'
    end.

Definition modify {W} (f : W -> W) : Async W unit := fun w => (Fulfilled tt, f w).

#[global] Instance async_ret {W} : MRet (Async W) := fun A a => resolve a.
#[global] Instance async_bind {W} : MBind (Async W) := fun A B k m => await m k.

(** [for (const x of l) { s = body(s, x) }] with the loop-carried
    variables [s]. *)
Fixpoint forOf {W A S} (body : S -> A -> Async W S) (l : list A) (s : S)
  : Async W S :=
  match l with
  | [] => resolve s
  | x :: l' => await (body s x) (forOf body l')
  end.

(** What a unit of work guarantees: from a world in [P], the outcome and
    the world it leaves are in [Q], whether it resolves or rejects. *)
Definition triple {W A} (P : W -> Prop) (m : Async W A)
  (Q : Settled A -> W -> Prop) : Prop :=
  forall w, P w -> Q (m w).1 (m w).2.

End Promise.

(** ** The processing queue ([processingQueueHandle]) *)
Module Scheduler.

Inductive LoaderTaskItemState := PENDING | PROCESSING | DONE.

Definition is_pending (s : LoaderTaskItemState) : bool :=
  match s with PENDING => true | _ => false end.

Definition is_processing (s : LoaderTaskItemState) : bool :=
  match s with PROCESSING => true | _ => false end.

(** [item_id] stands for the identity of the JavaScript object (the items
    live in a [Set]); [evaluateTaskWorkload] is the [workload] field of the
    object of that name.  The [task] closure is irrelevant to admission. *)
Record LoaderTaskItem := mkItem {
  item_id : nat;
  state : LoaderTaskItemState;
  evaluateTaskWorkload : Z
}.

(** A [LoaderTaskOfSet]: the items in insertion order of the [Set]. *)
Record LoaderTaskOfSet := mkTask {
  task_id : nat;
  loaderTasks : list LoaderTaskItem
}.

(** The mutable fields of the service; [queue] is
    [knowledgeItemProcessingQueueMappingPromise] in insertion order. *)
Record Service := mkService {
  workload : Z;
  processingItemCount : Z;
  queue : list LoaderTaskOfSet
}.

Definition MAXIMUM_WORKLOAD : Z := 80 * MB.
Definition MAXIMUM_PROCESSING_ITEM_COUNT : Z := 30.

Definition init : Service := mkService 0 0 [].

Definition maximumLoad (w c : Z) : bool :=
  (MAXIMUM_PROCESSING_ITEM_COUNT <=? c) || (MAXIMUM_WORKLOAD <=? w).

Definition set_processing (it : LoaderTaskItem) : LoaderTaskItem :=
  mkItem (item_id it) PROCESSING (evaluateTaskWorkload it).

(** The result of a scan: the two counters, the items as the scan leaves
    them, the admitted items (as they were), and whether [break that] was
    taken. *)
Record Scan (A : Type) := mkScan {
  sc_workload : Z;
  sc_count : Z;
  sc_items : A;
  sc_admitted : list LoaderTaskItem;
  sc_break : bool
}.
Arguments mkScan {A}.
Arguments sc_workload {A}.
Arguments sc_count {A}.
Arguments sc_items {A}.
Arguments sc_admitted {A}.
Arguments sc_break {A}.

(** The inner loop, [for (const item of task.loaderTasks)]. *)
Fixpoint scanItems (w c : Z) (items : list LoaderTaskItem)
  : Scan (list LoaderTaskItem) :=
  match items with
  | [] => mkScan w c [] [] false
  | it :: rest =>
      if maximumLoad w c then mkScan w c (it :: rest) [] true
      else if is_pending (state it) then
        let r := scanItems (w + evaluateTaskWorkload it) (c + 1) rest in
        mkScan (sc_workload r) (sc_count r)
               (set_processing it :: sc_items r)
               (it :: sc_admitted r) (sc_break r)
      else
        let r := scanItems w c rest in
        mkScan (sc_workload r) (sc_count r) (it :: sc_items r)
               (sc_admitted r) (sc_break r)
  end.

(** The outer loop, [that: for (const [task, resolve] of ...)]. *)
Fixpoint scanTasks (w c : Z) (tasks : list LoaderTaskOfSet)
  : Scan (list LoaderTaskOfSet) :=
  match tasks with
  | [] => mkScan w c [] [] false
  | t :: rest =>
      let r := scanItems w c (loaderTasks t) in
      let t' := mkTask (task_id t) (sc_items r) in
      if sc_break r then
        mkScan (sc_workload r) (sc_count r) (t' :: rest) (sc_admitted r) true
      else
        let r' := scanTasks (sc_workload r) (sc_count r) rest in
        mkScan (sc_workload r') (sc_count r') (t' :: sc_items r')
               (sc_admitted r ++ sc_admitted r') (sc_break r')
  end.

Definition getSubtasksUntilMaximumLoad (s : Service)
  : Scan (list LoaderTaskOfSet) :=
  scanTasks (workload s) (processingItemCount s) (queue s).

(** [processingQueueHandle]: the scan, after which the admitted items'
    promises are started. *)
Definition processingQueueHandle (s : Service) : Service :=
  let r := getSubtasksUntilMaximumLoad s in
  mkService (sc_workload r) (sc_count r) (sc_items r).

(** [appendProcessingQueue]: the task goes to the end of the map. *)
Definition appendProcessingQueue (t : LoaderTaskOfSet) (s : Service) : Service :=
  mkService (workload s) (processingItemCount s) (queue s ++ [t]).

(** [add], once the task is built: append, then scan. *)
Definition add (t : LoaderTaskOfSet) (s : Service) : Service :=
  processingQueueHandle (appendProcessingQueue t s).

Definition delete_item (iid : nat) (items : list LoaderTaskItem)
  : list LoaderTaskItem :=
  List.filter (fun it => negb (Nat.eqb (item_id it) iid)) items.

(** [task.loaderTasks.delete(item)], and the removal of the task from the
    map when its set has become empty. *)
Definition delete_from_task (tid iid : nat) (t : LoaderTaskOfSet)
  : list LoaderTaskOfSet :=
  if Nat.eqb (task_id t) tid then
    match delete_item iid (loaderTasks t) with
    | [] => []
    | items => [mkTask (task_id t) items]
    end
  else [t].

(** The continuation of an admitted item's promise:
    [taskPromise().then(() => { ... this.processingQueueHandle() })]. *)
Definition onFulfilled (tid : nat) (it : LoaderTaskItem) (s : Service) : Service :=
  processingQueueHandle
    (mkService (workload s - evaluateTaskWorkload it)
               (processingItemCount s - 1)
               (flat_map (delete_from_task tid (item_id it)) (queue s))).

(** [taskPromise().then(...)]: the continuation runs when the promise of
    the item is fulfilled, and is skipped when it rejects. *)
Definition onSettled {A} (r : Promise.Settled A) (tid : nat) (it : LoaderTaskItem)
  (s : Service) : Service :=
  match r with
  | Promise.Fulfilled _ => onFulfilled tid it s
  | Promise.Rejected => s
  end.

Definition allItems (tasks : list LoaderTaskOfSet) : list LoaderTaskItem :=
  flat_map loaderTasks tasks.

Definition pendingItems (tasks : list LoaderTaskOfSet) : list LoaderTaskItem :=
  List.filter (fun it => is_pending (state it)) (allItems tasks).

Definition processingItems (tasks : list LoaderTaskOfSet) : list LoaderTaskItem :=
  List.filter (fun it => is_processing (state it)) (allItems tasks).

Definition sum_workload (items : list LoaderTaskItem) : Z :=
  foldr (fun it acc => evaluateTaskWorkload it + acc) 0 items.

(** Each item of [adm], taken in turn from the counters [w] and [c], is
    met with [maximumLoad()] false. *)
Fixpoint admissible (w c : Z) (adm : list LoaderTaskItem) : Prop :=
  match adm with
  | [] => True
  | it :: rest =>
      maximumLoad w c = false
      /\ admissible (w + evaluateTaskWorkload it) (c + 1) rest
  end.

(** A submitted task: a new object in the map, whose items are distinct
    objects, each created [PENDING] with a workload estimate between [0]
    and [W]. *)
Definition submittable (W : Z) (s : Service) (t : LoaderTaskOfSet) : Prop :=
  ~ In (task_id t) (map task_id (queue s))
  /\ NoDup (map item_id (loaderTasks t))
  /\ Forall (fun it => state it = PENDING /\ 0 <= evaluateTaskWorkload it <= W)
            (loaderTasks t).

(** The states the service goes through: a task is added, or the promise
    of an item that is [PROCESSING] is fulfilled. *)
Inductive step (W : Z) : Service -> Service -> Prop :=
| step_add s t :
    submittable W s t ->
    step W s (add t s)
| step_fulfilled s t it :
    In t (queue s) -> In it (loaderTasks t) -> state it = PROCESSING ->
    step W s (onFulfilled (task_id t) it s).

Inductive reachable (W : Z) : Service -> Prop :=
| reach_init : reachable W init
| reach_step s s' : reachable W s -> step W s s' -> reachable W s'.

(** What a scan from the counters [w] and [c] does to the items [before],
    [flat] giving the items in the order they are met. *)
Record scan_spec {A} (flat : A -> list LoaderTaskItem) (w c : Z) (before : A)
  (r : Scan A) : Prop := mk_scan_spec {
  spec_pending :
    List.filter (fun it => is_pending (state it)) (flat before)
    = sc_admitted r
      ++ List.filter (fun it => is_pending (state it)) (flat (sc_items r));
  spec_workload : sc_workload r = w + sum_workload (sc_admitted r);
  spec_count : sc_count r = c + Z.of_nat (length (sc_admitted r));
  spec_admissible : admissible w c (sc_admitted r);
  spec_break : sc_break r = true -> maximumLoad (sc_workload r) (sc_count r) = true;
  spec_complete :
    sc_break r = false ->
    List.filter (fun it => is_pending (state it)) (flat (sc_items r)) = []
}.

(** The bound the counters keep when no estimate is over [W]. *)
Definition bounded (W : Z) (w c : Z) (items : list LoaderTaskItem) : Prop :=
  c <= MAXIMUM_PROCESSING_ITEM_COUNT
  /\ w < MAXIMUM_WORKLOAD + W
  /\ Forall (fun it => 0 <= evaluateTaskWorkload it <= W) items.

(** A task of one file of 100 MB. *)
Definition one_big_file : LoaderTaskOfSet :=
  mkTask 0 [mkItem 0 PENDING (100 * MB)].

(** The objects of the map are distinct, and so are the items of each
    [Set]. *)
Definition distinct (tasks : list LoaderTaskOfSet) : Prop :=
  NoDup (map task_id tasks)
  /\ Forall (fun t => NoDup (map item_id (loaderTasks t))) tasks.

(** What a scan does to one item: nothing, or [PENDING] to [PROCESSING]. *)
Definition admitted_or_same (a b : LoaderTaskItem) : Prop :=
  b = a \/ (state a = PENDING /\ b = set_processing a).

(** What a scan does to one task of the map. *)
Definition scanned (t t' : LoaderTaskOfSet) : Prop :=
  task_id t' = task_id t
  /\ Forall2 admitted_or_same (loaderTasks t) (loaderTasks t').

(** What holds of the service between two steps: the objects are
    distinct, the counters count the items that are [PROCESSING], and no
    item is [DONE]. *)
Record settled (s : Service) : Prop := mk_settled {
  st_distinct : distinct (queue s);
  st_workload : workload s = sum_workload (processingItems (queue s));
  st_count : processingItemCount s = Z.of_nat (length (processingItems (queue s)));
  st_not_done : Forall (fun it => state it <> DONE) (allItems (queue s))
}.

End Scheduler.


(** ** SQLite text operators used by the stores *)
Module Sqlite.

(** [LIKE] compares ASCII letters without regard to case (the default, no
    [PRAGMA case_sensitive_like]). *)
Definition fold_case (c : ascii) : ascii :=
  let n := nat_of_ascii c in
  if ((65 <=? n) && (n <=? 90))%nat then ascii_of_nat (n + 32) else c.

Definition same_char (a b : ascii) : bool :=
  Ascii.eqb (fold_case a) (fold_case b).

(** [s LIKE p] without an [ESCAPE] clause: [%] stands for any run of
    characters, [_] for any one character, any other character for itself
    up to case. *)
Fixpoint like (p : string) : string -> bool :=
  match p with
  | EmptyString => fun s => match s with EmptyString => true | _ => false end
  | String c p' =>
      if Ascii.eqb c "%" then
        fix any_run (s : string) : bool :=
          like p' s
          || match s with EmptyString => false | String _ s' => any_run s' end
      else if Ascii.eqb c "_" then
        fun s => match s with EmptyString => false | String _ s' => like p' s' end
      else
        fun s =>
          match s with
          | EmptyString => false
          | String d s' => same_char c d && like p' s'
          end
  end.

(** The two characters [LIKE] does not take for themselves. *)
Definition is_wildcard (c : ascii) : bool := Ascii.eqb c "%" || Ascii.eqb c "_".

Fixpoint no_wildcard (s : string) : bool :=
  match s with
  | EmptyString => true
  | String c s' => negb (is_wildcard c) && no_wildcard s'
  end.

(** [s] begins with [pre], ASCII letters compared without regard to
    case. *)
Fixpoint prefix_nocase (pre s : string) : bool :=
  match pre, s with
  | EmptyString, _ => true
  | String c pre', String d s' => same_char c d && prefix_nocase pre' s'
  | String _ _, EmptyString => false
  end.

End Sqlite.

(** [String.prototype.endsWith]. *)
Definition endsWith (s suffix : string) : bool :=
  let n := String.length s in
  let m := String.length suffix in
  if (m <=? n)%nat then String.eqb (String.substring (n - m) m s) suffix else false.

(** [String.prototype.startsWith]. *)
Definition startsWith (s pre : string) : bool := String.prefix pre s.

(** ** [src/main/utils/metadataStore.ts]: the [file_metadata] table *)
Module MetadataStore.

Record FileMetadata := mkFileMetadata {
  filePath : string;
  lastModified : Z;
  size : Z;
  hash : string;
  embedjs_unique_id : string
}.

(** [Partial<FileMetadata>]: the fields that are present. *)
Record PartialFileMetadata := mkPartial {
  p_filePath : option string;
  p_lastModified : option Z;
  p_size : option Z;
  p_hash : option string;
  p_embedjs_unique_id : option string
}.

(** The rows of [file_metadata], [filePath] being the primary key and
    [embedjs_unique_id] declared [UNIQUE]. *)
Definition Table := list FileMetadata.

Definition has_path (p : string) (m : FileMetadata) : bool :=
  String.eqb (filePath m) p.

Definition has_unique_id (u : string) (m : FileMetadata) : bool :=
  String.eqb (embedjs_unique_id m) u.

(** A statement that breaks a constraint throws: [None]. *)
Definition insertFileMetadata (db : Table) (m : FileMetadata) : option Table :=
  if existsb (has_path (filePath m)) db
     || existsb (has_unique_id (embedjs_unique_id m)) db
  then None
  else Some (db ++ [m]).

Definition getFileMetadata (db : Table) (p : string) : option FileMetadata :=
  List.find (has_path p) db.

Definition apply_partial (u : PartialFileMetadata) (m : FileMetadata) : FileMetadata :=
  mkFileMetadata
    (default (filePath m) (p_filePath u))
    (default (lastModified m) (p_lastModified u))
    (default (size m) (p_size u))
    (default (hash m) (p_hash u))
    (default (embedjs_unique_id m) (p_embedjs_unique_id u)).

Definition partial_is_empty (u : PartialFileMetadata) : bool :=
  match u with
  | mkPartial None None None None None => true
  | _ => false
  end.

Definition no_duplicate_keys (db : Table) : bool :=
  bool_decide (NoDup (map filePath db))
  && bool_decide (NoDup (map embedjs_unique_id db)).

(** [UPDATE file_metadata SET ... WHERE filePath = ?]; nothing is run when
    no field is given. *)
Definition updateFileMetadata (db : Table) (p : string) (u : PartialFileMetadata)
  : option Table :=
  if partial_is_empty u then Some db
  else
    let db' := map (fun m => if has_path p m then apply_partial u m else m) db in
    if no_duplicate_keys db' then Some db' else None.

Definition deleteFileMetadata (db : Table) (p : string) : Table :=
  List.filter (fun m => negb (has_path p m)) db.

Definition pathPrefix (directoryPath : string) : string :=
  if endsWith directoryPath "/" then directoryPath else directoryPath +:+ "/".

Definition getDirectoryMetadata (db : Table) (directoryPath : string) : Table :=
  List.filter (fun m => Sqlite.like (pathPrefix directoryPath +:+ "%") (filePath m)) db.

Definition deleteDirectoryMetadata (db : Table) (directoryPath : string) : Table :=
  List.filter
    (fun m => negb (Sqlite.like (pathPrefix directoryPath +:+ "%") (filePath m))) db.

(** Two rows, of files in sibling directories. *)
Definition under_b_c : FileMetadata := mkFileMetadata "/a/b_c/f.txt" 1 10 "h1" "u1".
Definition under_bxc : FileMetadata := mkFileMetadata "/a/bxc/g.txt" 1 10 "h2" "u2".

End MetadataStore.



(** ** What the tasks of both revisions share *)
Module Runtime.
Import Promise.

(** [FileType], with the fields the service reads. *)
Record FileType := mkFile {
  path : string;
  size : Z;
  lastModified : Z
}.

Record LoaderReturn := mkLoaderReturn {
  entriesAdded : Z;
  uniqueId : string;
  uniqueIds : list string;
  loaderType : string
}.

Definition ERROR_LOADER_RETURN : LoaderReturn :=
  mkLoaderReturn 0 "" [""] "".

Section WithStore.
Context {Row Query : Type}.

(** The calls that leave the service, in the order they are made. *)
Inductive Event : Type :=
| CalculateFileHash (filePath : string)
| StatSync (filePath : string)
| DeleteLoader (uniqueId : string)
| AddFileLoader (file : FileType) (forceReload : bool)
| Database (q : Query)
| DirectoryProcessingPercent (totalFiles processedFiles : Z).

(** The world outside: what each call answers after a given history;
    [None] and [false] stand for a call that throws or rejects. *)
Record Env : Type := mkEnv {
  env_hash : list Event -> string -> option string;
  env_mtimeMs : list Event -> string -> option Z;
  env_addFileLoader : list Event -> FileType -> bool -> option LoaderReturn;
  env_deleteLoader : list Event -> string -> bool;
  env_database : list Event -> Query -> bool
}.

(** The table, the history, and the two variables a task closes over. *)
Record World : Type := mkWorld {
  db : list Row;
  trace : list Event;
  processedFiles : Z;
  loaderDoneReturn : option LoaderReturn
}.

Definition log (e : Event) (w : World) : World :=
  mkWorld (db w) (trace w ++ [e]) (processedFiles w) (loaderDoneReturn w).

Definition set_db (d : list Row) (w : World) : World :=
  mkWorld d (trace w) (processedFiles w) (loaderDoneReturn w).

Definition set_processedFiles (n : Z) (w : World) : World :=
  mkWorld (db w) (trace w) n (loaderDoneReturn w).

Definition set_loaderDoneReturn (r : option LoaderReturn) (w : World) : World :=
  mkWorld (db w) (trace w) (processedFiles w) r.

Definition external {A} (e : Event) (answer : list Event -> option A)
  : Async World A :=
  fun w =>
    match answer (trace w) with
    | Some a => (Fulfilled a, log e w)
    | None => (Rejected, log e w)
    end.

Variable env : Env.

Definition calculateFileHash (filePath : string) : Async World string :=
  external (CalculateFileHash filePath) (fun h => env_hash env h filePath).

Definition statSync_mtimeMs (filePath : string) : Async World Z :=
  external (StatSync filePath) (fun h => env_mtimeMs env h filePath).

Definition deleteLoader (uniqueId : string) : Async World unit :=
  external (DeleteLoader uniqueId)
           (fun h => if env_deleteLoader env h uniqueId then Some tt else None).

Definition addFileLoader (file : FileType) (forceReload : bool)
  : Async World LoaderReturn :=
  external (AddFileLoader file forceReload)
           (fun h => env_addFileLoader env h file forceReload).

(** A statement [q] run on the table: it rejects when the database fails
    or when [run] finds a constraint broken. *)
Definition database {A} (q : Query) (run : list Row -> option (A * list Row))
  : Async World A :=
  fun w =>
    if env_database env (trace w) q then
      match run (db w) with
      | Some (a, d) => (Fulfilled a, set_db d (log (Database q) w))
      | None => (Rejected, log (Database q) w)
      end
    else (Rejected, log (Database q) w).

(** [processedFiles += 1; sendDirectoryProcessingPercent(totalFiles, processedFiles)] *)
Definition fileProcessed (totalFiles : Z) : Async World unit :=
  fun w =>
    let n := processedFiles w + 1 in
    (Fulfilled tt, log (DirectoryProcessingPercent totalFiles n) (set_processedFiles n w)).

Definition sendDirectoryProcessingPercent (totalFiles processedFilesCount : Z)
  : Async World unit :=
  fun w => (Fulfilled tt, log (DirectoryProcessingPercent totalFiles processedFilesCount) w).

(** [loaderDoneReturn.f = ...] on the object the task closes over. *)
Definition updateLoaderDoneReturn (f : LoaderReturn -> LoaderReturn)
  : Async World unit :=
  modify (fun w => set_loaderDoneReturn (f <$> loaderDoneReturn w) w).

Definition assignLoaderDoneReturn (r : LoaderReturn) : Async World unit :=
  modify (set_loaderDoneReturn (Some r)).

(** A [LoaderTaskItem] as the task factories build it, always [PENDING]. *)
Record LoaderTaskItem : Type := mkLoaderTaskItem {
  task : Async World LoaderReturn;
  evaluateTaskWorkload : Z
}.

Record LoaderTask : Type := mkLoaderTask {
  loaderTasks : list LoaderTaskItem;
  initialLoaderDoneReturn : option LoaderReturn
}.

(** The items of a task run to completion one after the other, in the
    order of the list; an item that rejects does not stop the others. *)
Fixpoint runItems (items : list LoaderTaskItem) (w : World)
  : list (Settled LoaderReturn) * World :=
  match items with
  | [] => ([], w)
  | it :: rest =>
      let '(r, w1) := task it w in
      let '(rs, w2) := runItems rest w1 in
      (r :: rs, w2)
  end.

Definition start (t : LoaderTask) (d : list Row) : World :=
  mkWorld d [] 0 (initialLoaderDoneReturn t).

Definition runTask (t : LoaderTask) (d : list Row)
  : list (Settled LoaderReturn) * World :=
  runItems (loaderTasks t) (start t d).

End WithStore.
Arguments Event : clear implicits.
Arguments Env : clear implicits.
Arguments World : clear implicits.
Arguments LoaderTaskItem : clear implicits.
Arguments LoaderTask : clear implicits.

End Runtime.


(** ** [KnowledgeService.ts], the revision with [incrementalUpdate], on top
    of [utils/metadataStore.ts] *)
Module Incremental.
Import Promise Runtime.
Export MetadataStore.

(** The statements sent to the [file_metadata] table. *)
Inductive Query : Type :=
| SelectDirectory (directoryPath : string)
| Insert (m : FileMetadata)
| Update (filePath : string) (u : PartialFileMetadata)
| Delete (filePath : string)
| DeleteDirectory (directoryPath : string).

Definition Event : Type := Runtime.Event Query.
Definition Env : Type := Runtime.Env Query.
Definition World : Type := Runtime.World FileMetadata Query.
Definition LoaderTaskItem : Type := Runtime.LoaderTaskItem FileMetadata Query.
Definition LoaderTask : Type := Runtime.LoaderTask FileMetadata Query.

(** The variables of the master task's body. *)
Record Locals := mkLocals {
  processedFilePaths : gset string;
  currentEntriesAdded : Z;
  currentUniqueIds : list string
}.

(** [new Map(existingMetadataList.map(m => [m.filePath, m]))]: a later
    entry replaces an earlier one with the same key. *)
Definition existingMetadataMapOf (existingMetadataList : list FileMetadata)
  : gmap string FileMetadata :=
  list_to_map (reverse (map (fun m => (filePath m, m)) existingMetadataList)).

(** The test of the [if] that separates a changed file from an unchanged
    one. *)
Definition changed (existingFileMeta : FileMetadata) (currentHash : string)
  (mtimeMs : Z) : bool :=
  negb (String.eqb (hash existingFileMeta) currentHash)
  || negb (Z.eqb (MetadataStore.lastModified existingFileMeta) mtimeMs).

(** Whether a call acts on the indexed content of the file at [p], whose
    loader has the id [u], or on the row of [p]. *)
Definition concerns (p u : string) (e : Event) : bool :=
  match e with
  | DeleteLoader u' => String.eqb u' u
  | AddFileLoader f _ => String.eqb (path f) p
  | Database (Insert m) => String.eqb (filePath m) p
  | Database (Update q v) => String.eqb q p || bool_decide (is_Some (p_filePath v))
  | Database (Delete q) => String.eqb q p
  | Database (DeleteDirectory _) => true
  | _ => false
  end.

Section WithEnv.
Variable env : Env.

Definition getDirectoryMetadata (directoryPath : string)
  : Async World (list FileMetadata) :=
  database env (SelectDirectory directoryPath)
    (fun d => Some (MetadataStore.getDirectoryMetadata d directoryPath, d)).

Definition insertFileMetadata (m : FileMetadata) : Async World unit :=
  database env (Insert m)
    (fun d => d' ← MetadataStore.insertFileMetadata d m; Some (tt, d')).

Definition updateFileMetadata (filePath : string) (u : PartialFileMetadata)
  : Async World unit :=
  database env (Update filePath u)
    (fun d => d' ← MetadataStore.updateFileMetadata d filePath u; Some (tt, d')).

Definition deleteFileMetadata (filePath : string) : Async World unit :=
  database env (Delete filePath)
    (fun d => Some (tt, MetadataStore.deleteFileMetadata d filePath)).

Definition deleteDirectoryMetadata (directoryPath : string) : Async World unit :=
  database env (DeleteDirectory directoryPath)
    (fun d => Some (tt, MetadataStore.deleteDirectoryMetadata d directoryPath)).

(** *** [fileTask] *)
Definition fileTask (file : FileType) (forceReload : bool) : LoaderTask :=
  mkLoaderTask
    [ mkLoaderTaskItem
        (catch
           (result ← addFileLoader env file forceReload;
            _ ← assignLoaderDoneReturn result;
            mret result)
           (mret ERROR_LOADER_RETURN))
        (Runtime.size file) ]
    None.

(** *** [directoryTask] *)

(** The body of [for (const file of files)] in the master task. *)
Definition incrementalFile (existingMetadataMap : gmap string FileMetadata)
  (totalFiles : Z) (l : Locals) (file : FileType) : Async World Locals :=
  let seen := processedFilePaths l ∪ {[ path file ]} in
  currentHash ← calculateFileHash env (path file);
  mtimeMs ← statSync_mtimeMs env (path file);
  l' ← match existingMetadataMap !! path file with
       | Some existingFileMeta =>
           if changed existingFileMeta currentHash mtimeMs then
             _ ← deleteLoader env (embedjs_unique_id existingFileMeta);
             result ← addFileLoader env file true;
             _ ← updateFileMetadata (path file)
                   (mkPartial None (Some mtimeMs) (Some (Runtime.size file))
                              (Some currentHash) (Some (uniqueId result)));
             mret (mkLocals seen (currentEntriesAdded l + 1)
                            (currentUniqueIds l ++ [uniqueId result]))
           else
             mret (mkLocals seen (currentEntriesAdded l)
                            (currentUniqueIds l ++ [filePath existingFileMeta]))
       | None =>
           result ← addFileLoader env file false;
           _ ← insertFileMetadata
                 (mkFileMetadata (path file) mtimeMs (Runtime.size file) currentHash
                                 (uniqueId result));
           mret (mkLocals seen (currentEntriesAdded l + 1)
                          (currentUniqueIds l ++ [uniqueId result]))
       end;
  _ ← fileProcessed totalFiles;
  mret l'.

(** The body of [for (const oldMeta of existingMetadataList)]. *)
Definition deleteMissing (seen : gset string) (_ : unit) (oldMeta : FileMetadata)
  : Async World unit :=
  if decide (filePath oldMeta ∈ seen) then mret tt
  else
    _ ← deleteLoader env (embedjs_unique_id oldMeta);
    deleteFileMetadata (filePath oldMeta).

(** The single task that handles the entire incremental directory update. *)
Definition incrementalTask (directoryLoaderId directoryPath : string)
  (files : list FileType) : Async World LoaderReturn :=
  let totalFiles := Z.of_nat (length files) in
  existingMetadataList ← getDirectoryMetadata directoryPath;
  let existingMetadataMap := existingMetadataMapOf existingMetadataList in
  l ← forOf (incrementalFile existingMetadataMap totalFiles) files
            (mkLocals ∅ 0 []);
  _ ← forOf (deleteMissing (processedFilePaths l)) existingMetadataList tt;
  _ ← (if 0 <? totalFiles
       then sendDirectoryProcessingPercent totalFiles totalFiles
       else mret tt);
  _ ← updateLoaderDoneReturn
        (fun r => mkLoaderReturn (currentEntriesAdded l) (uniqueId r)
                                 (currentUniqueIds l) (loaderType r));
  mret (mkLoaderReturn (currentEntriesAdded l) directoryLoaderId
                       (currentUniqueIds l) "DirectoryIncrementalScanPart").

(** The task that clears the metadata before a full refresh. *)
Definition clearMetadataTask (directoryPath : string) : Async World LoaderReturn :=
  _ ← deleteDirectoryMetadata directoryPath;
  mret (mkLoaderReturn 0 "deleteMetaTask" [] "PreTask").

(** The task of one file in a full refresh. *)
Definition refreshFileTask (totalFiles : Z) (file : FileType)
  : Async World LoaderReturn :=
  catch
    (result ← addFileLoader env file true;
     hash ← calculateFileHash env (path file);
     mtimeMs ← statSync_mtimeMs env (path file);
     _ ← insertFileMetadata
           (mkFileMetadata (path file) mtimeMs (Runtime.size file) hash (uniqueId result));
     _ ← updateLoaderDoneReturn
           (fun r => mkLoaderReturn (entriesAdded r + 1) (uniqueId r)
                                    (uniqueIds r) (loaderType r));
     _ ← fileProcessed totalFiles;
     _ ← updateLoaderDoneReturn
           (fun r => mkLoaderReturn (entriesAdded r) (uniqueId r)
                                    (uniqueIds r ++ [uniqueId result]) (loaderType r));
     mret result)
    (mret ERROR_LOADER_RETURN).

Definition sum_sizes (files : list FileType) : Z :=
  fold_left (fun acc file => acc + Runtime.size file) files 0.

(** [uuid] is the value [uuidv4()] returns, [files] what
    [getAllFiles(directoryPath)] returns. *)
Definition directoryTask (uuid directoryPath : string) (files : list FileType)
  (forceReload incrementalUpdate : bool) : LoaderTask :=
  let totalFiles := Z.of_nat (length files) in
  let directoryLoaderId := "DirectoryLoader_" +:+ uuid in
  mkLoaderTask
    (if incrementalUpdate && negb forceReload then
       [ mkLoaderTaskItem
           (incrementalTask directoryLoaderId directoryPath files)
           (sum_sizes files) ]
     else
       (if negb incrementalUpdate || forceReload
        then [ mkLoaderTaskItem (clearMetadataTask directoryPath) (1 * MB) ]
        else [])
       ++ map (fun file => mkLoaderTaskItem (refreshFileTask totalFiles file)
                                            (Runtime.size file))
              files)
    (Some (mkLoaderReturn 0 directoryLoaderId [] "DirectoryLoader")).

End WithEnv.

(** The world the master task leaves after its two loops: the last
    progress message and the assignments to [loaderDoneReturn]. *)
Definition finish (totalFiles : Z) (l : Locals) (w : World) : World :=
  mkWorld (db w)
    (trace w
     ++ (if 0 <? totalFiles
         then [DirectoryProcessingPercent totalFiles totalFiles] else []))
    (processedFiles w)
    ((fun r => mkLoaderReturn (currentEntriesAdded l) (uniqueId r)
                              (currentUniqueIds l) (loaderType r))
       <$> loaderDoneReturn w).

(** The value the master task resolves to. *)
Definition scanPart (directoryLoaderId : string) (l : Locals) : LoaderReturn :=
  mkLoaderReturn (currentEntriesAdded l) directoryLoaderId (currentUniqueIds l)
                 "DirectoryIncrementalScanPart".

(** An environment in which every call succeeds: the hash of a file is a
    function of its path, its time is [mtime], and the loader of a file is
    named after its path. *)
Definition steady (mtime : Z) : Env :=
  mkEnv (fun _ p => Some ("sha:" +:+ p))
        (fun _ _ => Some mtime)
        (fun _ f _ => Some (mkLoaderReturn 1 ("loader:" +:+ path f)
                                           ["loader:" +:+ path f] "FileLoader"))
        (fun _ _ => true)
        (fun _ _ => true).

Definition a_txt : FileType := mkFile "/d/a.txt" 50 7.
Definition b_txt : FileType := mkFile "/d/b.txt" 60 7.
Definition row_a : FileMetadata :=
  mkFileMetadata "/d/a.txt" 7 50 "sha:/d/a.txt" "loader:/d/a.txt".
Definition row_b : FileMetadata :=
  mkFileMetadata "/d/b.txt" 7 60 "sha:/d/b.txt" "loader:/d/b.txt".


(** The calls the task of a file makes in a full refresh. *)
Definition refresh_call (file : FileType) (e : Event) : Prop :=
  match e with
  | AddFileLoader f forceReload => f = file /\ forceReload = true
  | CalculateFileHash p | StatSync p => p = path file
  | Database (Insert m) => filePath m = path file
  | DirectoryProcessingPercent _ _ => True
  | _ => False
  end.

Definition not_deleteLoader (e : Event) : Prop := forall u, e <> DeleteLoader u.

(** The file [g] is as its row [e] records it. *)
Definition as_recorded (env : Env) (g : FileType) (e : FileMetadata) : Prop :=
  (forall h, env_hash env h (path g) = Some (hash e))
  /\ (forall h, env_mtimeMs env h (path g) = Some (MetadataStore.lastModified e)).


(** An environment in which no file can be read: [calculateFileHash]
    rejects. *)
Definition unreadable : Env :=
  mkEnv (fun _ _ => None)
        (fun _ _ => Some 7)
        (fun _ f _ => Some (mkLoaderReturn 1 ("loader:" +:+ path f)
                                           ["loader:" +:+ path f] "FileLoader"))
        (fun _ _ => true)
        (fun _ _ => true).

(** An environment in which every statement sent to the database fails. *)
Definition database_down : Env :=
  mkEnv (fun _ p => Some ("sha:" +:+ p))
        (fun _ _ => Some 7)
        (fun _ f _ => Some (mkLoaderReturn 1 ("loader:" +:+ path f)
                                           ["loader:" +:+ path f] "FileLoader"))
        (fun _ _ => true)
        (fun _ _ => false).

(** [remove], once [getRagApplication] has resolved: the loaders are
    deleted one after the other. *)
Definition remove (env : Env) (uniqueIds : list string) : Async World unit :=
  forOf (fun _ id => deleteLoader env id) uniqueIds tt.


End Incremental.


(** ** [KnowledgeMetadataStore.ts]: the [document_metadata] table *)
Module KnowledgeMetadataStore.

(** The columns the callers give; [id], [created_at] and [updated_at] are
    filled in by the database and read by no caller. *)
Record DocumentMetadata := mkDocumentMetadata {
  knowledge_base_id : string;
  file_path : string;
  content_hash : string;
  unique_id_embedjs : string;
  loader_type : string;
  last_modified_timestamp : Z
}.

(** The rows, [(knowledge_base_id, file_path)] being declared [UNIQUE]. *)
Definition Table := list DocumentMetadata.

Definition has_key (kb p : string) (m : DocumentMetadata) : bool :=
  String.eqb (knowledge_base_id m) kb && String.eqb (file_path m) p.

Definition has_unique_id (kb u : string) (m : DocumentMetadata) : bool :=
  String.eqb (knowledge_base_id m) kb && String.eqb (unique_id_embedjs m) u.

(** [INSERT ... ON CONFLICT(knowledge_base_id, file_path) DO UPDATE SET ...] *)
Definition addOrUpdateMetadata (db : Table) (metadata : DocumentMetadata) : Table :=
  let key := has_key (knowledge_base_id metadata) (file_path metadata) in
  if existsb key db then
    map (fun m =>
           if key m then
             mkDocumentMetadata (knowledge_base_id m) (file_path m)
               (content_hash metadata) (unique_id_embedjs metadata)
               (loader_type metadata) (last_modified_timestamp metadata)
           else m) db
  else db ++ [metadata].

Definition getMetadataByPath (db : Table) (kb p : string) : option DocumentMetadata :=
  List.find (has_key kb p) db.

Definition getMetadataByEmbedjsUniqueId (db : Table) (kb u : string)
  : option DocumentMetadata :=
  List.find (has_unique_id kb u) db.

Definition deleteMetadata (db : Table) (kb p : string) : Table :=
  List.filter (fun m => negb (has_key kb p m)) db.

Definition deleteMetadataByEmbedjsUniqueId (db : Table) (kb u : string) : Table :=
  List.filter (fun m => negb (has_unique_id kb u m)) db.

(** [sep] is [path.sep] of the platform. *)
Definition normalizedPath (sep directory_path : string) : string :=
  if endsWith directory_path sep then directory_path else directory_path +:+ sep.

Definition getMetadataByDirectoryPath (sep : string) (db : Table)
  (kb directory_path : string) : Table :=
  List.filter
    (fun m => String.eqb (knowledge_base_id m) kb
              && Sqlite.like (normalizedPath sep directory_path +:+ "%") (file_path m))
    db.

End KnowledgeMetadataStore.

(** ** [KnowledgeService.ts], the revision on top of
    [KnowledgeMetadataStore.ts] *)
Module Hashed.
Import Promise Runtime.
Export KnowledgeMetadataStore.

(** The statements sent to the [document_metadata] table. *)
Inductive Query : Type :=
| SelectByPath (kb filePath : string)
| SelectByDirectory (kb directory : string)
| Upsert (m : DocumentMetadata)
| DeleteByPath (kb filePath : string)
| DeleteByUniqueId (kb uniqueId : string).

Definition Event : Type := Runtime.Event Query.
Definition Env : Type := Runtime.Env Query.
Definition World : Type := Runtime.World DocumentMetadata Query.
Definition LoaderTaskItem : Type := Runtime.LoaderTaskItem DocumentMetadata Query.
Definition LoaderTask : Type := Runtime.LoaderTask DocumentMetadata Query.

(** [existingMetadata && !forceReload && existingMetadata.content_hash === fileHash] *)
Definition unchanged (forceReload : bool) (existingMetadata : DocumentMetadata)
  (fileHash : string) : bool :=
  negb forceReload && String.eqb (content_hash existingMetadata) fileHash.

(** [existingMetadata && (forceReload || existingMetadata.content_hash !== fileHash)] *)
Definition to_replace (forceReload : bool) (existingMetadata : DocumentMetadata)
  (fileHash : string) : bool :=
  forceReload || negb (String.eqb (content_hash existingMetadata) fileHash).

(** [result && result.uniqueId && result.loaderType !== '' && result.uniqueId !== ''] *)
Definition valid_result (result : LoaderReturn) : bool :=
  negb (String.eqb (uniqueId result) "") && negb (String.eqb (loaderType result) "").

Section WithEnv.
Variable env : Env.
(** [base.id] and [path.sep]. *)
Variables (base_id sep : string).

Definition getMetadataByPath (filePath : string)
  : Async World (option DocumentMetadata) :=
  database env (SelectByPath base_id filePath)
    (fun d => Some (KnowledgeMetadataStore.getMetadataByPath d base_id filePath, d)).

Definition getMetadataByDirectoryPath (directory : string)
  : Async World (list DocumentMetadata) :=
  database env (SelectByDirectory base_id directory)
    (fun d => Some (KnowledgeMetadataStore.getMetadataByDirectoryPath sep d base_id directory, d)).

Definition addOrUpdateMetadata (m : DocumentMetadata) : Async World unit :=
  database env (Upsert m)
    (fun d => Some (tt, KnowledgeMetadataStore.addOrUpdateMetadata d m)).

Definition deleteMetadata (filePath : string) : Async World unit :=
  database env (DeleteByPath base_id filePath)
    (fun d => Some (tt, KnowledgeMetadataStore.deleteMetadata d base_id filePath)).

Definition deleteMetadataByEmbedjsUniqueId (u : string) : Async World unit :=
  database env (DeleteByUniqueId base_id u)
    (fun d => Some (tt, KnowledgeMetadataStore.deleteMetadataByEmbedjsUniqueId d base_id u)).

(** The second [if] of both file bodies: the old loader and its row go. *)
Definition replaceExisting (forceReload : bool)
  (existingMetadata : option DocumentMetadata) (fileHash : string)
  : Async World unit :=
  match existingMetadata with
  | Some e =>
      if to_replace forceReload e fileHash then
        _ ← deleteLoader env (unique_id_embedjs e);
        deleteMetadataByEmbedjsUniqueId (unique_id_embedjs e)
      else mret tt
  | None => mret tt
  end.

Definition metadataOf (file : FileType) (fileHash : string) (result : LoaderReturn)
  : DocumentMetadata :=
  mkDocumentMetadata base_id (path file) fileHash (uniqueId result)
                     (loaderType result) (Runtime.lastModified file).

Definition skipped (e : DocumentMetadata) : LoaderReturn :=
  mkLoaderReturn 0 (unique_id_embedjs e) [unique_id_embedjs e] "SkippedUnchanged".

(** *** [fileTask] *)

(** From [addFileLoader] to the end of the [try] block. *)
Definition addAndStore (file : FileType) (forceReload : bool) (fileHash : string)
  : Async World LoaderReturn :=
  result ← addFileLoader env file forceReload;
  _ ← (if valid_result result then
         _ ← addOrUpdateMetadata (metadataOf file fileHash result);
         assignLoaderDoneReturn result
       else assignLoaderDoneReturn ERROR_LOADER_RETURN);
  mret result.

Definition fileTaskBody (file : FileType) (forceReload : bool)
  : Async World LoaderReturn :=
  fileHash ← calculateFileHash env (path file);
  existingMetadata ← getMetadataByPath (path file);
  let rest :=
    _ ← replaceExisting forceReload existingMetadata fileHash;
    addAndStore file forceReload fileHash in
  match existingMetadata with
  | Some e =>
      if unchanged forceReload e fileHash then
        _ ← assignLoaderDoneReturn (skipped e);
        mret (skipped e)
      else rest
  | None => rest
  end.

Definition fileTask (file : FileType) (forceReload : bool) : LoaderTask :=
  mkLoaderTask
    [ mkLoaderTaskItem
        (catch (fileTaskBody file forceReload)
               (_ ← assignLoaderDoneReturn ERROR_LOADER_RETURN;
                mret ERROR_LOADER_RETURN))
        (Runtime.size file) ]
    None.

(** *** [directoryTask] *)

(** [aggregateLoaderDoneReturn.uniqueIds.push(u)] *)
Definition pushUniqueId (u : string) : Async World unit :=
  updateLoaderDoneReturn
    (fun r => mkLoaderReturn (entriesAdded r) (uniqueId r) (uniqueIds r ++ [u])
                             (loaderType r)).

(** [aggregateLoaderDoneReturn.entriesAdded += result.entriesAdded > 0 ? 1 : 0] *)
Definition countEntry (result : LoaderReturn) : Async World unit :=
  updateLoaderDoneReturn
    (fun r => mkLoaderReturn
                (entriesAdded r + (if 0 <? entriesAdded result then 1 else 0))
                (uniqueId r) (uniqueIds r) (loaderType r)).

Definition addAndRecord (totalFiles : Z) (file : FileType) (forceReload : bool)
  (fileHash : string) : Async World LoaderReturn :=
  result ← addFileLoader env file forceReload;
  _ ← (if valid_result result then
         _ ← addOrUpdateMetadata (metadataOf file fileHash result);
         _ ← countEntry result;
         pushUniqueId (uniqueId result)
       else mret tt);
  _ ← fileProcessed totalFiles;
  mret result.

Definition directoryFileBody (totalFiles : Z) (file : FileType) (forceReload : bool)
  : Async World LoaderReturn :=
  fileHash ← calculateFileHash env (path file);
  existingMetadata ← getMetadataByPath (path file);
  let rest :=
    _ ← replaceExisting forceReload existingMetadata fileHash;
    addAndRecord totalFiles file forceReload fileHash in
  match existingMetadata with
  | Some e =>
      if unchanged forceReload e fileHash then
        _ ← pushUniqueId (unique_id_embedjs e);
        _ ← fileProcessed totalFiles;
        mret (skipped e)
      else rest
  | None => rest
  end.

Definition directoryFileTask (totalFiles : Z) (file : FileType) (forceReload : bool)
  : Async World LoaderReturn :=
  catch (directoryFileBody totalFiles file forceReload)
        (_ ← fileProcessed totalFiles; mret ERROR_LOADER_RETURN).

(** The body of [for (const meta of allMetadataInDir)]. *)
Definition deleteIfMissing (currentFilePaths : gset string) (deletedCount : Z)
  (meta : DocumentMetadata) : Async World Z :=
  if decide (file_path meta ∈ currentFilePaths) then mret deletedCount
  else
    _ ← deleteLoader env (unique_id_embedjs meta);
    _ ← deleteMetadata (file_path meta);
    mret (deletedCount + 1).

(** The task that handles deleted files. *)
Definition deletionCheckTask (uuid directory : string) (currentFilePaths : gset string)
  : Async World LoaderReturn :=
  catch
    (allMetadataInDir ← getMetadataByDirectoryPath directory;
     _ ← forOf (deleteIfMissing currentFilePaths) allMetadataInDir 0;
     mret (mkLoaderReturn 0 ("DeletionCheck_" +:+ uuid) [] "DeletionCheck"))
    (mret ERROR_LOADER_RETURN).

(** [uuid1] and [uuid2] are the two values [uuidv4()] returns, [files] the
    files of the directory. *)
Definition directoryTask (uuid1 uuid2 directory : string) (files : list FileType)
  (forceReload : bool) : LoaderTask :=
  let totalFiles := Z.of_nat (length files) in
  let currentFilePaths : gset string := list_to_set (map path files) in
  mkLoaderTask
    (map (fun file => mkLoaderTaskItem (directoryFileTask totalFiles file forceReload)
                                       (Runtime.size file))
         files
     ++ [ mkLoaderTaskItem (deletionCheckTask uuid2 directory currentFilePaths)
                           (1 * MB) ])
    (Some (mkLoaderReturn 0 ("DirectoryLoader_" +:+ uuid1) [] "DirectoryLoader")).

End WithEnv.


(** An environment in which every call succeeds and every file has the
    content hash [h]. *)
Definition steady (h : string) : Env :=
  mkEnv (fun _ _ => Some h)
        (fun _ _ => Some 7)
        (fun _ f _ => Some (mkLoaderReturn 1 ("loader:" +:+ path f)
                                           ["loader:" +:+ path f] "FileLoader"))
        (fun _ _ => true)
        (fun _ _ => true).

(** The row an earlier sync left for [/d/a.txt] in the knowledge base
    [kb]. *)
Definition doc_a : DocumentMetadata :=
  mkDocumentMetadata "kb" "/d/a.txt" "sha:earlier" "loader:old" "FileLoader" 7.

(** [remove], once [getRagApplication] has resolved: for each id the
    loader is deleted, then the rows that store the id. *)
Definition remove (env : Env) (base_id : string) (uniqueIds : list string)
  : Async World unit :=
  forOf (fun _ id => _ ← deleteLoader env id;
                     deleteMetadataByEmbedjsUniqueId env base_id id)
        uniqueIds tt.

(** The rows [remove] leaves: those of another knowledge base and those
    whose loader id is not in [uniqueIds]. *)
Definition kept (base_id : string) (uniqueIds : list string) (m : DocumentMetadata)
  : bool :=
  negb (String.eqb (knowledge_base_id m) base_id
        && existsb (String.eqb (unique_id_embedjs m)) uniqueIds).

(** An environment in which every call succeeds and the loader reports an
    empty [uniqueId]. *)
Definition nameless : Env :=
  mkEnv (fun _ _ => Some "sha:new")
        (fun _ _ => Some 7)
        (fun _ _ _ => Some (mkLoaderReturn 1 "" [] "FileLoader"))
        (fun _ _ => true)
        (fun _ _ => true).

(** [/d/a.txt] with the content [doc_a] records and a later time stamp. *)
Definition touched_a : FileType := mkFile "/d/a.txt" 50 9.

(** The calls a forced reload of [file] starts with, from the history
    [before], [old] being the row found for the path: the hash and the row
    are read, the loader and the row of [old] are deleted, then the file is
    added. *)
Definition forced_calls (base_id : string) (file : FileType)
  (old : option DocumentMetadata) (before after : list Event) : Prop :=
  exists rest,
    after
    = before
      ++ [CalculateFileHash (path file); Database (SelectByPath base_id (path file))]
      ++ match old with
         | Some e => [DeleteLoader (unique_id_embedjs e);
                      Database (DeleteByUniqueId base_id (unique_id_embedjs e))]
         | None => []
         end
      ++ AddFileLoader file true :: rest.

End Hashed.


(** * Properties *)

(** ** The processing queue *)
Module SchedulerFacts.
Import Scheduler.

Lemma maximumLoad_false (w c : Z) :
  maximumLoad w c = false <->
  c < MAXIMUM_PROCESSING_ITEM_COUNT /\ w < MAXIMUM_WORKLOAD.
Proof.
  unfold maximumLoad. rewrite orb_false_iff, !Z.leb_gt. tauto.
Qed.

Lemma maximumLoad_true (w c : Z) :
  maximumLoad w c = true <->
  MAXIMUM_PROCESSING_ITEM_COUNT <= c \/ MAXIMUM_WORKLOAD <= w.
Proof.
  unfold maximumLoad. rewrite orb_true_iff, !Z.leb_le. tauto.
Qed.

Lemma sum_workload_app (a b : list LoaderTaskItem) :
  sum_workload (a ++ b) = sum_workload a + sum_workload b.
Proof.
  induction a as [|it a IH]; simpl; [reflexivity|]. rewrite IH. lia.
Qed.

Lemma admissible_app (w c : Z) (a b : list LoaderTaskItem) :
  admissible w c (a ++ b) <->
  admissible w c a
  /\ admissible (w + sum_workload a) (c + Z.of_nat (length a)) b.
Proof.
  revert w c. induction a as [|it a IH]; intros w c; simpl.
  - rewrite !Z.add_0_r. tauto.
  - rewrite IH.
    replace (w + evaluateTaskWorkload it + sum_workload a)
      with (w + (evaluateTaskWorkload it + sum_workload a)) by lia.
    replace (c + 1 + Z.of_nat (length a))
      with (c + Z.pos (Pos.of_succ_nat (length a))) by lia.
    tauto.
Qed.


Lemma scanItems_spec (items : list LoaderTaskItem) (w c : Z) :
  scan_spec (fun l => l) w c items (scanItems w c items).
Proof.
  revert w c. induction items as [|it rest IH]; intros w c; simpl.
  - constructor; simpl; try discriminate; auto with zarith; lia.
  - destruct (maximumLoad w c) eqn:Hmax.
    + constructor; simpl; try discriminate; auto with zarith; lia.
    + destruct (IH (w + evaluateTaskWorkload it) (c + 1)) as [P1 W1 C1 A1 B1 D1].
      destruct (IH w c) as [P2 W2 C2 A2 B2 D2].
      destruct (is_pending (state it)) eqn:Hst.
      * constructor; simpl; auto.
        -- rewrite Hst. simpl. f_equal. exact P1.
        -- rewrite W1. lia.
        -- rewrite C1. lia.
      * constructor; simpl; auto.
        -- rewrite Hst. exact P2.
        -- rewrite Hst. exact D2.
Qed.

Lemma filter_flat_map_cons {A B} (f : A -> list B) (p : B -> bool) (x : A) (l : list A) :
  List.filter p (flat_map f (x :: l)) = List.filter p (f x) ++ List.filter p (flat_map f l).
Proof. simpl. apply List.filter_app. Qed.

Lemma scanTasks_spec (tasks : list LoaderTaskOfSet) (w c : Z) :
  scan_spec allItems w c tasks (scanTasks w c tasks).
Proof.
  revert w c. induction tasks as [|t rest IH]; intros w c.
  - constructor; simpl; try discriminate; auto with zarith; lia.
  - cbn [scanTasks].
    destruct (scanItems_spec (loaderTasks t) w c) as [P1 W1 C1 A1 B1 D1].
    simpl in P1, D1.
    destruct (sc_break (scanItems w c (loaderTasks t))) eqn:Hb.
    + constructor; cbn [sc_admitted sc_items sc_workload sc_count sc_break];
        auto; [|discriminate].
      unfold allItems. rewrite !filter_flat_map_cons. simpl loaderTasks.
      rewrite P1, <- app_assoc. reflexivity.
    + specialize (D1 eq_refl). rewrite D1, app_nil_r in P1.
      destruct (IH (sc_workload (scanItems w c (loaderTasks t)))
                   (sc_count (scanItems w c (loaderTasks t))))
        as [P2 W2 C2 A2 B2 D2].
      constructor; cbn [sc_admitted sc_items sc_workload sc_count sc_break]; auto.
      * unfold allItems in *. rewrite !filter_flat_map_cons. simpl loaderTasks.
        rewrite D1, P1, P2, <- app_assoc. reflexivity.
      * rewrite W2, W1, sum_workload_app. lia.
      * rewrite C2, C1, length_app. lia.
      * apply admissible_app. rewrite <- W1, <- C1. auto.
      * intros Hb'. unfold allItems in *. rewrite filter_flat_map_cons.
        simpl loaderTasks. rewrite D1, (D2 Hb'). reflexivity.
Qed.

(** C2 (as amended).  The admission scan admits the [PENDING] items in map
    order for as long as [maximumLoad()] is false on the counters it has
    reached, and stops at the first item it meets with [maximumLoad()] true:
    the items left [PENDING] are the rest of the list, in order.  The test
    reads the counters as they are before the item; the item's own estimate
    is added only after it is admitted. *)
Theorem admission_scan_admits_while_below_caps (s : Service) :
  let r := getSubtasksUntilMaximumLoad s in
  pendingItems (queue s) = sc_admitted r ++ pendingItems (sc_items r)
  /\ admissible (workload s) (processingItemCount s) (sc_admitted r)
  /\ sc_workload r = workload s + sum_workload (sc_admitted r)
  /\ sc_count r = processingItemCount s + Z.of_nat (length (sc_admitted r))
  /\ (pendingItems (sc_items r) <> [] ->
      maximumLoad (sc_workload r) (sc_count r) = true).
Proof.
  unfold getSubtasksUntilMaximumLoad, pendingItems.
  destruct (scanTasks_spec (queue s) (workload s) (processingItemCount s))
    as [P1 W1 C1 A1 B1 D1].
  repeat split; auto.
  intros Hne. apply B1.
  destruct (sc_break (scanTasks (workload s) (processingItemCount s) (queue s)));
    [reflexivity|]. exfalso. apply Hne. apply D1. reflexivity.
Qed.

(** C2, the claim as stated, fails: an item of 100 MB met with both
    counters at zero is admitted, although its estimate added to the total
    is over [MAXIMUM_WORKLOAD]. *)
Lemma oversized_item_is_admitted :
  ~ (forall (s : Service) (it : LoaderTaskItem),
        sc_admitted (getSubtasksUntilMaximumLoad s) = [it] ->
        workload s + evaluateTaskWorkload it <= MAXIMUM_WORKLOAD).
Proof.
  intros H.
  specialize (H (mkService 0 0 [mkTask 0 [mkItem 0 PENDING (100 * MB)]])
                (mkItem 0 PENDING (100 * MB)) eq_refl).
  vm_compute in H. apply H. reflexivity.
Qed.


Lemma scanItems_bounded (W : Z) (items : list LoaderTaskItem) (w c : Z) :
  bounded W w c items ->
  let r := scanItems w c items in
  bounded W (sc_workload r) (sc_count r) (sc_items r).
Proof.
  revert w c. induction items as [|it rest IH]; intros w c (Hc & Hw & Hall); simpl.
  - repeat split; auto.
  - apply Forall_cons in Hall as [Hit Hrest].
    destruct (maximumLoad w c) eqn:Hmax; simpl.
    + repeat split; auto.
    + apply maximumLoad_false in Hmax as [Hc' Hw'].
      destruct (is_pending (state it)); simpl.
      * destruct (IH (w + evaluateTaskWorkload it) (c + 1)) as (? & ? & ?).
        { repeat split; auto; lia. }
        repeat split; auto.
      * destruct (IH w c) as (? & ? & ?).
        { repeat split; auto. }
        repeat split; auto.
Qed.

Lemma scanTasks_bounded (W : Z) (tasks : list LoaderTaskOfSet) (w c : Z) :
  bounded W w c (allItems tasks) ->
  let r := scanTasks w c tasks in
  bounded W (sc_workload r) (sc_count r) (allItems (sc_items r)).
Proof.
  revert w c. induction tasks as [|t rest IH]; intros w c (Hc & Hw & Hall).
  - repeat split; auto.
  - unfold allItems in Hall. simpl in Hall. apply Forall_app in Hall as [Ht Hrest].
    destruct (scanItems_bounded W (loaderTasks t) w c) as (Hc1 & Hw1 & Hall1).
    { repeat split; auto. }
    cbn [scanTasks].
    destruct (sc_break (scanItems w c (loaderTasks t))); simpl.
    + repeat split; auto. apply Forall_app; auto.
    + destruct (IH (sc_workload (scanItems w c (loaderTasks t)))
                   (sc_count (scanItems w c (loaderTasks t)))) as (? & ? & ?).
      { repeat split; auto. }
      repeat split; auto. apply Forall_app; auto.
Qed.

Lemma delete_from_task_items (tid iid : nat) (tasks : list LoaderTaskOfSet)
  (P : LoaderTaskItem -> Prop) :
  Forall P (allItems tasks) ->
  Forall P (allItems (flat_map (delete_from_task tid iid) tasks)).
Proof.
  induction tasks as [|t rest IH]; intros Hall; [exact Hall|].
  unfold allItems in *. simpl in Hall. apply Forall_app in Hall as [Ht Hrest].
  simpl. rewrite flat_map_app. apply Forall_app. split; [|auto].
  unfold delete_from_task. destruct (Nat.eqb (task_id t) tid).
  - assert (Hsub : Forall P (delete_item iid (loaderTasks t))).
    { unfold delete_item. rewrite List.Forall_forall in *.
      intros x Hx. apply Ht. apply List.filter_In in Hx. tauto. }
    destruct (delete_item iid (loaderTasks t)); simpl; [constructor|].
    rewrite app_nil_r. exact Hsub.
  - simpl. rewrite app_nil_r. exact Ht.
Qed.

Lemma step_bounded (W : Z) (s s' : Service) :
  step W s s' ->
  bounded W (workload s) (processingItemCount s) (allItems (queue s)) ->
  bounded W (workload s') (processingItemCount s') (allItems (queue s')).
Proof.
  intros Hstep (Hc & Hw & Hall). destruct Hstep as [s t (_ & _ & Hsub) | s t it Ht Hit Hst].
  - apply scanTasks_bounded. simpl. repeat split; auto.
    unfold allItems. rewrite flat_map_app. apply Forall_app. split; [exact Hall|].
    simpl. rewrite app_nil_r. eapply Forall_impl; [exact Hsub|].
    simpl. tauto.
  - apply scanTasks_bounded. simpl.
    assert (Hb : 0 <= evaluateTaskWorkload it <= W).
    { rewrite List.Forall_forall in Hall. apply Hall. unfold allItems.
      apply in_flat_map. exists t. auto. }
    repeat split; [lia | lia |].
    apply delete_from_task_items. exact Hall.
Qed.

(** C1 (as amended).  In every state the service reaches,
    [processingItemCount] is at most [MAXIMUM_PROCESSING_ITEM_COUNT], and
    [workload] stays below [MAXIMUM_WORKLOAD] plus the largest estimate [W]
    of a submitted item: the cap is tested before an item is admitted, so
    the total passes it by less than one item's estimate. *)
Theorem counters_within_caps_up_to_one_item (W : Z) (s : Service) :
  0 <= W ->
  reachable W s ->
  processingItemCount s <= MAXIMUM_PROCESSING_ITEM_COUNT
  /\ workload s < MAXIMUM_WORKLOAD + W.
Proof.
  intros HW Hreach.
  assert (H : bounded W (workload s) (processingItemCount s) (allItems (queue s))).
  { induction Hreach as [|s s' _ IH Hstep].
    - repeat split; simpl; [unfold MAXIMUM_PROCESSING_ITEM_COUNT; lia | | constructor].
      unfold MAXIMUM_WORKLOAD, MB. lia.
    - eapply step_bounded; eauto. }
  destruct H as (Hc & Hw & _). auto.
Qed.


Lemma one_big_file_reachable : reachable (100 * MB) (add one_big_file init).
Proof.
  eapply reach_step; [apply reach_init|]. apply step_add.
  split; [simpl; tauto|]. split.
  - simpl. apply NoDup_cons. split; [apply not_elem_of_nil | apply NoDup_nil_2].
  - repeat constructor; unfold MB; simpl; lia.
Qed.

Lemma counters_within_caps_up_to_one_item_witness :
  processingItemCount (add one_big_file init) <= MAXIMUM_PROCESSING_ITEM_COUNT
  /\ workload (add one_big_file init) < MAXIMUM_WORKLOAD + 100 * MB.
Proof.
  apply (counters_within_caps_up_to_one_item (100 * MB) (add one_big_file init)).
  - unfold MB. lia.
  - exact one_big_file_reachable.
Defined.

(** C1, the claim as stated, fails: after one file of 100 MB is added to
    the idle service, [workload] is 100 MB, over [MAXIMUM_WORKLOAD]. *)
Lemma workload_exceeds_cap :
  ~ (forall (W : Z) (s : Service),
        reachable W s ->
        processingItemCount s <= MAXIMUM_PROCESSING_ITEM_COUNT
        /\ workload s <= MAXIMUM_WORKLOAD).
Proof.
  intros H. destruct (H _ _ one_big_file_reachable) as [_ Hw].
  vm_compute in Hw. apply Hw. reflexivity.
Qed.

End SchedulerFacts.

(** ** The directory query of the two stores *)
Module DirectoryQueryFacts.
Import Sqlite.

Lemma like_percent_anything (s : string) : like "%" s = true.
Proof. induction s as [|c s IH]; simpl in *; [reflexivity|exact IH]. Qed.

(** A pattern that starts with [%] may skip any prefix of the text. *)
Lemma like_percent_skip (q a b : string) :
  like q b = true -> like (String "%" q) (a +:+ b) = true.
Proof.
  intros Hq. induction a as [|c a IH]; simpl in *.
  - destruct b; simpl; rewrite Hq; reflexivity.
  - rewrite IH. apply orb_true_r.
Qed.

Lemma same_char_refl (c : ascii) : same_char c c = true.
Proof. unfold same_char. apply Ascii.eqb_refl. Qed.

(** Every text that begins with [p] is matched by the pattern [p%],
    whatever characters [p] is made of. *)
Lemma like_prefix_complete (p s : string) : like (p +:+ "%") (p +:+ s) = true.
Proof.
  induction p as [|c p IH]; [apply like_percent_anything|].
  destruct (Ascii.eqb c "%") eqn:Hpc.
  - apply Ascii.eqb_eq in Hpc as ->.
    apply (like_percent_skip (p +:+ "%") (String "%" EmptyString) (p +:+ s)), IH.
  - simpl. rewrite Hpc. destruct (Ascii.eqb c "_").
    + exact IH.
    + change (same_char c c && like (p +:+ "%") (p +:+ s) = true).
      rewrite same_char_refl. exact IH.
Qed.

Lemma startsWith_split (s pre : string) :
  startsWith s pre = true -> exists rest, s = pre +:+ rest.
Proof.
  unfold startsWith. revert s. induction pre as [|c pre IH]; intros s H.
  - exists s. reflexivity.
  - destruct s as [|d s]; simpl in H; [discriminate|].
    destruct (Ascii.ascii_dec c d) as [->|]; [|discriminate].
    destruct (IH s H) as [rest ->]. exists rest. reflexivity.
Qed.

Import MetadataStore.

(** The rows under the directory are all returned. *)
Lemma getDirectoryMetadata_complete (db : Table) (directoryPath : string)
  (m : FileMetadata) :
  In m db ->
  startsWith (filePath m) (pathPrefix directoryPath) = true ->
  In m (getDirectoryMetadata db directoryPath).
Proof.
  intros Hin Hpre. unfold getDirectoryMetadata. apply List.filter_In. split; [exact Hin|].
  apply startsWith_split in Hpre as [rest ->]. apply like_prefix_complete.
Qed.

(** A query for [/a/b] returns no row under [/a/bc]. *)
Lemma sibling_with_longer_name_not_returned (db : Table) (m : FileMetadata) :
  In m (getDirectoryMetadata db "/a/b") ->
  startsWith (filePath m) "/a/bc/" = false.
Proof.
  unfold getDirectoryMetadata. intros Hin. apply List.filter_In in Hin as [_ Hlike].
  destruct (startsWith (filePath m) "/a/bc/") eqn:Hpre; [|reflexivity].
  apply startsWith_split in Hpre as [rest Heq]. rewrite Heq in Hlike.
  vm_compute in Hlike. discriminate.
Qed.


(** C9 fails on the code: [_] in a directory name is a
    wildcard of [LIKE], so the query for [/a/b_c] also returns the row of
    [/a/bxc/g.txt], which does not begin with [/a/b_c/]. *)
Theorem underscore_directory_returns_sibling_rows :
  getDirectoryMetadata [under_b_c; under_bxc] "/a/b_c" = [under_b_c; under_bxc]
  /\ startsWith (filePath under_bxc) (pathPrefix "/a/b_c") = false.
Proof. split; reflexivity. Qed.

(** The same on the [document_metadata] table. *)
Lemma underscore_directory_returns_sibling_documents :
  let doc p u := KnowledgeMetadataStore.mkDocumentMetadata "kb" p "h" u "FileLoader" 1 in
  KnowledgeMetadataStore.getMetadataByDirectoryPath "/"
    [doc "/a/b_c/f.txt" "u1"; doc "/a/bxc/g.txt" "u2"] "kb" "/a/b_c"
  = [doc "/a/b_c/f.txt" "u1"; doc "/a/bxc/g.txt" "u2"].
Proof. reflexivity. Qed.

End DirectoryQueryFacts.

(** ** Running the units of work *)
Module PromiseFacts.
Import Promise.

Lemma await_fulfilled {W A B} (m : Async W A) (k : A -> Async W B) (w w' : W) (a : A) :
  m w = (Fulfilled a, w') -> (m ≫= k) w = k a w'.
Proof. intros H. unfold mbind, async_bind, await. rewrite H. reflexivity. Qed.

Lemma await_rejected {W A B} (m : Async W A) (k : A -> Async W B) (w w' : W) :
  m w = (Rejected, w') -> (m ≫= k) w = (Rejected, w').
Proof. intros H. unfold mbind, async_bind, await. rewrite H. reflexivity. Qed.

Lemma await_inv {W A B} (m : Async W A) (k : A -> Async W B) (w w2 : W) (b : B) :
  (m ≫= k) w = (Fulfilled b, w2) ->
  exists a w1, m w = (Fulfilled a, w1) /\ k a w1 = (Fulfilled b, w2).
Proof.
  unfold mbind, async_bind, await. destruct (m w) as [[a|] w1]; intros H.
  - exists a, w1. auto.
  - discriminate.
Qed.

(** A [try]/[catch] whose handler resolves never rejects. *)
Lemma catch_fulfilled {W A} (m h : Async W A) :
  (forall w, exists a w', h w = (Fulfilled a, w')) ->
  forall w, exists a w', catch m h w = (Fulfilled a, w').
Proof.
  intros Hh w. unfold catch. destruct (m w) as [[a|] w1]; eauto.
Qed.

(** A loop keeps an invariant [I] of the elements done so far, the loop
    variables and the world; [R] is what is known once an iteration has
    rejected. *)
Lemma forOf_invariant {W A S} (body : S -> A -> Async W S) (l : list A)
  (I : list A -> S -> W -> Prop) (R : W -> Prop) :
  (forall done x rest s w,
      l = done ++ x :: rest -> I done s w ->
      match body s x w with
      | (Fulfilled s', w') => I (done ++ [x]) s' w'
      | (Rejected, w') => R w'
      end) ->
  forall s w, I [] s w ->
  match forOf body l s w with
  | (Fulfilled s', w') => I l s' w'
  | (Rejected, w') => R w'
  end.
Proof.
  intros Hbody.
  assert (H : forall rest done s w,
             l = done ++ rest -> I done s w ->
             match forOf body rest s w with
             | (Fulfilled s', w') => I l s' w'
             | (Rejected, w') => R w'
             end).
  { induction rest as [|x rest IH]; intros done s w Hl HI; simpl.
    - rewrite app_nil_r in Hl. subst. exact HI.
    - unfold await. specialize (Hbody done x rest s w Hl HI).
      destruct (body s x w) as [[s'|] w']; [|exact Hbody].
      apply (IH (done ++ [x])); [|exact Hbody].
      rewrite <- app_assoc. exact Hl. }
  intros s w HI. apply (H l [] s w); auto.
Qed.

End PromiseFacts.

(** ** The revision with [incrementalUpdate] *)
Module IncrementalFacts.
Import Promise Runtime Incremental PromiseFacts.

Ltac run :=
  unfold mbind, async_bind, mret, async_ret, await, resolve, catch, modify,
    calculateFileHash, statSync_mtimeMs, deleteLoader, addFileLoader,
    fileProcessed, sendDirectoryProcessingPercent, updateLoaderDoneReturn,
    assignLoaderDoneReturn, Incremental.getDirectoryMetadata,
    Incremental.insertFileMetadata, Incremental.updateFileMetadata,
    Incremental.deleteFileMetadata, Incremental.deleteDirectoryMetadata,
    database, external, log, set_db, set_processedFiles, set_loaderDoneReturn;
  cbn [fst snd trace db processedFiles loaderDoneReturn option_bind].

Lemma changed_iff (e : FileMetadata) (h : string) (mt : Z) :
  changed e h mt = true <-> hash e <> h \/ MetadataStore.lastModified e <> mt.
Proof.
  unfold changed. rewrite orb_true_iff, !negb_true_iff.
  rewrite <- !not_true_iff_false, String.eqb_eq, Z.eqb_eq. tauto.
Qed.

Lemma unchanged_iff (e : FileMetadata) (h : string) (mt : Z) :
  changed e h mt = false <-> hash e = h /\ MetadataStore.lastModified e = mt.
Proof.
  unfold changed. rewrite orb_false_iff, !negb_false_iff.
  rewrite String.eqb_eq, Z.eqb_eq. tauto.
Qed.

Section PerFile.
Variable env : Env.
Variables (existingMetadataMap : gmap string FileMetadata) (totalFiles : Z).
Variables (l : Locals) (file : FileType) (existingFileMeta : FileMetadata).
Variables (w : World) (currentHash : string) (mtimeMs : Z).

Hypothesis has_record : existingMetadataMap !! path file = Some existingFileMeta.
Hypothesis hash_now : env_hash env (trace w) (path file) = Some currentHash.
Hypothesis mtime_now :
  env_mtimeMs env (trace w ++ [CalculateFileHash (path file)]) (path file)
  = Some mtimeMs.

Let seen : gset string := processedFilePaths l ∪ {[ path file ]}.
Let read : list Event :=
  trace w ++ [CalculateFileHash (path file); StatSync (path file)].
Let update : PartialFileMetadata -> Prop := fun u =>
  p_filePath u = None /\ p_lastModified u = Some mtimeMs
  /\ p_size u = Some (Runtime.size file) /\ p_hash u = Some currentHash.

(** An unchanged file: the iteration only reads the hash and the time. *)
Lemma incrementalFile_unchanged :
  changed existingFileMeta currentHash mtimeMs = false ->
  incrementalFile env existingMetadataMap totalFiles l file w
  = (Fulfilled (mkLocals seen (currentEntriesAdded l)
                         (currentUniqueIds l ++ [filePath existingFileMeta])),
     mkWorld (db w)
             (read ++ [DirectoryProcessingPercent totalFiles (processedFiles w + 1)])
             (processedFiles w + 1) (loaderDoneReturn w)).
Proof.
  intros Hsame. unfold incrementalFile. run.
  rewrite hash_now; run. rewrite mtime_now, has_record, Hsame; run.
  subst read. rewrite <- !app_assoc. reflexivity.
Qed.

(** A changed file: [deleteLoader] on the stored id comes first; when the
    iteration completes, [addFileLoader] with [forceReload] and the update
    of the row have followed. *)
Lemma incrementalFile_changed :
  changed existingFileMeta currentHash mtimeMs = true ->
  let r := incrementalFile env existingMetadataMap totalFiles l file w in
  exists rest,
    trace r.2 = read ++ DeleteLoader (embedjs_unique_id existingFileMeta) :: rest
    /\ forall l', r.1 = Fulfilled l' ->
       exists result u,
         rest = [AddFileLoader file true; Database (Update (path file) u);
                 DirectoryProcessingPercent totalFiles (processedFiles w + 1)]
         /\ update u /\ p_embedjs_unique_id u = Some (uniqueId result)
         /\ MetadataStore.updateFileMetadata (db w) (path file) u = Some (db r.2)
         /\ l' = mkLocals seen (currentEntriesAdded l + 1)
                          (currentUniqueIds l ++ [uniqueId result]).
Proof.
  intros Hdiff. unfold incrementalFile. run.
  rewrite hash_now; run. rewrite mtime_now, has_record, Hdiff; run.
  subst read.
  destruct (env_deleteLoader env _ _); run;
    [|eexists; split; [rewrite <- !app_assoc; reflexivity | discriminate]].
  destruct (env_addFileLoader env _ _ _) as [result|]; run;
    [|eexists; split; [rewrite <- !app_assoc; reflexivity | discriminate]].
  destruct (env_database env _ _); run;
    [|eexists; split; [rewrite <- !app_assoc; reflexivity | discriminate]].
  destruct (MetadataStore.updateFileMetadata (db w) (path file) _) as [d'|] eqn:Hup;
    run; [|eexists; split; [rewrite <- !app_assoc; reflexivity | discriminate]].
  eexists. split; [rewrite <- !app_assoc; reflexivity|].
  intros l' Hl'. injection Hl' as <-.
  eexists result, _. split; [reflexivity|]. split; [repeat split|].
  split; [reflexivity|]. split; [exact Hup|reflexivity].
Qed.

End PerFile.

(** *** The rows of a path under statements on another path *)

Lemma filter_map_same {A} (p : A -> bool) (g : A -> A) (d : list A) :
  (forall m, p (g m) = p m) -> (forall m, p m = true -> g m = m) ->
  List.filter p (map g d) = List.filter p d.
Proof.
  intros Hp Hg. induction d as [|m d IH]; simpl; [reflexivity|].
  rewrite Hp. destruct (p m) eqn:Hm; [rewrite (Hg m Hm)|]; rewrite IH; reflexivity.
Qed.

Lemma has_path_false (p q : string) (m : FileMetadata) :
  q <> p -> has_path p m = true -> has_path q m = false.
Proof.
  unfold has_path. intros Hne Hp. apply String.eqb_eq in Hp.
  apply String.eqb_neq. congruence.
Qed.

Lemma updateFileMetadata_other (d d' : Table) (p q : string) (v : PartialFileMetadata) :
  MetadataStore.updateFileMetadata d q v = Some d' ->
  q <> p -> p_filePath v = None ->
  List.filter (has_path p) d' = List.filter (has_path p) d.
Proof.
  unfold MetadataStore.updateFileMetadata. intros H Hne Hv.
  destruct (partial_is_empty v); [congruence|].
  destruct (no_duplicate_keys _); [|discriminate]. injection H as <-.
  apply filter_map_same.
  - intros m. destruct (has_path q m); [|reflexivity].
    unfold has_path, apply_partial. simpl. rewrite Hv. reflexivity.
  - intros m Hm. rewrite (has_path_false p q m Hne Hm). reflexivity.
Qed.

Lemma insertFileMetadata_other (d d' : Table) (p : string) (m : FileMetadata) :
  MetadataStore.insertFileMetadata d m = Some d' ->
  filePath m <> p ->
  List.filter (has_path p) d' = List.filter (has_path p) d.
Proof.
  unfold MetadataStore.insertFileMetadata. intros H Hne.
  destruct (_ || _); [discriminate|]. injection H as <-.
  rewrite List.filter_app. simpl. unfold has_path at 2.
  apply String.eqb_neq in Hne. rewrite Hne. apply app_nil_r.
Qed.

Lemma deleteFileMetadata_other (d : Table) (p q : string) :
  q <> p ->
  List.filter (has_path p) (MetadataStore.deleteFileMetadata d q)
  = List.filter (has_path p) d.
Proof.
  intros Hne. unfold MetadataStore.deleteFileMetadata.
  induction d as [|m d IH]; simpl; [reflexivity|].
  destruct (has_path p m) eqn:Hp.
  - rewrite (has_path_false p q m Hne Hp). simpl. rewrite Hp, IH. reflexivity.
  - destruct (has_path q m); simpl; [|rewrite Hp]; exact IH.
Qed.

Lemma deleteFileMetadata_gone (d : Table) (q : string) (m : FileMetadata) :
  In m (MetadataStore.deleteFileMetadata d q) -> filePath m <> q.
Proof.
  unfold MetadataStore.deleteFileMetadata. intros H.
  apply List.filter_In in H as [_ H]. apply negb_true_iff in H.
  unfold has_path in H. apply String.eqb_neq in H. exact H.
Qed.

Lemma deleteFileMetadata_sub (d : Table) (q : string) (m : FileMetadata) :
  In m (MetadataStore.deleteFileMetadata d q) -> In m d.
Proof.
  unfold MetadataStore.deleteFileMetadata. intros H.
  apply List.filter_In in H. tauto.
Qed.

(** *** The snapshot the master task works from *)

Lemma existingMetadataMapOf_lookup (rows : list FileMetadata) (q : string)
  (e : FileMetadata) :
  existingMetadataMapOf rows !! q = Some e -> In e rows /\ filePath e = q.
Proof.
  unfold existingMetadataMapOf. intros H.
  apply elem_of_list_to_map_2, elem_of_reverse, list_elem_of_In, in_map_iff in H.
  destruct H as (m & Heq & Hin). injection Heq as <- <-. auto.
Qed.

Lemma getDirectoryMetadata_sub (d : Table) (dir : string) (m : FileMetadata) :
  In m (MetadataStore.getDirectoryMetadata d dir) -> In m d.
Proof.
  unfold MetadataStore.getDirectoryMetadata. intros H.
  apply List.filter_In in H. tauto.
Qed.

Lemma unique_ids_distinct (d : Table) (e r : FileMetadata) :
  List.NoDup (map embedjs_unique_id d) ->
  In e d -> In r d -> filePath e <> filePath r ->
  embedjs_unique_id e <> embedjs_unique_id r.
Proof.
  induction d as [|m d IH]; simpl; intros Hnd He Hr Hne; [tauto|].
  apply List.NoDup_cons_iff in Hnd as [Hm Hnd].
  destruct He as [->|He], Hr as [->|Hr]; auto.
  - intros Heq. apply Hm. rewrite Heq. apply in_map. exact Hr.
  - intros Heq. apply Hm. rewrite <- Heq. apply in_map. exact He.
Qed.

Ltac split_call :=
  match goal with
  | |- context [match env_hash ?e ?t ?p with _ => _ end] =>
      destruct (env_hash e t p) eqn:?
  | |- context [match env_mtimeMs ?e ?t ?p with _ => _ end] =>
      destruct (env_mtimeMs e t p) eqn:?
  | |- context [if env_deleteLoader ?e ?t ?u then _ else _] =>
      destruct (env_deleteLoader e t u) eqn:?
  | |- context [match env_addFileLoader ?e ?t ?f ?b with _ => _ end] =>
      destruct (env_addFileLoader e t f b) eqn:?
  | |- context [if env_database ?e ?t ?q then _ else _] =>
      destruct (env_database e t q) eqn:?
  | |- context [match @lookup _ _ (gmap _ _) _ ?k ?M with _ => _ end] =>
      destruct (M !! k) eqn:?
  | |- context [if changed ?a ?b ?c then _ else _] =>
      destruct (changed a b c) eqn:?
  | |- context [MetadataStore.updateFileMetadata ?d ?p ?u] =>
      destruct (MetadataStore.updateFileMetadata d p u) eqn:?
  | |- context [MetadataStore.insertFileMetadata ?d ?m] =>
      destruct (MetadataStore.insertFileMetadata d m) eqn:?
  end; run.

(** *** The master task, loop by loop *)
Section MasterTask.
Variable env : Env.
Variables (directoryLoaderId directoryPath : string) (files : list FileType).
Variable w0 : World.

Let rows : list FileMetadata :=
  MetadataStore.getDirectoryMetadata (db w0) directoryPath.
Let totalFiles : Z := Z.of_nat (length files).

Lemma incrementalTask_run :
  incrementalTask env directoryLoaderId directoryPath files w0
  = if env_database env (trace w0) (SelectDirectory directoryPath) then
      match forOf (incrementalFile env (existingMetadataMapOf rows) totalFiles)
                  files (mkLocals ∅ 0 [])
                  (log (Database (SelectDirectory directoryPath)) w0) with
      | (Fulfilled l, w2) =>
          match forOf (deleteMissing env (processedFilePaths l)) rows tt w2 with
          | (Fulfilled _, w3) =>
              (Fulfilled (scanPart directoryLoaderId l), finish totalFiles l w3)
          | (Rejected, w3) => (Rejected, w3)
          end
      | (Rejected, w2) => (Rejected, w2)
      end
    else (Rejected, log (Database (SelectDirectory directoryPath)) w0).
Proof.
  unfold incrementalTask. run.
  destruct (env_database env (trace w0) (SelectDirectory directoryPath)); run;
    [|reflexivity].
  fold rows totalFiles.
  destruct (forOf _ files _ _) as [[l|] w2]; [|reflexivity].
  destruct (forOf _ rows _ _) as [[[]|] w3]; [|reflexivity].
  unfold finish, scanPart. destruct (0 <? totalFiles); run.
  - reflexivity.
  - rewrite app_nil_r. destruct w3; reflexivity.
Qed.

End MasterTask.

Section UnchangedFile.
Variable env : Env.
Variables (directoryLoaderId directoryPath : string) (files : list FileType).
Variables (f : FileType) (r : FileMetadata) (w0 : World).

Let rows : list FileMetadata :=
  MetadataStore.getDirectoryMetadata (db w0) directoryPath.

Hypothesis in_scope : In f files.
Hypothesis unique_ids : List.NoDup (map embedjs_unique_id (db w0)).
Hypothesis has_record : existingMetadataMapOf rows !! path f = Some r.
Hypothesis same_hash : forall h, env_hash env h (path f) = Some (hash r).
Hypothesis same_time :
  forall h, env_mtimeMs env h (path f) = Some (MetadataStore.lastModified r).

Let quiet (e : Event) : Prop := concerns (path f) (embedjs_unique_id r) e = false.

Let untouched (w : World) : Prop :=
  Forall quiet (trace w)
  /\ List.filter (has_path (path f)) (db w) = List.filter (has_path (path f)) (db w0).

Lemma other_row_other_id (e : FileMetadata) :
  In e rows -> filePath e <> path f ->
  String.eqb (embedjs_unique_id e) (embedjs_unique_id r) = false.
Proof.
  intros He Hne. apply String.eqb_neq.
  destruct (existingMetadataMapOf_lookup _ _ _ has_record) as [Hr Hp].
  apply (unique_ids_distinct (db w0)); auto.
  - eapply getDirectoryMetadata_sub; eauto.
  - eapply getDirectoryMetadata_sub; eauto.
  - congruence.
Qed.

Lemma untouched_file_iteration (totalFiles : Z) (l : Locals) (g : FileType) (w : World) :
  untouched w ->
  match incrementalFile env (existingMetadataMapOf rows) totalFiles l g w with
  | (Fulfilled l', w') =>
      untouched w' /\ processedFilePaths l' = processedFilePaths l ∪ {[ path g ]}
  | (Rejected, w') => untouched w'
  end.
Proof.
  intros [Hq Hdb]. destruct (String.eqb_spec (path g) (path f)) as [Heq|Hne].
  - rewrite (incrementalFile_unchanged env _ totalFiles l g r w (hash r)
               (MetadataStore.lastModified r)).
    + split; [|reflexivity]. split; [|exact Hdb]. simpl.
      rewrite !Forall_app. repeat split; auto; repeat constructor.
    + rewrite Heq. exact has_record.
    + rewrite Heq. apply same_hash.
    + rewrite Heq. apply same_time.
    + apply unchanged_iff. auto.
  - assert (Hg : String.eqb (path g) (path f) = false) by (apply String.eqb_neq; exact Hne).
    assert (Hid : forall e, existingMetadataMapOf rows !! path g = Some e ->
                   String.eqb (embedjs_unique_id e) (embedjs_unique_id r) = false).
    { intros e He. apply existingMetadataMapOf_lookup in He as [He Hp].
      apply other_row_other_id; [exact He | congruence]. }
    unfold incrementalFile. run. repeat split_call.
    all: unfold untouched; simpl; repeat split; try reflexivity.
    all: try (rewrite !Forall_app; repeat split; try exact Hq;
              apply Forall_singleton; unfold quiet; simpl;
              rewrite ?Hg; try reflexivity; eauto).
    all: try exact Hdb.
    + rewrite <- Hdb. eapply updateFileMetadata_other; eauto.
    + rewrite <- Hdb. eapply insertFileMetadata_other; eauto.
Qed.
Lemma untouched_delete_iteration (seen : gset string) (oldMeta : FileMetadata)
  (w : World) :
  In oldMeta rows -> path f ∈ seen -> untouched w ->
  untouched (deleteMissing env seen tt oldMeta w).2.
Proof.
  intros Hin Hseen [Hq Hdb]. unfold deleteMissing.
  destruct (decide (filePath oldMeta ∈ seen)) as [|Hout]; [split; assumption|].
  assert (Hne : filePath oldMeta <> path f) by congruence.
  assert (Hp : String.eqb (filePath oldMeta) (path f) = false)
    by (apply String.eqb_neq; exact Hne).
  pose proof (other_row_other_id oldMeta Hin Hne) as Hid.
  run. repeat split_call.
  all: unfold untouched; simpl; repeat split.
  all: try (rewrite !Forall_app; repeat split; try exact Hq;
            apply Forall_singleton; unfold quiet; simpl;
            rewrite ?Hp; try reflexivity; eauto).
  all: try exact Hdb.
  rewrite <- Hdb. apply deleteFileMetadata_other. exact Hne.
Qed.

Lemma untouched_files_loop (totalFiles : Z) (w : World) :
  untouched w ->
  match forOf (incrementalFile env (existingMetadataMapOf rows) totalFiles) files
              (mkLocals ∅ 0 []) w with
  | (Fulfilled l, w') =>
      untouched w' /\ forall g, In g files -> path g ∈ processedFilePaths l
  | (Rejected, w') => untouched w'
  end.
Proof.
  intros Hw.
  apply (forOf_invariant _ files
           (fun done l w => untouched w
              /\ forall g, In g done -> path g ∈ processedFilePaths l)
           untouched).
  - intros done g rest l w1 _ [HI Hseen].
    pose proof (untouched_file_iteration totalFiles l g w1 HI) as Hit.
    destruct (incrementalFile _ _ _ l g w1) as [[l'|] w']; [|exact Hit].
    destruct Hit as [HI' Hl']. split; [exact HI'|].
    intros g' Hg'. rewrite Hl'. apply in_app_or in Hg' as [Hg'|[<-|[]]].
    + apply elem_of_union_l. auto.
    + apply elem_of_union_r, elem_of_singleton. reflexivity.
  - split; [exact Hw|]. intros g [].
Qed.

Lemma untouched_delete_loop (seen : gset string) (w : World) :
  path f ∈ seen -> untouched w ->
  untouched (forOf (deleteMissing env seen) rows tt w).2.
Proof.
  intros Hseen Hw.
  pose proof (forOf_invariant (deleteMissing env seen) rows
                (fun _ _ w => untouched w) untouched) as Hloop.
  assert (Hbody : forall done x rest s w1,
             rows = done ++ x :: rest -> untouched w1 ->
             match deleteMissing env seen s x w1 with
             | (Fulfilled _, w') => untouched w'
             | (Rejected, w') => untouched w'
             end).
  { intros done x rest [] w1 Hl HI.
    pose proof (untouched_delete_iteration seen x w1) as Hit.
    destruct (deleteMissing env seen () x w1) as [[[]|] w2]; simpl in Hit;
      apply Hit; auto; rewrite Hl; apply in_or_app; right; left; reflexivity. }
  specialize (Hloop Hbody tt w Hw).
  destruct (forOf (deleteMissing env seen) rows tt w) as [[u|] w']; exact Hloop.
Qed.

Lemma incrementalTask_untouched :
  Forall quiet (trace w0) ->
  untouched (incrementalTask env directoryLoaderId directoryPath files w0).2.
Proof.
  intros Hq0. rewrite incrementalTask_run. fold rows.
  assert (Hw1 : untouched (log (Database (SelectDirectory directoryPath)) w0)).
  { split; simpl; [|reflexivity]. rewrite Forall_app. split; [exact Hq0|].
    apply Forall_singleton. reflexivity. }
  destruct (env_database env (trace w0) (SelectDirectory directoryPath));
    [|exact Hw1].
  pose proof (untouched_files_loop (Z.of_nat (length files)) _ Hw1) as Hfiles.
  destruct (forOf _ files _ _) as [[l|] w2]; [|exact Hfiles].
  destruct Hfiles as [Hw2 Hseen].
  pose proof (untouched_delete_loop (processedFilePaths l) w2
                (Hseen f in_scope) Hw2) as Hdel.
  destruct (forOf _ rows _ _) as [[[]|] w3]; [|exact Hdel].
  destruct Hdel as [Hq3 Hdb3]. split; [|exact Hdb3]. simpl.
  rewrite Forall_app. split; [exact Hq3|].
  destruct (0 <? _); [apply Forall_singleton; reflexivity | constructor].
Qed.

End UnchangedFile.

(** In an incremental sync of a directory, a file of the listing whose
    hash and last-modified time are both those of its row is left alone: no
    [addFileLoader] for its path, no [deleteLoader] for its stored id, no
    statement on its row, and the row is as it was. *)
Lemma unchanged_file_is_left_alone (env : Env) (uuid directoryPath : string)
  (files : list FileType) (d : Table) (f : FileType) (r : FileMetadata) :
  In f files ->
  List.NoDup (map embedjs_unique_id d) ->
  existingMetadataMapOf (MetadataStore.getDirectoryMetadata d directoryPath)
    !! path f = Some r ->
  (forall h, env_hash env h (path f) = Some (hash r)) ->
  (forall h, env_mtimeMs env h (path f) = Some (MetadataStore.lastModified r)) ->
  let w' := (runTask (directoryTask env uuid directoryPath files false true) d).2 in
  Forall (fun e => concerns (path f) (embedjs_unique_id r) e = false) (trace w')
  /\ List.filter (has_path (path f)) (db w') = List.filter (has_path (path f)) d.
Proof.
  intros Hin Hnd Hrow Hhash Htime. unfold runTask, directoryTask. simpl.
  pose proof (incrementalTask_untouched env ("DirectoryLoader_" +:+ uuid)
                directoryPath files f r
                (start (mkLoaderTask [] (Some (mkLoaderReturn 0
                          ("DirectoryLoader_" +:+ uuid) [] "DirectoryLoader"))) d)
                Hin Hnd Hrow Hhash Htime (Forall_nil_2 _)) as H.
  unfold start in *. simpl in *.
  destruct (incrementalTask _ _ _ _ _) as [res w']. exact H.
Qed.

(** For a file of the listing that has a row, the iteration of the
    incremental sync deletes the old loader (and goes on to re-add the file
    and rewrite the row) exactly when the hash or the last-modified time
    differs from the row's; when both match it only reads the hash and the
    time, reports progress and pushes the row's path. *)
Lemma iteration_classifies_by_hash_or_time (env : Env)
  (existingMetadataMap : gmap string FileMetadata) (totalFiles : Z) (l : Locals)
  (file : FileType) (existingFileMeta : FileMetadata) (w : World)
  (currentHash : string) (mtimeMs : Z) :
  existingMetadataMap !! path file = Some existingFileMeta ->
  env_hash env (trace w) (path file) = Some currentHash ->
  env_mtimeMs env (trace w ++ [CalculateFileHash (path file)]) (path file)
  = Some mtimeMs ->
  let r := incrementalFile env existingMetadataMap totalFiles l file w in
  let seen := processedFilePaths l ∪ {[ path file ]} in
  let read := trace w ++ [CalculateFileHash (path file); StatSync (path file)] in
  let progress := DirectoryProcessingPercent totalFiles (processedFiles w + 1) in
  ((hash existingFileMeta <> currentHash
    \/ MetadataStore.lastModified existingFileMeta <> mtimeMs)
   <-> exists rest,
         trace r.2 = read ++ DeleteLoader (embedjs_unique_id existingFileMeta) :: rest)
  /\ (forall rest l',
        trace r.2 = read ++ DeleteLoader (embedjs_unique_id existingFileMeta) :: rest ->
        r.1 = Fulfilled l' ->
        exists result u,
          rest = [AddFileLoader file true; Database (Update (path file) u); progress]
          /\ u = mkPartial None (Some mtimeMs) (Some (Runtime.size file))
                           (Some currentHash) (Some (uniqueId result))
          /\ MetadataStore.updateFileMetadata (db w) (path file) u = Some (db r.2)
          /\ l' = mkLocals seen (currentEntriesAdded l + 1)
                           (currentUniqueIds l ++ [uniqueId result]))
  /\ (hash existingFileMeta = currentHash
      /\ MetadataStore.lastModified existingFileMeta = mtimeMs ->
      r = (Fulfilled (mkLocals seen (currentEntriesAdded l)
                               (currentUniqueIds l ++ [filePath existingFileMeta])),
           mkWorld (db w) (read ++ [progress]) (processedFiles w + 1)
                   (loaderDoneReturn w))).
Proof.
  intros Hrow Hhash Htime r seen read progress.
  assert (Hsame : changed existingFileMeta currentHash mtimeMs = false -> r = _)
    by exact (incrementalFile_unchanged env _ totalFiles l file existingFileMeta w
                currentHash mtimeMs Hrow Hhash Htime).
  pose proof (incrementalFile_changed env _ totalFiles l file existingFileMeta w
                currentHash mtimeMs Hrow Hhash Htime) as Hdiff.
  fold r in Hdiff. simpl in Hdiff.
  split; [|split].
  - rewrite <- changed_iff. split.
    + intros Hch. destruct (Hdiff Hch) as (rest & Ht & _). exists rest. exact Ht.
    + intros [rest Ht]. destruct (changed _ _ _) eqn:Hch; [reflexivity|].
      rewrite (Hsame eq_refl) in Ht. simpl in Ht.
      apply app_inv_head in Ht. discriminate.
  - intros rest l' Ht Hl'.
    destruct (changed existingFileMeta currentHash mtimeMs) eqn:Hch.
    + destruct (Hdiff eq_refl) as (rest' & Ht' & Hdone).
      rewrite Ht' in Ht. apply app_inv_head in Ht. injection Ht as <-.
      destruct (Hdone l' Hl') as (result & u & -> & (H1 & H2 & H3 & H4) & H5 & H6 & H7).
      exists result, u. repeat split; auto.
      destruct u; simpl in *; congruence.
    + rewrite (Hsame eq_refl) in Ht. simpl in Ht.
      apply app_inv_head in Ht. discriminate.
  - intros Heq. apply Hsame, unchanged_iff. exact Heq.
Qed.

(** *** The calls the master task can make *)
Section Alphabet.
Variable env : Env.
Variables (directoryLoaderId directoryPath : string) (files : list FileType).
Variable w0 : World.
Variable P : Event -> Prop.

Let rows : list FileMetadata :=
  MetadataStore.getDirectoryMetadata (db w0) directoryPath.
Let totalFiles : Z := Z.of_nat (length files).

Hypothesis P_select : P (Database (SelectDirectory directoryPath)).
Hypothesis P_read :
  forall g, In g files -> P (CalculateFileHash (path g)) /\ P (StatSync (path g)).
Hypothesis P_progress : forall n, P (DirectoryProcessingPercent totalFiles n).
Hypothesis P_changed :
  forall g e, In g files -> In e rows -> filePath e = path g ->
    P (DeleteLoader (embedjs_unique_id e)) /\ P (AddFileLoader g true)
    /\ forall u, p_filePath u = None -> P (Database (Update (path g) u)).
Hypothesis P_new :
  forall g, In g files ->
    P (AddFileLoader g false)
    /\ forall m, filePath m = path g -> P (Database (Insert m)).
Hypothesis P_missing :
  forall e, In e rows -> ~ In (filePath e) (map path files) ->
    P (DeleteLoader (embedjs_unique_id e)) /\ P (Database (Delete (filePath e))).

Lemma incrementalFile_events (l : Locals) (g : FileType) (w : World) :
  In g files -> Forall P (trace w) ->
  match incrementalFile env (existingMetadataMapOf rows) totalFiles l g w with
  | (Fulfilled l', w') =>
      Forall P (trace w')
      /\ processedFilePaths l' = processedFilePaths l ∪ {[ path g ]}
  | (Rejected, w') => Forall P (trace w')
  end.
Proof.
  intros Hg Hw. destruct (P_read g Hg) as [Ph Ps]. destruct (P_new g Hg) as [Pa Pi].
  assert (Pc : forall e, existingMetadataMapOf rows !! path g = Some e ->
                 P (DeleteLoader (embedjs_unique_id e)) /\ P (AddFileLoader g true)
                 /\ forall u, p_filePath u = None -> P (Database (Update (path g) u))).
  { intros e He. apply existingMetadataMapOf_lookup in He as [He Hp]. auto. }
  unfold incrementalFile. run. repeat split_call.
  all: simpl; repeat split; try reflexivity.
  all: rewrite !Forall_app; repeat split; try exact Hw; apply Forall_singleton; auto.
  all: try (apply Pi; reflexivity).
  all: destruct (Pc _ eq_refl) as (? & ? & ?); auto.
Qed.

Lemma files_loop_events (w : World) :
  Forall P (trace w) ->
  match forOf (incrementalFile env (existingMetadataMapOf rows) totalFiles) files
              (mkLocals ∅ 0 []) w with
  | (Fulfilled l, w') =>
      Forall P (trace w')
      /\ forall q, q ∈ processedFilePaths l <-> In q (map path files)
  | (Rejected, w') => Forall P (trace w')
  end.
Proof.
  intros Hw.
  apply (forOf_invariant _ files
           (fun done l w => Forall P (trace w)
              /\ forall q, q ∈ processedFilePaths l <-> In q (map path done))
           (fun w => Forall P (trace w))).
  - intros done g rest l w1 Hl [HI Hseen].
    assert (Hg : In g files) by (rewrite Hl; apply in_or_app; right; left; reflexivity).
    pose proof (incrementalFile_events l g w1 Hg HI) as Hit.
    destruct (incrementalFile _ _ _ l g w1) as [[l'|] w']; [|exact Hit].
    destruct Hit as [HI' Hl']. split; [exact HI'|].
    intros q. rewrite Hl', map_app, in_app_iff, elem_of_union, elem_of_singleton, Hseen.
    simpl. intuition congruence.
  - split; [exact Hw|]. intros q. simpl. split; [|tauto].
    intros Hq. apply elem_of_empty in Hq. exact Hq.
Qed.

Lemma deleteMissing_events (seen : gset string) (oldMeta : FileMetadata) (w : World) :
  (forall q, q ∈ seen <-> In q (map path files)) ->
  In oldMeta rows -> Forall P (trace w) ->
  Forall P (trace (deleteMissing env seen tt oldMeta w).2).
Proof.
  intros Hseen Hin Hw. unfold deleteMissing.
  destruct (decide (filePath oldMeta ∈ seen)) as [|Hout]; [exact Hw|].
  rewrite Hseen in Hout. destruct (P_missing oldMeta Hin Hout) as [Pd Pr].
  run. repeat split_call.
  all: simpl; rewrite !Forall_app; repeat split; try exact Hw;
    apply Forall_singleton; auto.
Qed.

Lemma delete_loop_events (seen : gset string) (w : World) :
  (forall q, q ∈ seen <-> In q (map path files)) ->
  Forall P (trace w) ->
  Forall P (trace (forOf (deleteMissing env seen) rows tt w).2).
Proof.
  intros Hseen Hw.
  pose proof (forOf_invariant (deleteMissing env seen) rows
                (fun _ _ w => Forall P (trace w)) (fun w => Forall P (trace w)))
    as Hloop.
  assert (Hbody : forall done x rest s w1,
             rows = done ++ x :: rest -> Forall P (trace w1) ->
             match deleteMissing env seen s x w1 with
             | (Fulfilled _, w') => Forall P (trace w')
             | (Rejected, w') => Forall P (trace w')
             end).
  { intros done x rest [] w1 Hl HI.
    pose proof (deleteMissing_events seen x w1 Hseen) as Hit.
    destruct (deleteMissing env seen () x w1) as [[[]|] w2]; simpl in Hit;
      apply Hit; auto; rewrite Hl; apply in_or_app; right; left; reflexivity. }
  specialize (Hloop Hbody tt w Hw).
  destruct (forOf (deleteMissing env seen) rows tt w) as [[u|] w']; exact Hloop.
Qed.

(** Every call of the master task is one of those listed in the
    hypotheses above. *)
Lemma incrementalTask_events :
  Forall P (trace w0) ->
  Forall P (trace (incrementalTask env directoryLoaderId directoryPath files w0).2).
Proof.
  intros Hq0. rewrite incrementalTask_run. fold rows totalFiles.
  assert (Hw1 : Forall P (trace (log (Database (SelectDirectory directoryPath)) w0))).
  { simpl. rewrite Forall_app. split; [exact Hq0|]. apply Forall_singleton. auto. }
  destruct (env_database env (trace w0) (SelectDirectory directoryPath));
    [|exact Hw1].
  pose proof (files_loop_events _ Hw1) as Hfiles.
  destruct (forOf _ files _ _) as [[l|] w2]; [|exact Hfiles].
  destruct Hfiles as [Hw2 Hseen].
  pose proof (delete_loop_events (processedFilePaths l) w2 Hseen Hw2) as Hdel.
  destruct (forOf _ rows _ _) as [[[]|] w3]; [|exact Hdel].
  simpl in *. rewrite Forall_app. split; [exact Hdel|].
  destruct (0 <? _); [apply Forall_singleton; auto | constructor].
Qed.

End Alphabet.

(** The paths the first loop has collected are those of the listing. *)
Lemma files_loop_seen (env : Env) (directoryPath : string) (files : list FileType)
  (w0 w : World) :
  match forOf (incrementalFile env
                 (existingMetadataMapOf
                    (MetadataStore.getDirectoryMetadata (db w0) directoryPath))
                 (Z.of_nat (length files)))
              files (mkLocals ∅ 0 []) w with
  | (Fulfilled l, _) => forall q, q ∈ processedFilePaths l <-> In q (map path files)
  | (Rejected, _) => True
  end.
Proof.
  pose proof (files_loop_events env directoryPath files w0 (fun _ => True)
                (fun _ _ => conj I I) (fun _ => I)
                (fun _ _ _ _ _ => conj I (conj I (fun _ _ => I)))
                (fun _ _ => conj I (fun _ _ => I)) w
                (proj2 (List.Forall_forall _ _) (fun _ _ => I))) as H.
  destruct (forOf _ files _ _) as [[l|] w2]; [tauto|exact I].
Qed.

(** *** Files that have gone from the directory *)
Section MissingFiles.
Variable env : Env.
Variables (directoryLoaderId directoryPath : string) (files : list FileType).
Variable w0 : World.

Let rows : list FileMetadata :=
  MetadataStore.getDirectoryMetadata (db w0) directoryPath.

(** The rows of [rows] met so far that are not in [seen] have had their
    loader deleted and are no longer in the table. *)
Let swept (seen : gset string) (done : list FileMetadata) (w : World) : Prop :=
  forall m, In m done -> filePath m ∉ seen ->
    In (DeleteLoader (embedjs_unique_id m)) (trace w)
    /\ forall x, In x (db w) -> filePath x <> filePath m.

Lemma deleteMissing_sweeps (seen : gset string) (done : list FileMetadata)
  (oldMeta : FileMetadata) (w : World) :
  swept seen done w ->
  match deleteMissing env seen tt oldMeta w with
  | (Fulfilled _, w') => swept seen (done ++ [oldMeta]) w'
  | (Rejected, _) => True
  end.
Proof.
  intros Hsw. unfold deleteMissing.
  destruct (decide (filePath oldMeta ∈ seen)) as [Hin|Hout].
  - simpl. intros m Hm Hnot. apply in_app_or in Hm as [Hm|[<-|[]]]; [auto|tauto].
  - run. repeat split_call; try exact I.
    intros m Hm Hnot. simpl.
    apply in_app_or in Hm as [Hm|[<-|[]]].
    + destruct (Hsw m Hm Hnot) as [Hdel Hgone]. split.
      * apply in_or_app. left. apply in_or_app. left. exact Hdel.
      * intros x Hx. apply Hgone. eapply deleteFileMetadata_sub. exact Hx.
    + split.
      * apply in_or_app. left. apply in_or_app. right. left. reflexivity.
      * intros x Hx. eapply deleteFileMetadata_gone. exact Hx.
Qed.

Lemma delete_loop_sweeps (seen : gset string) (w : World) :
  match forOf (deleteMissing env seen) rows tt w with
  | (Fulfilled _, w') => swept seen rows w'
  | (Rejected, _) => True
  end.
Proof.
  apply (forOf_invariant (deleteMissing env seen) rows
           (fun done _ w => swept seen done w) (fun _ => True)).
  - intros done x rest [] w1 _ HI. apply deleteMissing_sweeps. exact HI.
  - intros m [].
Qed.

Lemma incrementalTask_sweeps (ret : LoaderReturn) (w' : World) :
  incrementalTask env directoryLoaderId directoryPath files w0 = (Fulfilled ret, w') ->
  forall m, In m rows -> ~ In (filePath m) (map path files) ->
    In (DeleteLoader (embedjs_unique_id m)) (trace w')
    /\ forall x, In x (db w') -> filePath x <> filePath m.
Proof.
  rewrite incrementalTask_run. fold rows.
  destruct (env_database env (trace w0) (SelectDirectory directoryPath));
    [|discriminate].
  pose proof (files_loop_seen env directoryPath files w0
                (log (Database (SelectDirectory directoryPath)) w0)) as Hseen.
  fold rows in Hseen.
  destruct (forOf _ files _ _) as [[l|] w2]; [|discriminate].
  pose proof (delete_loop_sweeps (processedFilePaths l) w2) as Hdel.
  destruct (forOf _ rows _ _) as [[[]|] w3]; [|discriminate].
  intros Heq m Hm Hnot. injection Heq as _ <-.
  destruct (Hdel m Hm) as [Hd Hg]; [rewrite Hseen; exact Hnot|].
  split; [|exact Hg]. simpl. apply in_or_app. left. exact Hd.
Qed.

End MissingFiles.

(** In an incremental sync of a directory: no row of a
    file of the listing is deleted; and when the master task completes,
    every row under the directory whose path is not in the listing has had
    [deleteLoader] called on its stored id and is gone from the table. *)
Lemma incremental_sync_deletes_missing_files (env : Env) (uuid directoryPath : string)
  (files : list FileType) (d : Table) :
  let r := runTask (directoryTask env uuid directoryPath files false true) d in
  (forall q, In q (map path files) -> ~ In (Database (Delete q)) (trace r.2))
  /\ (forall ret, r.1 = [Fulfilled ret] ->
      forall m, In m d ->
        startsWith (filePath m) (pathPrefix directoryPath) = true ->
        ~ In (filePath m) (map path files) ->
        In (DeleteLoader (embedjs_unique_id m)) (trace r.2)
        /\ forall x, In x (db r.2) -> filePath x <> filePath m).
Proof.
  unfold runTask, directoryTask. simpl.
  set (w0 := start _ d).
  set (id := "DirectoryLoader_" +:+ uuid).
  split.
  - intros q Hq.
    pose proof (incrementalTask_events env id directoryPath files w0
                  (fun e => forall q, e = Database (Delete q) ->
                                      ~ In q (map path files))) as H.
    destruct (incrementalTask env id directoryPath files w0) as [res w'].
    simpl in *. intros Hdel.
    assert (Hall : Forall (fun e => forall q, e = Database (Delete q) ->
                                     ~ In q (map path files)) (trace w')).
    { apply H; try (intros; repeat split; intros; discriminate).
      - intros e He Hout. split; [discriminate|].
        intros q' Heq. injection Heq as <-. exact Hout.
      - constructor. }
    rewrite List.Forall_forall in Hall. exact (Hall _ Hdel q eq_refl Hq).
  - intros ret Hret m Hm Hpre Hout.
    destruct (incrementalTask env id directoryPath files w0) as [res w'] eqn:Hrun.
    simpl in *. injection Hret as ->.
    apply (incrementalTask_sweeps env id directoryPath files w0 ret w' Hrun m);
      [|exact Hout].
    apply DirectoryQueryFacts.getDirectoryMetadata_complete; assumption.
Qed.

(** *** The old loader goes before the row is rewritten *)


Section Ordering.
Variable env : Env.
Variables (directoryLoaderId directoryPath : string) (files : list FileType).
Variable w0 : World.

Let rows : list FileMetadata :=
  MetadataStore.getDirectoryMetadata (db w0) directoryPath.





End Ordering.


(** *** Full refresh *)

(** The units of work of a full refresh call [deleteLoader] for no file. *)
Lemma clearMetadataTask_no_deleteLoader (env : Env) (directoryPath : string)
  (w : World) (P : Event -> Prop) :
  P (Database (DeleteDirectory directoryPath)) ->
  Forall P (trace w) -> Forall P (trace (clearMetadataTask env directoryPath w).2).
Proof.
  intros HP Hw. unfold clearMetadataTask. run. repeat split_call.
  all: simpl; rewrite Forall_app; split; [exact Hw|apply Forall_singleton; exact HP].
Qed.


(** The task of a file re-adds it with [forceReload] whatever the table and
    the hash are, and makes no other call than those of [refresh_call]. *)
Lemma refreshFileTask_calls (env : Env) (totalFiles : Z) (file : FileType) (w : World) :
  exists rest,
    trace (refreshFileTask env totalFiles file w).2
    = trace w ++ AddFileLoader file true :: rest
    /\ Forall (refresh_call file) rest.
Proof.
  unfold refreshFileTask. run. repeat split_call.
  all: simpl; rewrite <- ?app_assoc; simpl; eexists; split; [reflexivity|].
  all: repeat constructor.
Qed.


Lemma refresh_call_not_deleteLoader (file : FileType) (e : Event) :
  refresh_call file e -> not_deleteLoader e.
Proof. intros H u ->. exact H. Qed.

Lemma refresh_items_calls (env : Env) (totalFiles : Z) (files : list FileType)
  (w : World) :
  let r := runItems
             (map (fun file => mkLoaderTaskItem (refreshFileTask env totalFiles file)
                                                (Runtime.size file)) files) w in
  exists more,
    trace r.2 = trace w ++ more
    /\ (forall f, In f files -> In (AddFileLoader f true) more)
    /\ Forall not_deleteLoader more.
Proof.
  revert w. induction files as [|file files IH]; intros w; simpl.
  - exists []. rewrite app_nil_r. split; [reflexivity|].
    split; [intros f []|constructor].
  - destruct (refreshFileTask_calls env totalFiles file w) as (rest & Ht & Hrest).
    destruct (refreshFileTask env totalFiles file w) as [res w1]. simpl in Ht.
    specialize (IH w1). cbv zeta in IH.
    destruct (runItems _ w1) as [rs w2]. simpl in *.
    destruct IH as (more & Hmore & Hadds & Hnone).
    exists (AddFileLoader file true :: rest ++ more). repeat split.
    + rewrite Hmore, Ht, <- app_assoc. reflexivity.
    + intros f [<-|Hf]; [left; reflexivity|].
      right. apply in_or_app. right. auto.
    + constructor; [intros u; discriminate|]. apply Forall_app. split; [|exact Hnone].
      eapply Forall_impl; [exact Hrest|]. apply refresh_call_not_deleteLoader.
Qed.

(** In the revision with [incrementalUpdate], with [forceReload] the
    directory task first clears the rows of the directory, re-adds every
    file of the listing with [addFileLoader(..., true)], whatever the rows
    and the hashes were, and calls [deleteLoader] for none. *)
Lemma forced_refresh_readds_without_deleteLoader (env : Env)
  (uuid directoryPath : string) (files : list FileType) (incrementalUpdate : bool)
  (d : Table) :
  let r := runTask (directoryTask env uuid directoryPath files true incrementalUpdate) d in
  (exists rest, trace r.2 = Database (DeleteDirectory directoryPath) :: rest)
  /\ (forall f, In f files -> In (AddFileLoader f true) (trace r.2))
  /\ (forall u, ~ In (DeleteLoader u) (trace r.2)).
Proof.
  unfold runTask, directoryTask. rewrite andb_false_r, orb_true_r.
  cbn [Runtime.loaderTasks app runItems task]. set (w0 := start _ d).
  assert (Hfirst : trace (clearMetadataTask env directoryPath w0).2
                   = [Database (DeleteDirectory directoryPath)]).
  { unfold clearMetadataTask. run. repeat split_call; reflexivity. }
  destruct (clearMetadataTask env directoryPath w0) as [res w1]. simpl in *.
  pose proof (refresh_items_calls env (Z.of_nat (length files)) files w1) as Hfiles.
  cbv zeta in Hfiles. destruct (runItems _ w1) as [rs w2]. simpl in *.
  destruct Hfiles as (more & Hmore & Hadds & Hnone). rewrite Hmore, Hfirst.
  repeat split.
  - exists more. reflexivity.
  - intros f Hf. right. auto.
  - intros u [Hu|Hu]; [discriminate|].
    rewrite List.Forall_forall in Hnone. exact (Hnone _ Hu u eq_refl).
Qed.

(** *** What the master task reports *)
Section Reported.
Variable env : Env.
Variables (directoryLoaderId directoryPath : string) (files : list FileType).
Variable w0 : World.

Let rows : list FileMetadata :=
  MetadataStore.getDirectoryMetadata (db w0) directoryPath.


(** The entry [u] pushed for [g] is the path of the row when [g] is as its
    row records it. *)
Let entry (g : FileType) (u : string) : Prop :=
  forall e, existingMetadataMapOf rows !! path g = Some e ->
            as_recorded env g e -> u = filePath e.

Lemma incrementalFile_reports (totalFiles : Z) (l : Locals) (g : FileType) (w : World) :
  match incrementalFile env (existingMetadataMapOf rows) totalFiles l g w with
  | (Fulfilled l', w') =>
      (exists u, currentUniqueIds l' = currentUniqueIds l ++ [u] /\ entry g u)
      /\ currentEntriesAdded l <= currentEntriesAdded l'
      /\ loaderDoneReturn w' = loaderDoneReturn w
  | (Rejected, _) => True
  end.
Proof.
  unfold incrementalFile, entry. run. repeat split_call; try exact I.
  all: simpl; split; [|split; [lia|reflexivity]].
  all: eexists; split; [reflexivity|].
  all: intros e He [Hh Ht]; try discriminate.
  - injection He as <-. exfalso.
    rewrite Hh in *. rewrite Ht in *.
    repeat match goal with H : Some _ = Some _ |- _ => injection H as <- end.
    match goal with
    | H : changed _ _ _ = true |- _ =>
        apply not_false_iff_true in H; apply H, unchanged_iff; auto
    end.
  - injection He as <-. reflexivity.
Qed.

Lemma deleteMissing_keeps_loaderDoneReturn (seen : gset string)
  (oldMeta : FileMetadata) (w : World) :
  loaderDoneReturn (deleteMissing env seen tt oldMeta w).2 = loaderDoneReturn w.
Proof.
  unfold deleteMissing. destruct (decide _); [reflexivity|].
  run. repeat split_call; reflexivity.
Qed.

Lemma incrementalTask_reports (ret : LoaderReturn) (w' : World) :
  incrementalTask env directoryLoaderId directoryPath files w0 = (Fulfilled ret, w') ->
  Forall2 entry files (uniqueIds ret)
  /\ loaderDoneReturn w'
     = (fun r => mkLoaderReturn (entriesAdded ret) (uniqueId r) (uniqueIds ret)
                                (loaderType r)) <$> loaderDoneReturn w0.
Proof.
  rewrite incrementalTask_run. fold rows.
  destruct (env_database env (trace w0) (SelectDirectory directoryPath));
    [|discriminate].
  pose proof (forOf_invariant
                (incrementalFile env (existingMetadataMapOf rows)
                   (Z.of_nat (length files)))
                files
                (fun done l w => Forall2 entry done (currentUniqueIds l)
                                 /\ loaderDoneReturn w = loaderDoneReturn w0)
                (fun _ => True)) as Hfiles.
  assert (Hbody1 : forall done x rest s w1,
             files = done ++ x :: rest ->
             Forall2 entry done (currentUniqueIds s)
             /\ loaderDoneReturn w1 = loaderDoneReturn w0 ->
             match incrementalFile env (existingMetadataMapOf rows)
                     (Z.of_nat (length files)) s x w1 with
             | (Fulfilled s', w') =>
                 Forall2 entry (done ++ [x]) (currentUniqueIds s')
                 /\ loaderDoneReturn w' = loaderDoneReturn w0
             | (Rejected, w') => True
             end).
  { intros done x rest s w1 _ [HI Hl].
    pose proof (incrementalFile_reports (Z.of_nat (length files)) s x w1) as Hit.
    destruct (incrementalFile _ _ _ s x w1) as [[s'|] w2]; [|exact I].
    destruct Hit as ((u & -> & Hu) & _ & ->). split; [|exact Hl].
    apply Forall2_app; [exact HI|]. constructor; [exact Hu|constructor]. }
  cbv beta in Hfiles.
  specialize (Hfiles Hbody1 (mkLocals ∅ 0 [])
                (log (Database (SelectDirectory directoryPath)) w0)).
  simpl in Hfiles. specialize (Hfiles (conj (List.Forall2_nil entry) eq_refl)).
  destruct (forOf _ files _ _) as [[l|] w2]; [|discriminate].
  destruct Hfiles as [Hentries Hl2].
  pose proof (forOf_invariant (deleteMissing env (processedFilePaths l)) rows
                (fun _ _ w => loaderDoneReturn w = loaderDoneReturn w0)
                (fun _ => True)) as Hdel.
  assert (Hbody2 : forall done x rest s w1,
             rows = done ++ x :: rest -> loaderDoneReturn w1 = loaderDoneReturn w0 ->
             match deleteMissing env (processedFilePaths l) s x w1 with
             | (Fulfilled _, w') => loaderDoneReturn w' = loaderDoneReturn w0
             | (Rejected, w') => True
             end).
  { intros done x rest [] w1 _ HI.
    pose proof (deleteMissing_keeps_loaderDoneReturn (processedFilePaths l) x w1) as Hit.
    destruct (deleteMissing _ _ _ x w1) as [[?|] ?]; [|exact I].
    simpl in Hit. congruence. }
  specialize (Hdel Hbody2 tt w2 Hl2).
  destruct (forOf _ rows _ _) as [[[]|] w3]; [|discriminate].
  intros Heq. injection Heq as <- <-. simpl. rewrite Hdel. auto.
Qed.

End Reported.

(** C10.  When the incremental sync of a directory completes, the entry of
    [uniqueIds] at the position of a file that is as its row records it is
    the path of the file, and the same list is stored in the aggregate
    [loaderDoneReturn] that [add] resolves to. *)
Theorem unchanged_file_reported_by_path (env : Env) (uuid directoryPath : string)
  (files : list FileType) (d : Table) (f : FileType) (r : FileMetadata)
  (i : nat) (ret : LoaderReturn) (w' : World) :
  files !! i = Some f ->
  existingMetadataMapOf (MetadataStore.getDirectoryMetadata d directoryPath)
    !! path f = Some r ->
  as_recorded env f r ->
  runTask (directoryTask env uuid directoryPath files false true) d
  = ([Fulfilled ret], w') ->
  filePath r = path f
  /\ uniqueIds ret !! i = Some (path f)
  /\ exists aggregate,
       loaderDoneReturn w' = Some aggregate
       /\ uniqueIds aggregate = uniqueIds ret.
Proof.
  intros Hi Hrow Hrec. unfold runTask, directoryTask. simpl.
  set (w0 := start _ d). set (id := "DirectoryLoader_" +:+ uuid).
  destruct (incrementalTask env id directoryPath files w0) as [res w1] eqn:Hrun.
  intros Heq. injection Heq as -> ->.
  destruct (incrementalTask_reports env id directoryPath files w0 ret w' Hrun)
    as [Hentries Hagg].
  destruct (existingMetadataMapOf_lookup _ _ _ Hrow) as [_ Hpath].
  split; [exact Hpath|]. split.
  - destruct (Forall2_lookup_l _ _ _ _ _ Hentries Hi) as (u & Hu & Hentry).
    rewrite Hu. f_equal. rewrite <- Hpath. apply Hentry; assumption.
  - rewrite Hagg. simpl. eexists. split; reflexivity.
Qed.

Lemma unchanged_file_reported_by_path_witness :
  let run := runTask (directoryTask (steady 7) "u" "/d" [a_txt; b_txt] false true)
                     [row_a; row_b] in
  let ret := mkLoaderReturn 0 "DirectoryLoader_u" ["/d/a.txt"; "/d/b.txt"]
                            "DirectoryIncrementalScanPart" in
  filePath row_a = path a_txt
  /\ uniqueIds ret !! 0%nat = Some (path a_txt)
  /\ exists aggregate,
       loaderDoneReturn run.2 = Some aggregate
       /\ uniqueIds aggregate = uniqueIds ret.
Proof.
  intros run ret.
  apply (unchanged_file_reported_by_path (steady 7) "u" "/d" [a_txt; b_txt]
           [row_a; row_b] a_txt row_a 0 ret run.2).
  - reflexivity.
  - vm_compute. reflexivity.
  - split; intros h; reflexivity.
  - vm_compute. reflexivity.
Defined.

End IncrementalFacts.

(** ** The revision on [KnowledgeMetadataStore] *)
Module HashedFacts.
Import Promise Runtime Hashed PromiseFacts.

Ltac run :=
  unfold mbind, async_bind, mret, async_ret, await, resolve, catch, modify,
    calculateFileHash, deleteLoader, addFileLoader,
    fileProcessed, sendDirectoryProcessingPercent, updateLoaderDoneReturn,
    assignLoaderDoneReturn, pushUniqueId, countEntry,
    Hashed.getMetadataByPath, Hashed.getMetadataByDirectoryPath,
    Hashed.addOrUpdateMetadata, Hashed.deleteMetadata,
    Hashed.deleteMetadataByEmbedjsUniqueId,
    database, external, log, set_db, set_processedFiles, set_loaderDoneReturn;
  cbn [fst snd trace db processedFiles loaderDoneReturn option_bind].

Ltac split_call :=
  match goal with
  | |- context [match env_hash ?e ?t ?p with _ => _ end] =>
      destruct (env_hash e t p) eqn:?
  | |- context [if env_deleteLoader ?e ?t ?u then _ else _] =>
      destruct (env_deleteLoader e t u) eqn:?
  | |- context [match env_addFileLoader ?e ?t ?f ?b with _ => _ end] =>
      destruct (env_addFileLoader e t f b) eqn:?
  | |- context [if env_database ?e ?t ?q then _ else _] =>
      destruct (env_database e t q) eqn:?
  | |- context [match KnowledgeMetadataStore.getMetadataByPath ?d ?k ?p with _ => _ end] =>
      destruct (KnowledgeMetadataStore.getMetadataByPath d k p) eqn:?
  | |- context [if unchanged ?a ?b ?c then _ else _] =>
      destruct (unchanged a b c) eqn:?
  | |- context [if to_replace ?a ?b ?c then _ else _] =>
      destruct (to_replace a b c) eqn:?
  | |- context [if valid_result ?r then _ else _] =>
      destruct (valid_result r) eqn:?
  end; run.

Lemma to_replace_negb (forceReload : bool) (e : DocumentMetadata) (h : string) :
  to_replace forceReload e h = negb (unchanged forceReload e h).
Proof.
  unfold to_replace, unchanged. destruct forceReload, (String.eqb _ _); reflexivity.
Qed.

(** The second [if] of a file body is taken whenever the first is not. *)
Ltac impossible :=
  match goal with
  | H1 : unchanged ?f ?e ?h = false, H2 : to_replace ?f ?e ?h = false |- _ =>
      rewrite to_replace_negb, H1 in H2; discriminate H2
  end.

Section PerFile.
Variable env : Env.
Variables (base_id sep : string).

(** A file task resolves whatever the calls it makes answer. *)
Lemma fileTask_never_rejects (file : FileType) (forceReload : bool) (w : World) :
  Forall (fun it => exists r w', task it w = (Fulfilled r, w'))
         (loaderTasks (fileTask env base_id file forceReload)).
Proof.
  constructor; [|constructor]. simpl.
  apply catch_fulfilled. intros w1. run. eauto.
Qed.

Lemma directoryFileTask_never_rejects (totalFiles : Z) (file : FileType)
  (forceReload : bool) (w : World) :
  exists r w', directoryFileTask env base_id totalFiles file forceReload w
               = (Fulfilled r, w').
Proof.
  unfold directoryFileTask. apply catch_fulfilled. intros w1. run. eauto.
Qed.

Lemma deletionCheckTask_never_rejects (uuid directory : string)
  (currentFilePaths : gset string) (w : World) :
  exists r w', deletionCheckTask env base_id sep uuid directory currentFilePaths w
               = (Fulfilled r, w').
Proof.
  unfold deletionCheckTask. apply catch_fulfilled. intros w1. run. eauto.
Qed.

End PerFile.


Section Ordering.
Variable env : Env.
Variables (base_id : string).



End Ordering.


(** *** Forced reload and skipping *)
Section Calls.
Variable env : Env.
Variables (base_id : string) (file : FileType) (fileHash : string).

Hypothesis hash_ok : forall t, env_hash env t (path file) = Some fileHash.
Hypothesis database_ok : forall t q, env_database env t q = true.
Hypothesis deleteLoader_ok : forall t u, env_deleteLoader env t u = true.

Let read : list Event :=
  [CalculateFileHash (path file); Database (SelectByPath base_id (path file))].

(** With [forceReload], a file that has a row has its loader and its row
    deleted and is then added again, whatever hash the row holds. *)
Lemma forced_file_is_deleted_then_readded (totalFiles : Z) (w : World)
  (old : DocumentMetadata) :
  KnowledgeMetadataStore.getMetadataByPath (db w) base_id (path file) = Some old ->
  exists rest,
    trace (directoryFileTask env base_id totalFiles file true w).2
    = trace w ++ read
      ++ [DeleteLoader (unique_id_embedjs old);
          Database (DeleteByUniqueId base_id (unique_id_embedjs old));
          AddFileLoader file true]
      ++ rest.
Proof.
  intros Hold.
  unfold directoryFileTask, directoryFileBody, replaceExisting, addAndRecord. run.
  rewrite hash_ok; run. rewrite database_ok, Hold; run.
  unfold unchanged, to_replace. simpl. run.
  rewrite deleteLoader_ok; run. rewrite database_ok; run.
  repeat split_call.
  all: simpl; rewrite <- ?app_assoc; simpl; eexists; reflexivity.
Qed.

(** With [forceReload], a file that has no row is added. *)
Lemma forced_new_file_is_added (totalFiles : Z) (w : World) :
  KnowledgeMetadataStore.getMetadataByPath (db w) base_id (path file) = None ->
  exists rest,
    trace (directoryFileTask env base_id totalFiles file true w).2
    = trace w ++ read ++ AddFileLoader file true :: rest.
Proof.
  intros Hold.
  unfold directoryFileTask, directoryFileBody, replaceExisting, addAndRecord. run.
  rewrite hash_ok; run. rewrite database_ok, Hold; run.
  repeat split_call.
  all: simpl; rewrite <- ?app_assoc; simpl; eexists; reflexivity.
Qed.

(** Without [forceReload], a file whose hash is the one of its row is
    skipped: nothing is called but the hash and the [SELECT], and the table
    is left as it is.  The time stamp of the row is not looked at. *)
Lemma unchanged_file_is_skipped (w : World) (old : DocumentMetadata) :
  KnowledgeMetadataStore.getMetadataByPath (db w) base_id (path file) = Some old ->
  content_hash old = fileHash ->
  runItems (loaderTasks (fileTask env base_id file false)) w
  = ([Fulfilled (skipped old)],
     mkWorld (db w) (trace w ++ read) (processedFiles w) (Some (skipped old))).
Proof.
  intros Hold Hhash. simpl.
  unfold fileTaskBody, replaceExisting, addAndStore. run.
  rewrite hash_ok; run. rewrite database_ok, Hold; run.
  unfold unchanged. simpl. rewrite Hhash, String.eqb_refl. run.
  rewrite <- app_assoc. reflexivity.
Qed.

End Calls.

(** *** The deletion check *)

Lemma getMetadataByDirectoryPath_complete (sep : string) (d : Table)
  (kb directory : string) (m : DocumentMetadata) :
  In m d -> knowledge_base_id m = kb ->
  startsWith (file_path m) (normalizedPath sep directory) = true ->
  In m (KnowledgeMetadataStore.getMetadataByDirectoryPath sep d kb directory).
Proof.
  intros Hin Hkb Hpre. unfold KnowledgeMetadataStore.getMetadataByDirectoryPath.
  apply List.filter_In. split; [exact Hin|].
  rewrite Hkb, String.eqb_refl. simpl.
  apply DirectoryQueryFacts.startsWith_split in Hpre as [rest ->].
  apply DirectoryQueryFacts.like_prefix_complete.
Qed.

Section DeletionCheck.
Variable env : Env.
Variables (base_id sep uuid directory : string) (currentFilePaths : gset string).

(** The rows met so far whose path is not in the listing have had their
    loader deleted and are no longer in the table. *)
Let swept (done : list DocumentMetadata) (w : World) : Prop :=
  forall m, In m done -> file_path m ∉ currentFilePaths ->
    In (DeleteLoader (unique_id_embedjs m)) (trace w)
    /\ forall x, In x (db w) -> has_key base_id (file_path m) x = false.

(** A [DELETE] by path names a path that is not in the listing. *)
Let spares_listing (w : World) : Prop :=
  Forall (fun e => forall kb q, e = Database (DeleteByPath kb q) ->
                                q ∉ currentFilePaths) (trace w).

Lemma deleteIfMissing_spares (n : Z) (meta : DocumentMetadata) (w : World) :
  spares_listing w ->
  spares_listing (deleteIfMissing env base_id currentFilePaths n meta w).2.
Proof.
  intros Hsp. unfold deleteIfMissing.
  destruct (decide (file_path meta ∈ currentFilePaths)) as [Hin|Hout]; [exact Hsp|].
  assert (Hd : forall kb q, DeleteLoader (unique_id_embedjs meta)
                            = Database (DeleteByPath kb q) ->
                            q ∉ currentFilePaths) by (intros; discriminate).
  assert (Hr : forall kb q, Database (DeleteByPath base_id (file_path meta))
                            = Database (DeleteByPath kb q) ->
                            q ∉ currentFilePaths).
  { intros kb q Heq. injection Heq as <- <-. exact Hout. }
  run. repeat split_call.
  all: unfold spares_listing; simpl.
  all: rewrite !Forall_app; repeat split; try exact Hsp;
    apply Forall_singleton; assumption.
Qed.

Lemma deleteIfMissing_sweeps (done : list DocumentMetadata) (n : Z)
  (meta : DocumentMetadata) (w : World) :
  swept done w ->
  match deleteIfMissing env base_id currentFilePaths n meta w with
  | (Fulfilled _, w') => swept (done ++ [meta]) w'
  | (Rejected, w') => True
  end.
Proof.
  intros Hsw. unfold deleteIfMissing.
  destruct (decide (file_path meta ∈ currentFilePaths)) as [Hin|Hout].
  - simpl. intros m Hm Hnot. apply in_app_or in Hm as [Hm|[<-|[]]]; [auto|tauto].
  - run. repeat split_call; try exact I.
    intros m Hm Hnot. simpl.
    apply in_app_or in Hm as [Hm|[<-|[]]].
    + destruct (Hsw m Hm Hnot) as [Hdel Hgone]. split.
      * apply in_or_app. left. apply in_or_app. left. exact Hdel.
      * intros x Hx. apply Hgone.
        unfold KnowledgeMetadataStore.deleteMetadata in Hx.
        apply List.filter_In in Hx. tauto.
    + split.
      * apply in_or_app. left. apply in_or_app. right. left. reflexivity.
      * intros x Hx. unfold KnowledgeMetadataStore.deleteMetadata in Hx.
        apply List.filter_In in Hx as [_ Hx]. apply negb_true_iff in Hx. exact Hx.
Qed.

Let rows (w : World) : list DocumentMetadata :=
  KnowledgeMetadataStore.getMetadataByDirectoryPath sep (db w) base_id directory.

Lemma deletionCheckTask_run (w : World) :
  deletionCheckTask env base_id sep uuid directory currentFilePaths w
  = if env_database env (trace w) (SelectByDirectory base_id directory) then
      match forOf (deleteIfMissing env base_id currentFilePaths) (rows w) 0
                  (log (Database (SelectByDirectory base_id directory)) w) with
      | (Fulfilled _, w') =>
          (Fulfilled (mkLoaderReturn 0 ("DeletionCheck_" +:+ uuid) [] "DeletionCheck"),
           w')
      | (Rejected, w') => (Fulfilled ERROR_LOADER_RETURN, w')
      end
    else (Fulfilled ERROR_LOADER_RETURN,
          log (Database (SelectByDirectory base_id directory)) w).
Proof.
  unfold deletionCheckTask. run.
  destruct (env_database env (trace w) (SelectByDirectory base_id directory)); run;
    [|reflexivity].
  fold (rows w).
  destruct (forOf _ (rows w) 0 _) as [[n|] w']; reflexivity.
Qed.

Lemma deletionCheckTask_spares (w : World) :
  spares_listing w ->
  spares_listing
    (deletionCheckTask env base_id sep uuid directory currentFilePaths w).2.
Proof.
  intros Hsp. rewrite deletionCheckTask_run.
  assert (H1 : spares_listing (log (Database (SelectByDirectory base_id directory)) w)).
  { unfold spares_listing. simpl. rewrite Forall_app. split; [exact Hsp|].
    apply Forall_singleton. intros; discriminate. }
  destruct (env_database env (trace w) (SelectByDirectory base_id directory));
    [|exact H1].
  pose proof (forOf_invariant (deleteIfMissing env base_id currentFilePaths) (rows w)
                (fun _ _ w => spares_listing w) spares_listing) as Hloop.
  cbv beta in Hloop.
  assert (Hbody : forall done x rest s w2,
             rows w = done ++ x :: rest -> spares_listing w2 ->
             match deleteIfMissing env base_id currentFilePaths s x w2 with
             | (Fulfilled _, w') => spares_listing w'
             | (Rejected, w') => spares_listing w'
             end).
  { intros done x rest s w2 _ H2.
    pose proof (deleteIfMissing_spares s x w2 H2) as Hit.
    destruct (deleteIfMissing _ _ _ s x w2) as [[?|] ?]; exact Hit. }
  specialize (Hloop Hbody 0 _ H1).
  destruct (forOf (deleteIfMissing env base_id currentFilePaths) (rows w) 0 _)
    as [[n|] w2]; exact Hloop.
Qed.

Lemma deletionCheckTask_sweeps (w : World) (ret : LoaderReturn) (w' : World) :
  deletionCheckTask env base_id sep uuid directory currentFilePaths w
  = (Fulfilled ret, w') ->
  loaderType ret = "DeletionCheck" ->
  swept (rows w) w'.
Proof.
  rewrite deletionCheckTask_run.
  destruct (env_database env (trace w) (SelectByDirectory base_id directory)).
  2:{ intros Heq. injection Heq as <- _. discriminate. }
  pose proof (forOf_invariant (deleteIfMissing env base_id currentFilePaths) (rows w)
                (fun done _ w => swept done w) (fun _ => True)) as Hloop.
  cbv beta in Hloop.
  assert (Hbody : forall done x rest s w2,
             rows w = done ++ x :: rest -> swept done w2 ->
             match deleteIfMissing env base_id currentFilePaths s x w2 with
             | (Fulfilled _, w') => swept (done ++ [x]) w'
             | (Rejected, w') => True
             end).
  { intros done x rest s w2 _ H2. apply deleteIfMissing_sweeps. exact H2. }
  assert (H1 : swept [] (log (Database (SelectByDirectory base_id directory)) w))
    by (intros m []).
  specialize (Hloop Hbody 0 _ H1).
  destruct (forOf (deleteIfMissing env base_id currentFilePaths) (rows w) 0 _)
    as [[n|] w2].
  - intros Heq _. injection Heq as _ <-. exact Hloop.
  - intros Heq. injection Heq as <- _. discriminate.
Qed.

End DeletionCheck.

(** In the revision on [KnowledgeMetadataStore], the deletion check
    deletes by path no row of a file of the listing; and when it completes,
    every row of the knowledge base under the directory whose path is not in
    the listing has had [deleteLoader] called on its stored id and is gone
    from the table. *)
Lemma deletion_check_deletes_missing_files (env : Env)
  (base_id sep uuid directory : string) (files : list FileType) (d : Table) :
  let current : gset string := list_to_set (map path files) in
  let r := deletionCheckTask env base_id sep uuid directory current
             (mkWorld d [] 0 None) in
  (forall kb q, In q (map path files) ->
     ~ In (Database (DeleteByPath kb q)) (trace r.2))
  /\ (forall ret, r.1 = Fulfilled ret -> loaderType ret = "DeletionCheck" ->
      forall m, In m d -> knowledge_base_id m = base_id ->
        startsWith (file_path m) (normalizedPath sep directory) = true ->
        ~ In (file_path m) (map path files) ->
        In (DeleteLoader (unique_id_embedjs m)) (trace r.2)
        /\ forall x, In x (db r.2) -> has_key base_id (file_path m) x = false).
Proof.
  intros current r.
  assert (Hcur : forall q, q ∈ current <-> In q (map path files)).
  { intros q. unfold current. rewrite elem_of_list_to_set, list_elem_of_In. tauto. }
  split.
  - intros kb q Hq Hin.
    pose proof (deletionCheckTask_spares env base_id sep uuid directory current
                  (mkWorld d [] 0 None) (Forall_nil_2 _)) as Hsp.
    fold r in Hsp. rewrite List.Forall_forall in Hsp.
    apply (Hsp _ Hin kb q eq_refl), Hcur, Hq.
  - intros ret Hret Htype m Hm Hkb Hpre Hout.
    destruct r as [res w'] eqn:Hr. simpl in *. subst res.
    apply (deletionCheckTask_sweeps env base_id sep uuid directory current
             _ ret w' Hr Htype m).
    + apply getMetadataByDirectoryPath_complete; assumption.
    + rewrite Hcur. exact Hout.
Qed.

End HashedFacts.


(** ** The two revisions of the service together *)

Module RevisionFacts.
Import Promise Runtime PromiseFacts.

(** *** The items of a directory in the revision on [KnowledgeMetadataStore] *)

Lemma lookup_map_app {A B} (g : A -> B) (l : list A) (tail : list B) (i : nat) (x : A) :
  l !! i = Some x -> (map g l ++ tail) !! i = Some (g x).
Proof.
  revert i. induction l as [|a l IH]; intros [|i] Hi; try discriminate.
  - injection Hi as ->. reflexivity.
  - simpl in *. apply IH. exact Hi.
Qed.

Lemma directoryTask_file_item (env : Hashed.Env) (base_id sep uuid1 uuid2 directory : string)
  (files : list FileType) (forceReload : bool) (i : nat) (f : FileType) :
  files !! i = Some f ->
  loaderTasks (Hashed.directoryTask env base_id sep uuid1 uuid2 directory files forceReload)
    !! i
  = Some (mkLoaderTaskItem
            (Hashed.directoryFileTask env base_id (Z.of_nat (length files)) f forceReload)
            (Runtime.size f)).
Proof.
  intros Hi. unfold Hashed.directoryTask. cbn [loaderTasks].
  apply (lookup_map_app
           (fun file => mkLoaderTaskItem
                          (Hashed.directoryFileTask env base_id (Z.of_nat (length files))
                             file forceReload)
                          (Runtime.size file))).
  exact Hi.
Qed.


(** *** A forced reload of a file item *)
Section ForcedFileItem.
Import Hashed HashedFacts.
Variable env : Hashed.Env.
Variables (base_id : string) (file : FileType) (fileHash : string).

Hypothesis hash_ok : forall t, env_hash env t (path file) = Some fileHash.
Hypothesis database_ok : forall t q, env_database env t q = true.
Hypothesis deleteLoader_ok : forall t u, env_deleteLoader env t u = true.

Let read : list Hashed.Event :=
  [CalculateFileHash (path file); Database (SelectByPath base_id (path file))].

Lemma forced_file_item_is_deleted_then_readded (w : Hashed.World)
  (old : DocumentMetadata) :
  KnowledgeMetadataStore.getMetadataByPath (db w) base_id (path file) = Some old ->
  exists rest,
    trace (runItems (loaderTasks (fileTask env base_id file true)) w).2
    = trace w ++ read
      ++ [DeleteLoader (unique_id_embedjs old);
          Database (DeleteByUniqueId base_id (unique_id_embedjs old));
          AddFileLoader file true]
      ++ rest.
Proof.
  intros Hold. simpl.
  unfold fileTaskBody, replaceExisting, addAndStore. run.
  rewrite hash_ok; run. rewrite database_ok, Hold; run.
  unfold unchanged, to_replace. simpl. run.
  rewrite deleteLoader_ok; run. rewrite database_ok; run.
  repeat split_call.
  all: simpl; rewrite <- ?app_assoc; simpl; eexists; reflexivity.
Qed.

Lemma forced_new_file_item_is_added (w : Hashed.World) :
  KnowledgeMetadataStore.getMetadataByPath (db w) base_id (path file) = None ->
  exists rest,
    trace (runItems (loaderTasks (fileTask env base_id file true)) w).2
    = trace w ++ read ++ AddFileLoader file true :: rest.
Proof.
  intros Hold. simpl.
  unfold fileTaskBody, replaceExisting, addAndStore. run.
  rewrite hash_ok; run. rewrite database_ok, Hold; run.
  repeat split_call.
  all: simpl; rewrite <- ?app_assoc; simpl; eexists; reflexivity.
Qed.

End ForcedFileItem.

Lemma file_item_calls (env : Incremental.Env) (file : FileType) (forceReload : bool)
  (d : MetadataStore.Table) :
  let r := runTask (Incremental.fileTask env file forceReload) d in
  trace r.2 = [AddFileLoader file forceReload] /\ db r.2 = d.
Proof.
  unfold runTask, Incremental.fileTask, start. simpl. IncrementalFacts.run.
  destruct (env_addFileLoader env [] file forceReload); simpl; auto.
Qed.

(** *** An unchanged file *)

(** C3 (as amended).  What happens to an unchanged file depends on the
    kind of item.  In the incremental sync of a directory, a file of the
    listing whose hash and last-modified time are both those of its row is
    left alone: no [addFileLoader] for its path, no [deleteLoader] for its
    stored id, no statement on its row, and the row is as it was.  The task
    of a file item of that revision calls [addFileLoader] every time and
    reads no row.  In the revision on [KnowledgeMetadataStore] the task of a
    file item whose hash is the one of its row only reads the hash and the
    row. *)
Theorem unchanged_file_by_kind_of_item :
  (forall (env : Incremental.Env) (uuid directoryPath : string)
          (files : list FileType) (d : MetadataStore.Table) (f : FileType)
          (r : MetadataStore.FileMetadata),
      In f files ->
      List.NoDup (map MetadataStore.embedjs_unique_id d) ->
      Incremental.existingMetadataMapOf
        (MetadataStore.getDirectoryMetadata d directoryPath) !! path f = Some r ->
      (forall h, env_hash env h (path f) = Some (MetadataStore.hash r)) ->
      (forall h, env_mtimeMs env h (path f) = Some (MetadataStore.lastModified r)) ->
      let w' := (runTask (Incremental.directoryTask env uuid directoryPath files
                            false true) d).2 in
      Forall (fun e => Incremental.concerns (path f)
                         (MetadataStore.embedjs_unique_id r) e = false) (trace w')
      /\ List.filter (MetadataStore.has_path (path f)) (db w')
         = List.filter (MetadataStore.has_path (path f)) d)
  /\ (forall (env : Incremental.Env) (file : FileType) (forceReload : bool)
             (d : MetadataStore.Table),
         let r := runTask (Incremental.fileTask env file forceReload) d in
         trace r.2 = [AddFileLoader file forceReload] /\ db r.2 = d)
  /\ (forall (env : Hashed.Env) (base_id : string) (file : FileType)
             (w : Hashed.World) (old : KnowledgeMetadataStore.DocumentMetadata),
         (forall t, env_hash env t (path file)
                    = Some (KnowledgeMetadataStore.content_hash old)) ->
         (forall t q, env_database env t q = true) ->
         KnowledgeMetadataStore.getMetadataByPath (db w) base_id (path file) = Some old ->
         runItems (loaderTasks (Hashed.fileTask env base_id file false)) w
         = ([Fulfilled (Hashed.skipped old)],
            mkWorld (db w)
                    (trace w ++ [CalculateFileHash (path file);
                                 Database (Hashed.SelectByPath base_id (path file))])
                    (processedFiles w) (Some (Hashed.skipped old)))).
Proof.
  split; [exact IncrementalFacts.unchanged_file_is_left_alone|].
  split; [intros env file forceReload d; apply file_item_calls|].
  intros env base_id file w old Hh Hd Hold.
  exact (HashedFacts.unchanged_file_is_skipped env base_id file _ Hh Hd w old Hold
           eq_refl).
Qed.

Lemma unchanged_file_by_kind_of_item_witness :
  (let w' := (runTask (Incremental.directoryTask (Incremental.steady 7) "u" "/d"
                         [Incremental.a_txt; Incremental.b_txt] false true)
                      [Incremental.row_a; Incremental.row_b]).2 in
   Forall (fun e => Incremental.concerns "/d/a.txt" "loader:/d/a.txt" e = false)
          (trace w')
   /\ List.filter (MetadataStore.has_path "/d/a.txt") (db w') = [Incremental.row_a])
  /\ runItems (loaderTasks (Hashed.fileTask (Hashed.steady "sha:earlier") "kb"
                              Incremental.a_txt false))
              (mkWorld [Hashed.doc_a] [] 0 None)
     = ([Fulfilled (Hashed.skipped Hashed.doc_a)],
        mkWorld [Hashed.doc_a]
                [CalculateFileHash "/d/a.txt";
                 Database (Hashed.SelectByPath "kb" "/d/a.txt")]
                0 (Some (Hashed.skipped Hashed.doc_a))).
Proof.
  split.
  - apply (proj1 unchanged_file_by_kind_of_item (Incremental.steady 7) "u" "/d"
             [Incremental.a_txt; Incremental.b_txt]
             [Incremental.row_a; Incremental.row_b] Incremental.a_txt Incremental.row_a).
    + left. reflexivity.
    + constructor; [simpl; intros [H|[]]; discriminate|].
      constructor; [simpl; tauto | constructor].
    + vm_compute. reflexivity.
    + intros h. reflexivity.
    + intros h. reflexivity.
  - exact (proj2 (proj2 unchanged_file_by_kind_of_item) (Hashed.steady "sha:earlier")
             "kb" Incremental.a_txt (mkWorld [Hashed.doc_a] [] 0 None) Hashed.doc_a
             (fun _ => eq_refl) (fun _ _ => eq_refl) eq_refl).
Defined.

(** C3, the claim as stated, fails for a file item: with
    [incrementalUpdate] and without [forceReload], [/d/a.txt] being as its
    row records it, the task of the item calls [addFileLoader] on the
    file. *)
Lemma file_item_is_added_again :
  ~ (forall (env : Incremental.Env) (file : FileType) (d : MetadataStore.Table)
            (r : MetadataStore.FileMetadata),
        In r d -> MetadataStore.filePath r = path file ->
        Incremental.as_recorded env file r ->
        Forall (fun e => Incremental.concerns (path file)
                           (MetadataStore.embedjs_unique_id r) e = false)
               (trace (runTask (Incremental.fileTask env file false) d).2)).
Proof.
  intros H.
  specialize (H (Incremental.steady 7) Incremental.a_txt [Incremental.row_a]
                Incremental.row_a (or_introl eq_refl) eq_refl
                (conj (fun _ => eq_refl) (fun _ => eq_refl))).
  vm_compute in H. inversion H as [|? ? Hcall _]. discriminate Hcall.
Qed.

Section Upsert.
Import KnowledgeMetadataStore.

(** The row an upsert writes is the one found by its key. *)
Lemma upserted_row_is_found (d : Table) (m : DocumentMetadata) :
  getMetadataByPath (addOrUpdateMetadata d m) (knowledge_base_id m) (file_path m)
  = Some m.
Proof.
  unfold getMetadataByPath, addOrUpdateMetadata.
  assert (Hself : has_key (knowledge_base_id m) (file_path m) m = true).
  { unfold has_key. rewrite !String.eqb_refl. reflexivity. }
  destruct (existsb (has_key (knowledge_base_id m) (file_path m)) d) eqn:Hex.
  - induction d as [|x d IH]; [discriminate|]. simpl in *.
    destruct (has_key (knowledge_base_id m) (file_path m) x) eqn:Hx.
    + unfold has_key in Hx |- *. simpl. rewrite Hx.
      apply andb_true_iff in Hx as [Hkb Hp].
      apply String.eqb_eq in Hkb, Hp. rewrite Hkb, Hp. destruct m; reflexivity.
    + rewrite Hx. apply IH. exact Hex.
  - induction d as [|x d IH]; simpl in *; [rewrite Hself; reflexivity|].
    apply orb_false_iff in Hex as [Hx Hd]. rewrite Hx. apply IH. exact Hd.
Qed.

End Upsert.

(** *** A changed file of an incremental sync *)

Lemma updateFileMetadata_same (d d' : MetadataStore.Table) (p : string)
  (u : MetadataStore.PartialFileMetadata) :
  MetadataStore.updateFileMetadata d p u = Some d' ->
  MetadataStore.p_filePath u = None ->
  MetadataStore.partial_is_empty u = false ->
  List.filter (MetadataStore.has_path p) d'
  = map (MetadataStore.apply_partial u) (List.filter (MetadataStore.has_path p) d).
Proof.
  unfold MetadataStore.updateFileMetadata. intros Hup Hpath Hne. rewrite Hne in Hup.
  destruct (MetadataStore.no_duplicate_keys _); [|discriminate].
  injection Hup as <-. clear Hne.
  induction d as [|m d IH]; [reflexivity|]. simpl.
  destruct (MetadataStore.has_path p m) eqn:Hm.
  - assert (Hm' : MetadataStore.has_path p (MetadataStore.apply_partial u m) = true).
    { unfold MetadataStore.has_path, MetadataStore.apply_partial in *. simpl.
      rewrite Hpath. exact Hm. }
    rewrite Hm'. simpl. f_equal. exact IH.
  - rewrite Hm. exact IH.
Qed.

Section ChangedFile.
Import MetadataStore Incremental IncrementalFacts.
Variable env : Env.
Variables (directoryLoaderId directoryPath : string) (files : list FileType).
Variables (f : FileType) (r : FileMetadata) (w0 : World).
Variables (h : string) (mt : Z).

Let rows : list FileMetadata :=
  MetadataStore.getDirectoryMetadata (db w0) directoryPath.

Hypothesis in_scope : In f files.
Hypothesis has_record : existingMetadataMapOf rows !! path f = Some r.
Hypothesis hash_is : forall t, env_hash env t (path f) = Some h.
Hypothesis time_is : forall t, env_mtimeMs env t (path f) = Some mt.
Hypothesis is_changed : changed r h mt = true.

(** The rows of the path of [f]. *)
Let mine (w : World) : list FileMetadata := List.filter (has_path (path f)) (db w).

(** They carry the hash and the time just read. *)
Let fresh (w : World) : Prop :=
  Forall (fun x => hash x = h /\ MetadataStore.lastModified x = mt) (mine w).

(** The three calls that replace the indexed content of [g]. *)
Let calls (g : FileType) (result : LoaderReturn) : list Event :=
  [DeleteLoader (embedjs_unique_id r);
   AddFileLoader g true;
   Database (Update (path g)
               (mkPartial None (Some mt) (Some (Runtime.size g)) (Some h)
                          (Some (uniqueId result))))].

Let replaced (w : World) : Prop :=
  exists pre post result, trace w = pre ++ calls f result ++ post.

Lemma replaced_extends (w w' : World) (post : list Event) :
  trace w' = trace w ++ post -> replaced w -> replaced w'.
Proof.
  intros Ht (pre & post0 & result & Hw). exists pre, (post0 ++ post), result.
  rewrite Ht, Hw, <- !app_assoc. reflexivity.
Qed.

Lemma changed_file_iteration (totalFiles : Z) (l : Locals) (g : FileType) (w : World) :
  mine w <> [] ->
  match incrementalFile env (existingMetadataMapOf rows) totalFiles l g w with
  | (Fulfilled l', w') =>
      mine w' <> []
      /\ (exists post, trace w' = trace w ++ post)
      /\ (fresh w -> fresh w')
      /\ (g = f -> fresh w' /\ replaced w')
  | (Rejected, w') => True
  end.
Proof.
  intros Hmine. destruct (String.eqb_spec (path g) (path f)) as [Heq|Hne].
  - assert (A1 : existingMetadataMapOf rows !! path g = Some r)
      by (rewrite Heq; exact has_record).
    assert (A2 : env_hash env (trace w) (path g) = Some h)
      by (rewrite Heq; apply hash_is).
    assert (A3 : env_mtimeMs env (trace w ++ [CalculateFileHash (path g)]) (path g)
                 = Some mt) by (rewrite Heq; apply time_is).
    pose proof (incrementalFile_changed env (existingMetadataMapOf rows) totalFiles l g
                  r w h mt A1 A2 A3 is_changed) as Hch.
    cbv zeta in Hch. destruct Hch as (rest & Ht & Hdone).
    destruct (incrementalFile env (existingMetadataMapOf rows) totalFiles l g w)
      as [[l'|] w']; [|exact I].
    destruct (Hdone l' eq_refl)
      as (result & u & -> & (Hu1 & Hu2 & Hu3 & Hu4) & Hu5 & Hup & _).
    simpl in Ht, Hup.
    assert (Hu : u = mkPartial None (Some mt) (Some (Runtime.size g)) (Some h)
                               (Some (uniqueId result))).
    { destruct u; simpl in *; congruence. }
    assert (Hrows : mine w' = map (apply_partial u) (mine w)).
    { unfold mine. rewrite <- Heq.
      apply updateFileMetadata_same; [exact Hup | exact Hu1 |].
      rewrite Hu. reflexivity. }
    assert (Hfresh : fresh w').
    { unfold fresh. rewrite Hrows. apply List.Forall_forall. intros x Hx.
      apply in_map_iff in Hx as (y & <- & _).
      unfold apply_partial. simpl. rewrite Hu4, Hu2. simpl. auto. }
    split; [|split; [|split]].
    + rewrite Hrows. destruct (mine w); [congruence | discriminate].
    + rewrite Ht, <- app_assoc. eauto.
    + intros _. exact Hfresh.
    + intros ->. split; [exact Hfresh|].
      exists (trace w ++ [CalculateFileHash (path f); StatSync (path f)]),
             [DirectoryProcessingPercent totalFiles (processedFiles w + 1)], result.
      rewrite Ht, Hu. reflexivity.
  - assert (Hgf : g <> f) by congruence.
    unfold incrementalFile. run. repeat split_call; try exact I.
    all: unfold fresh, mine in *; simpl.
    all: repeat split; try (intros; assumption); try (intros; contradiction).
    all: try (rewrite <- !app_assoc; eauto).
    all: try match goal with
         | H : MetadataStore.updateFileMetadata _ _ _ = Some _ |- _ =>
             rewrite (updateFileMetadata_other _ _ (path f) _ _ H Hne eq_refl)
         | H : MetadataStore.insertFileMetadata _ _ = Some _ |- _ =>
             rewrite (insertFileMetadata_other _ _ (path f) _ H Hne)
         end; try assumption; try (intros Hsame; exact Hsame).
Qed.

Lemma changed_delete_iteration (seen : gset string) (oldMeta : FileMetadata)
  (w : World) :
  path f ∈ seen ->
  mine (deleteMissing env seen tt oldMeta w).2 = mine w
  /\ exists post, trace (deleteMissing env seen tt oldMeta w).2 = trace w ++ post.
Proof.
  intros Hseen. unfold deleteMissing.
  destruct (decide (filePath oldMeta ∈ seen)) as [|Hout].
  - split; [reflexivity|]. exists []. simpl. rewrite app_nil_r. reflexivity.
  - assert (Hne : filePath oldMeta <> path f) by congruence.
    run. repeat split_call.
    all: unfold mine; simpl; split; try reflexivity.
    all: try (rewrite <- ?app_assoc; eauto).
    apply deleteFileMetadata_other. exact Hne.
Qed.

Lemma incrementalTask_replaces (ret : LoaderReturn) (w' : World) :
  incrementalTask env directoryLoaderId directoryPath files w0 = (Fulfilled ret, w') ->
  mine w' <> [] /\ fresh w' /\ replaced w'.
Proof.
  rewrite incrementalTask_run. fold rows.
  destruct (env_database env (trace w0) (SelectDirectory directoryPath));
    [|discriminate].
  set (w1 := log (Database (SelectDirectory directoryPath)) w0).
  assert (H1 : mine w1 <> []).
  { unfold mine, w1. simpl.
    destruct (existingMetadataMapOf_lookup _ _ _ has_record) as [Hr Hp].
    apply getDirectoryMetadata_sub in Hr.
    intros Hnil.
    assert (Hin : In r (List.filter (has_path (path f)) (db w0))).
    { apply List.filter_In. split; [exact Hr|].
      unfold has_path. apply String.eqb_eq. exact Hp. }
    rewrite Hnil in Hin. exact Hin. }
  pose proof (forOf_invariant
                (incrementalFile env (existingMetadataMapOf rows)
                   (Z.of_nat (length files))) files
                (fun done _ w => mine w <> []
                                 /\ (In f done -> fresh w /\ replaced w))
                (fun _ => True)) as Hloop.
  cbv beta in Hloop.
  assert (Hbody : forall done x rest s w,
             files = done ++ x :: rest ->
             mine w <> [] /\ (In f done -> fresh w /\ replaced w) ->
             match incrementalFile env (existingMetadataMapOf rows)
                     (Z.of_nat (length files)) s x w with
             | (Fulfilled _, w2) =>
                 mine w2 <> [] /\ (In f (done ++ [x]) -> fresh w2 /\ replaced w2)
             | (Rejected, _) => True
             end).
  { intros done x rest s w _ [Hm Hdone].
    pose proof (changed_file_iteration (Z.of_nat (length files)) s x w Hm) as Hit.
    destruct (incrementalFile _ _ _ s x w) as [[l'|] w2]; [|exact I].
    destruct Hit as (Hm2 & [post Hext] & Hkeep & Hhere).
    split; [exact Hm2|]. intros Hin.
    apply in_app_or in Hin as [Hin|[->|[]]].
    - destruct (Hdone Hin) as [Hf Hr]. split; [exact (Hkeep Hf)|].
      exact (replaced_extends _ _ _ Hext Hr).
    - exact (Hhere eq_refl). }
  assert (Hstart : mine w1 <> [] /\ (In f [] -> fresh w1 /\ replaced w1))
    by (split; [exact H1 | intros []]).
  specialize (Hloop Hbody (mkLocals ∅ 0 []) w1 Hstart).
  pose proof (files_loop_seen env directoryPath files w0 w1) as Hseen.
  fold rows in Hseen.
  destruct (forOf (incrementalFile env (existingMetadataMapOf rows)
                     (Z.of_nat (length files))) files (mkLocals ∅ 0 []) w1)
    as [[l|] w2]; [|discriminate].
  destruct Hloop as [Hm2 Hdone]. destruct (Hdone in_scope) as [Hf2 Hr2].
  assert (Hf : path f ∈ processedFilePaths l).
  { apply Hseen, in_map. exact in_scope. }
  pose proof (forOf_invariant (deleteMissing env (processedFilePaths l)) rows
                (fun _ _ w => mine w = mine w2
                              /\ exists post, trace w = trace w2 ++ post)
                (fun _ => True)) as Hdel.
  cbv beta in Hdel.
  assert (Hdbody : forall done x rest s w,
             rows = done ++ x :: rest ->
             mine w = mine w2 /\ (exists post, trace w = trace w2 ++ post) ->
             match deleteMissing env (processedFilePaths l) s x w with
             | (Fulfilled _, w3) =>
                 mine w3 = mine w2 /\ exists post, trace w3 = trace w2 ++ post
             | (Rejected, _) => True
             end).
  { intros done x rest [] w _ [Hm [post Hext]].
    destruct (changed_delete_iteration (processedFilePaths l) x w Hf)
      as [Hm3 [post3 Hext3]].
    destruct (deleteMissing env (processedFilePaths l) () x w) as [[[]|] w3];
      [|exact I].
    simpl in *. split; [congruence|].
    exists (post ++ post3). rewrite Hext3, Hext, <- app_assoc. reflexivity. }
  assert (Hdstart : mine w2 = mine w2 /\ exists post, trace w2 = trace w2 ++ post).
  { split; [reflexivity|]. exists []. rewrite app_nil_r. reflexivity. }
  specialize (Hdel Hdbody tt w2 Hdstart).
  destruct (forOf (deleteMissing env (processedFilePaths l)) rows tt w2)
    as [[[]|] w3]; [|discriminate].
  destruct Hdel as [Hm3 [post Hext]].
  intros Heq. injection Heq as _ <-.
  assert (Hmine : mine (finish (Z.of_nat (length files)) l w3) = mine w2)
    by exact Hm3.
  split; [rewrite Hmine; exact Hm2|]. split.
  - unfold fresh. rewrite Hmine. exact Hf2.
  - apply (replaced_extends w2 _
             (post ++ if 0 <? Z.of_nat (length files)
                      then [DirectoryProcessingPercent (Z.of_nat (length files))
                              (Z.of_nat (length files))] else [])); [|exact Hr2].
    unfold finish. simpl. rewrite Hext, <- app_assoc. reflexivity.
Qed.

End ChangedFile.


(** *** A file of a directory, in the revision on [KnowledgeMetadataStore] *)

Section HashTest.
Import KnowledgeMetadataStore Hashed HashedFacts.
Variable env : Env.
Variables (base_id : string) (totalFiles : Z) (file : FileType) (fileHash : string).
Variables (w : World) (old : DocumentMetadata).

Hypothesis hash_ok : forall t, env_hash env t (path file) = Some fileHash.
Hypothesis database_ok : forall t q, env_database env t q = true.
Hypothesis has_row :
  KnowledgeMetadataStore.getMetadataByPath (db w) base_id (path file) = Some old.

Let read : list Event :=
  trace w ++ [CalculateFileHash (path file);
              Database (SelectByPath base_id (path file))].
Let progress : Event := DirectoryProcessingPercent totalFiles (processedFiles w + 1).

Lemma directory_file_same_hash :
  content_hash old = fileHash ->
  let r := directoryFileTask env base_id totalFiles file false w in
  r.1 = Fulfilled (skipped old) /\ db r.2 = db w /\ trace r.2 = read ++ [progress].
Proof.
  intros Hhash.
  unfold directoryFileTask, directoryFileBody, replaceExisting, addAndRecord. run.
  rewrite hash_ok; run. rewrite database_ok, has_row; run.
  unfold unchanged. simpl. rewrite Hhash, String.eqb_refl. run.
  unfold read, progress. rewrite <- !app_assoc. repeat split; reflexivity.
Qed.

Lemma directory_file_other_hash :
  content_hash old <> fileHash ->
  exists rest,
    trace (directoryFileTask env base_id totalFiles file false w).2
    = read ++ DeleteLoader (unique_id_embedjs old) :: rest.
Proof.
  intros Hhash. apply String.eqb_neq in Hhash.
  unfold directoryFileTask, directoryFileBody, replaceExisting, addAndRecord. run.
  rewrite hash_ok; run. rewrite database_ok, has_row; run.
  unfold unchanged, to_replace. simpl. rewrite Hhash. simpl. run.
  repeat split_call.
  all: unfold read; cbn [trace snd fst]; eexists; rewrite <- ?app_assoc; cbn [app];
    reflexivity.
Qed.

Lemma directory_file_is_replaced (result : LoaderReturn) :
  content_hash old <> fileHash ->
  (forall t u, env_deleteLoader env t u = true) ->
  (forall t, env_addFileLoader env t file false = Some result) ->
  valid_result result = true ->
  let r := directoryFileTask env base_id totalFiles file false w in
  r.1 = Fulfilled result
  /\ trace r.2
     = read ++ [DeleteLoader (unique_id_embedjs old);
                Database (DeleteByUniqueId base_id (unique_id_embedjs old));
                AddFileLoader file false;
                Database (Upsert (metadataOf base_id file fileHash result));
                progress]
  /\ db r.2
     = KnowledgeMetadataStore.addOrUpdateMetadata
         (KnowledgeMetadataStore.deleteMetadataByEmbedjsUniqueId (db w) base_id
            (unique_id_embedjs old))
         (metadataOf base_id file fileHash result).
Proof.
  intros Hhash Hdel Hadd Hvalid. apply String.eqb_neq in Hhash.
  unfold directoryFileTask, directoryFileBody, replaceExisting, addAndRecord. run.
  rewrite hash_ok; run. rewrite database_ok, has_row; run.
  unfold unchanged, to_replace. simpl. rewrite Hhash. simpl. run.
  rewrite Hdel; run. rewrite database_ok; run. rewrite Hadd; run.
  rewrite Hvalid; run. rewrite database_ok; run.
  unfold read, progress. rewrite <- !app_assoc. repeat split; reflexivity.
Qed.

End HashTest.

(** C4 (as amended).  Whether a file of a directory that has a row is
    indexed again depends on the revision.  In the incremental sync of the
    revision with [incrementalUpdate], when the sync completes: the loader
    stored in the row is deleted exactly when the hash or the last-modified
    time read differs from the row's; then [deleteLoader], [addFileLoader]
    with [forceReload] and the [UPDATE] of the row follow one another, and
    the row of the path ends with the hash and the time read; when both are
    those of the row, no call concerns the file and the row is as it was.
    In the revision on [KnowledgeMetadataStore], the task of a file of a
    directory compares the hash only: with the hash of the row it resolves
    to [SkippedUnchanged] after the two reads, and with another hash it
    calls [deleteLoader] on the stored id, deletes the row, adds the file
    and writes a row with the new hash and the time stamp of the file. *)
Theorem file_with_a_row_is_classified :
  (forall (env : Incremental.Env) (uuid directoryPath : string)
          (files : list FileType) (d : MetadataStore.Table) (f : FileType)
          (r : MetadataStore.FileMetadata) (h : string) (mt : Z)
          (ret : LoaderReturn) (w' : Incremental.World),
      In f files ->
      List.NoDup (map MetadataStore.embedjs_unique_id d) ->
      Incremental.existingMetadataMapOf
        (MetadataStore.getDirectoryMetadata d directoryPath) !! path f = Some r ->
      (forall t, env_hash env t (path f) = Some h) ->
      (forall t, env_mtimeMs env t (path f) = Some mt) ->
      runTask (Incremental.directoryTask env uuid directoryPath files false true) d
      = ([Fulfilled ret], w') ->
      ((MetadataStore.hash r <> h \/ MetadataStore.lastModified r <> mt)
       <-> In (DeleteLoader (MetadataStore.embedjs_unique_id r)) (trace w'))
      /\ (MetadataStore.hash r <> h \/ MetadataStore.lastModified r <> mt ->
          (exists pre post result,
              trace w'
              = pre
                ++ [DeleteLoader (MetadataStore.embedjs_unique_id r);
                    AddFileLoader f true;
                    Database (Incremental.Update (path f)
                                (MetadataStore.mkPartial None (Some mt)
                                   (Some (Runtime.size f)) (Some h)
                                   (Some (uniqueId result))))]
                ++ post)
          /\ (exists x, In x (db w') /\ MetadataStore.filePath x = path f)
          /\ (forall x, In x (db w') -> MetadataStore.filePath x = path f ->
                MetadataStore.hash x = h /\ MetadataStore.lastModified x = mt))
      /\ (MetadataStore.hash r = h /\ MetadataStore.lastModified r = mt ->
          Forall (fun e => Incremental.concerns (path f)
                             (MetadataStore.embedjs_unique_id r) e = false)
                 (trace w')
          /\ List.filter (MetadataStore.has_path (path f)) (db w')
             = List.filter (MetadataStore.has_path (path f)) d))
  /\ (forall (env : Hashed.Env) (base_id sep uuid1 uuid2 directory : string)
             (files : list FileType) (i : nat) (f : FileType),
         files !! i = Some f ->
         exists it,
           loaderTasks (Hashed.directoryTask env base_id sep uuid1 uuid2 directory
                          files false) !! i = Some it
           /\ forall (h : string) (w : Hashed.World)
                     (old : KnowledgeMetadataStore.DocumentMetadata),
                (forall t, env_hash env t (path f) = Some h) ->
                (forall t q, env_database env t q = true) ->
                KnowledgeMetadataStore.getMetadataByPath (db w) base_id (path f)
                = Some old ->
                let r := task it w in
                let read := trace w
                            ++ [CalculateFileHash (path f);
                                Database (Hashed.SelectByPath base_id (path f))] in
                let progress := DirectoryProcessingPercent (Z.of_nat (length files))
                                  (processedFiles w + 1) in
                (KnowledgeMetadataStore.content_hash old <> h
                 <-> exists rest,
                       trace r.2
                       = read
                         ++ DeleteLoader (KnowledgeMetadataStore.unique_id_embedjs old)
                            :: rest)
                /\ (KnowledgeMetadataStore.content_hash old = h ->
                    r.1 = Fulfilled (Hashed.skipped old)
                    /\ db r.2 = db w /\ trace r.2 = read ++ [progress])
                /\ (forall result,
                      KnowledgeMetadataStore.content_hash old <> h ->
                      (forall t u, env_deleteLoader env t u = true) ->
                      (forall t, env_addFileLoader env t f false = Some result) ->
                      Hashed.valid_result result = true ->
                      r.1 = Fulfilled result
                      /\ trace r.2
                         = read
                           ++ [DeleteLoader
                                 (KnowledgeMetadataStore.unique_id_embedjs old);
                               Database
                                 (Hashed.DeleteByUniqueId base_id
                                    (KnowledgeMetadataStore.unique_id_embedjs old));
                               AddFileLoader f false;
                               Database
                                 (Hashed.Upsert (Hashed.metadataOf base_id f h result));
                               progress]
                      /\ KnowledgeMetadataStore.getMetadataByPath (db r.2) base_id
                           (path f)
                         = Some (Hashed.metadataOf base_id f h result))).
Proof.
  split.
  - intros env uuid directoryPath files d f r h mt ret w' Hin Hnd Hrow Hh Hmt Hrun.
    assert (Hsame : MetadataStore.hash r = h /\ MetadataStore.lastModified r = mt ->
              Forall (fun e => Incremental.concerns (path f)
                                 (MetadataStore.embedjs_unique_id r) e = false)
                     (trace w')
              /\ List.filter (MetadataStore.has_path (path f)) (db w')
                 = List.filter (MetadataStore.has_path (path f)) d).
    { intros [<- <-].
      pose proof (IncrementalFacts.unchanged_file_is_left_alone env uuid directoryPath
                    files d f r Hin Hnd Hrow Hh Hmt) as H.
      cbv zeta in H. rewrite Hrun in H. exact H. }
    assert (Hdiff : MetadataStore.hash r <> h \/ MetadataStore.lastModified r <> mt ->
              (exists pre post result,
                  trace w'
                  = pre
                    ++ [DeleteLoader (MetadataStore.embedjs_unique_id r);
                        AddFileLoader f true;
                        Database (Incremental.Update (path f)
                                    (MetadataStore.mkPartial None (Some mt)
                                       (Some (Runtime.size f)) (Some h)
                                       (Some (uniqueId result))))]
                    ++ post)
              /\ (exists x, In x (db w') /\ MetadataStore.filePath x = path f)
              /\ (forall x, In x (db w') -> MetadataStore.filePath x = path f ->
                    MetadataStore.hash x = h /\ MetadataStore.lastModified x = mt)).
    { intros Hch. apply IncrementalFacts.changed_iff in Hch.
      unfold runTask, Incremental.directoryTask in Hrun. simpl in Hrun.
      match type of Hrun with
      | context [Incremental.incrementalTask _ _ _ _ ?w] => set (w0 := w) in Hrun
      end.
      destruct (Incremental.incrementalTask env ("DirectoryLoader_" +:+ uuid)
                  directoryPath files w0) as [res w2] eqn:Htask.
      injection Hrun as -> ->.
      destruct (incrementalTask_replaces env ("DirectoryLoader_" +:+ uuid)
                  directoryPath files f r w0 h mt
                  Hin Hrow Hh Hmt Hch ret w' Htask) as (Hm & Hf & Hr).
      split; [exact Hr|]. split.
      - destruct (List.filter (MetadataStore.has_path (path f)) (db w'))
          as [|x rest] eqn:Hx; [congruence|].
        assert (Hxin : In x (List.filter (MetadataStore.has_path (path f)) (db w')))
          by (rewrite Hx; left; reflexivity).
        apply List.filter_In in Hxin as [Hxin Hp]. exists x. split; [exact Hxin|].
        apply String.eqb_eq. exact Hp.
      - intros x Hx Hp. rewrite List.Forall_forall in Hf. apply Hf.
        apply List.filter_In. split; [exact Hx|].
        apply String.eqb_eq. exact Hp. }
    split; [|split; [exact Hdiff | exact Hsame]].
    split.
    + intros Hch. destruct (Hdiff Hch) as ((pre & post & result & Ht) & _).
      rewrite Ht. apply in_or_app. right. left. reflexivity.
    + intros Hdel.
      destruct (Incremental.changed r h mt) eqn:Hch;
        [apply IncrementalFacts.changed_iff; exact Hch|].
      apply IncrementalFacts.unchanged_iff in Hch.
      destruct (Hsame Hch) as [Hq _]. rewrite List.Forall_forall in Hq.
      specialize (Hq _ Hdel). simpl in Hq. rewrite String.eqb_refl in Hq.
      discriminate Hq.
  - intros env base_id sep uuid1 uuid2 directory files i f Hi.
    eexists. split; [apply directoryTask_file_item; exact Hi|].
    intros h w old Hh Hd Hold. cbn [task].
    split; [|split].
    + split.
      * intros Hne.
        exact (directory_file_other_hash env base_id _ f h w old Hh Hd Hold Hne).
      * intros [rest Ht].
        destruct (String.eqb_spec (KnowledgeMetadataStore.content_hash old) h)
          as [Heq|Hne]; [|exact Hne].
        destruct (directory_file_same_hash env base_id (Z.of_nat (length files)) f h
                    w old Hh Hd Hold Heq) as (_ & _ & Ht').
        pose proof (eq_trans (eq_sym Ht') Ht) as Hboth.
        apply app_inv_head in Hboth. discriminate Hboth.
    + intros Heq.
      exact (directory_file_same_hash env base_id _ f h w old Hh Hd Hold Heq).
    + intros result Hne Hdel Hadd Hvalid.
      destruct (directory_file_is_replaced env base_id (Z.of_nat (length files)) f h
                  w old Hh Hd Hold result Hne Hdel Hadd Hvalid) as (Hres & Ht & Hdb).
      split; [exact Hres|]. split; [exact Ht|].
      pose proof (upserted_row_is_found
                    (KnowledgeMetadataStore.deleteMetadataByEmbedjsUniqueId
                       (db w) base_id
                       (KnowledgeMetadataStore.unique_id_embedjs old))
                    (Hashed.metadataOf base_id f h result)) as Hlook.
      rewrite <- Hdb in Hlook. exact Hlook.
Qed.


Lemma file_with_a_row_is_classified_witness :
  let w' := (runTask (Incremental.directoryTask (Incremental.steady 8) "u" "/d"
                        [Incremental.a_txt] false true) [Incremental.row_a]).2 in
  ((MetadataStore.hash Incremental.row_a <> "sha:/d/a.txt"
    \/ MetadataStore.lastModified Incremental.row_a <> 8)
   <-> In (DeleteLoader "loader:/d/a.txt") (trace w'))
  /\ (MetadataStore.hash Incremental.row_a <> "sha:/d/a.txt"
      \/ MetadataStore.lastModified Incremental.row_a <> 8 ->
      (exists pre post result,
          trace w'
          = pre
            ++ [DeleteLoader "loader:/d/a.txt";
                AddFileLoader Incremental.a_txt true;
                Database (Incremental.Update "/d/a.txt"
                            (MetadataStore.mkPartial None (Some 8) (Some 50)
                               (Some "sha:/d/a.txt") (Some (uniqueId result))))]
            ++ post)
      /\ (exists x, In x (db w') /\ MetadataStore.filePath x = "/d/a.txt")
      /\ (forall x, In x (db w') -> MetadataStore.filePath x = "/d/a.txt" ->
            MetadataStore.hash x = "sha:/d/a.txt"
            /\ MetadataStore.lastModified x = 8))
  /\ (MetadataStore.hash Incremental.row_a = "sha:/d/a.txt"
      /\ MetadataStore.lastModified Incremental.row_a = 8 ->
      Forall (fun e => Incremental.concerns "/d/a.txt" "loader:/d/a.txt" e = false)
             (trace w')
      /\ List.filter (MetadataStore.has_path "/d/a.txt") (db w')
         = List.filter (MetadataStore.has_path "/d/a.txt") [Incremental.row_a]).
Proof.
  apply (proj1 file_with_a_row_is_classified (Incremental.steady 8) "u" "/d"
           [Incremental.a_txt] [Incremental.row_a] Incremental.a_txt
           Incremental.row_a "sha:/d/a.txt" 8
           (mkLoaderReturn 1 "DirectoryLoader_u" ["loader:/d/a.txt"]
                           "DirectoryIncrementalScanPart")).
  - left. reflexivity.
  - constructor; [simpl; tauto | constructor].
  - vm_compute. reflexivity.
  - intros t. reflexivity.
  - intros t. reflexivity.
  - vm_compute. reflexivity.
Defined.

(** C4, the claim as stated, fails in the revision on
    [KnowledgeMetadataStore]: every call succeeding, [/d/a.txt] has the
    hash of its row and a later time stamp, 9 against 7, and the sync of the
    directory does not call [deleteLoader] on the id of the row: the file is
    skipped as unchanged. *)
Lemma touched_file_with_the_same_hash_is_skipped :
  ~ (forall (env : Hashed.Env) (base_id sep uuid1 uuid2 directory : string)
            (files : list FileType) (d : KnowledgeMetadataStore.Table)
            (f : FileType) (old : KnowledgeMetadataStore.DocumentMetadata)
            (h : string),
        (forall t p, env_hash env t p = Some h) ->
        (forall t q, env_database env t q = true) ->
        (forall t u, env_deleteLoader env t u = true) ->
        In f files ->
        KnowledgeMetadataStore.getMetadataByPath d base_id (path f) = Some old ->
        KnowledgeMetadataStore.last_modified_timestamp old <> Runtime.lastModified f ->
        In (DeleteLoader (KnowledgeMetadataStore.unique_id_embedjs old))
           (trace (runTask (Hashed.directoryTask env base_id sep uuid1 uuid2 directory
                              files false) d).2)).
Proof.
  intros H.
  specialize (H (Hashed.steady "sha:earlier") "kb" "/" "u1" "u2" "/d"
                [Hashed.touched_a] [Hashed.doc_a] Hashed.touched_a Hashed.doc_a
                "sha:earlier" (fun _ _ => eq_refl) (fun _ _ => eq_refl)
                (fun _ _ => eq_refl) (or_introl eq_refl) eq_refl).
  assert (Hlater : KnowledgeMetadataStore.last_modified_timestamp Hashed.doc_a
                   <> Runtime.lastModified Hashed.touched_a) by discriminate.
  specialize (H Hlater). vm_compute in H.
  repeat destruct H as [H|H]; try discriminate; exact H.
Qed.

(** *** A forced reload *)

(** C5 (as amended).  With [forceReload], every file in scope is added
    again with [addFileLoader(..., true)], whatever its row and its hash
    are.  In the revision with [incrementalUpdate] no [deleteLoader] is
    called: the directory task first clears the rows of the directory, and
    the task of a file item makes the one call.  In the revision on
    [KnowledgeMetadataStore], as long as the hash, the database and
    [deleteLoader] answer, the task of a file of a directory and the task
    of a file item call [deleteLoader] on the id stored in the row of the
    file, if it has one, then delete the row, before they add the file. *)
Theorem forced_reload_by_kind_of_item :
  (forall (env : Incremental.Env) (uuid directoryPath : string)
          (files : list FileType) (incrementalUpdate : bool) (d : MetadataStore.Table),
      let r := runTask (Incremental.directoryTask env uuid directoryPath files true
                          incrementalUpdate) d in
      (exists rest,
          trace r.2 = Database (Incremental.DeleteDirectory directoryPath) :: rest)
      /\ (forall f, In f files -> In (AddFileLoader f true) (trace r.2))
      /\ (forall u, ~ In (DeleteLoader u) (trace r.2)))
  /\ (forall (env : Incremental.Env) (file : FileType) (d : MetadataStore.Table),
         let r := runTask (Incremental.fileTask env file true) d in
         trace r.2 = [AddFileLoader file true] /\ db r.2 = d)
  /\ (forall (env : Hashed.Env) (base_id sep uuid1 uuid2 directory : string)
             (files : list FileType) (i : nat) (file : FileType),
         files !! i = Some file ->
         exists it,
           loaderTasks (Hashed.directoryTask env base_id sep uuid1 uuid2 directory
                          files true) !! i = Some it
           /\ forall (fileHash : string) (w : Hashed.World),
                (forall t, env_hash env t (path file) = Some fileHash) ->
                (forall t q, env_database env t q = true) ->
                (forall t u, env_deleteLoader env t u = true) ->
                Hashed.forced_calls base_id file
                  (KnowledgeMetadataStore.getMetadataByPath (db w) base_id (path file))
                  (trace w) (trace (task it w).2))
  /\ (forall (env : Hashed.Env) (base_id : string) (file : FileType)
             (fileHash : string) (w : Hashed.World),
         (forall t, env_hash env t (path file) = Some fileHash) ->
         (forall t q, env_database env t q = true) ->
         (forall t u, env_deleteLoader env t u = true) ->
         Hashed.forced_calls base_id file
           (KnowledgeMetadataStore.getMetadataByPath (db w) base_id (path file))
           (trace w)
           (trace (runItems (loaderTasks (Hashed.fileTask env base_id file true)) w).2)).
Proof.
  split; [exact IncrementalFacts.forced_refresh_readds_without_deleteLoader|].
  split; [intros env file d; apply file_item_calls|].
  split.
  - intros env base_id sep uuid1 uuid2 directory files i file Hi.
    eexists. split; [apply directoryTask_file_item; exact Hi|].
    intros fileHash w Hh Hd Hl. cbn [task]. unfold Hashed.forced_calls.
    destruct (KnowledgeMetadataStore.getMetadataByPath (db w) base_id (path file))
      as [old|] eqn:Hold.
    + destruct (HashedFacts.forced_file_is_deleted_then_readded env base_id file fileHash
                  Hh Hd Hl (Z.of_nat (length files)) w old Hold) as [rest Hrest].
      exists rest. exact Hrest.
    + exact (HashedFacts.forced_new_file_is_added env base_id file fileHash
               Hh Hd (Z.of_nat (length files)) w Hold).
  - intros env base_id file fileHash w Hh Hd Hl. unfold Hashed.forced_calls.
    destruct (KnowledgeMetadataStore.getMetadataByPath (db w) base_id (path file))
      as [old|] eqn:Hold.
    + destruct (forced_file_item_is_deleted_then_readded env base_id file fileHash
                  Hh Hd Hl w old Hold) as [rest Hrest].
      exists rest. exact Hrest.
    + exact (forced_new_file_item_is_added env base_id file fileHash Hh Hd w Hold).
Qed.

Lemma forced_reload_by_kind_of_item_witness :
  (exists it,
      loaderTasks (Hashed.directoryTask (Hashed.steady "sha:earlier") "kb" "/" "u1" "u2"
                     "/d" [Incremental.a_txt] true) !! 0%nat = Some it
      /\ forall (fileHash : string) (w : Hashed.World),
           (forall t, env_hash (Hashed.steady "sha:earlier") t (path Incremental.a_txt)
                      = Some fileHash) ->
           (forall t q, env_database (Hashed.steady "sha:earlier") t q = true) ->
           (forall t u, env_deleteLoader (Hashed.steady "sha:earlier") t u = true) ->
           Hashed.forced_calls "kb" Incremental.a_txt
             (KnowledgeMetadataStore.getMetadataByPath (db w) "kb"
                (path Incremental.a_txt))
             (trace w) (trace (task it w).2))
  /\ Hashed.forced_calls "kb" Incremental.a_txt (Some Hashed.doc_a) []
       (trace (runItems (loaderTasks (Hashed.fileTask (Hashed.steady "sha:earlier") "kb"
                                        Incremental.a_txt true))
                        (mkWorld [Hashed.doc_a] [] 0 None)).2).
Proof.
  split.
  - exact (proj1 (proj2 (proj2 forced_reload_by_kind_of_item))
             (Hashed.steady "sha:earlier") "kb" "/" "u1" "u2" "/d" [Incremental.a_txt]
             0%nat Incremental.a_txt eq_refl).
  - exact (proj2 (proj2 (proj2 forced_reload_by_kind_of_item))
             (Hashed.steady "sha:earlier") "kb" Incremental.a_txt "sha:earlier"
             (mkWorld [Hashed.doc_a] [] 0 None)
             (fun _ => eq_refl) (fun _ _ => eq_refl) (fun _ _ => eq_refl)).
Defined.

(** C5, the claim as stated, fails: in the revision with
    [incrementalUpdate], a forced reload of a directory calls [deleteLoader]
    on the stored id of no file. *)
Lemma forced_reload_calls_no_deleteLoader :
  ~ (forall (env : Incremental.Env) (uuid directoryPath : string)
            (files : list FileType) (incrementalUpdate : bool)
            (d : MetadataStore.Table) (f : FileType) (old : MetadataStore.FileMetadata),
        In f files -> In old d -> MetadataStore.filePath old = path f ->
        In (DeleteLoader (MetadataStore.embedjs_unique_id old))
           (trace (runTask (Incremental.directoryTask env uuid directoryPath files
                              true incrementalUpdate) d).2)).
Proof.
  intros H.
  specialize (H (Incremental.steady 7) "u" "/d" [Incremental.a_txt] false
                [Incremental.row_a] Incremental.a_txt Incremental.row_a
                (or_introl eq_refl) (or_introl eq_refl) eq_refl).
  destruct (IncrementalFacts.forced_refresh_readds_without_deleteLoader
              (Incremental.steady 7) "u" "/d" [Incremental.a_txt] false
              [Incremental.row_a]) as (_ & _ & Hnone).
  exact (Hnone _ H).
Qed.

(** *** The rows a scan for deleted files sweeps *)

Section DeletionEvents.
Import Hashed HashedFacts KnowledgeMetadataStore.
Variable env : Env.
Variables (base_id sep uuid directory : string) (currentFilePaths : gset string).
Variable P : Event -> Prop.



End DeletionEvents.







(** C8 fails on the code: two units of work of the revision with
    [incrementalUpdate] have no [try]/[catch].  The master task of the
    incremental sync rejects when the hash of a file of the listing cannot
    be read, and the task that clears the metadata before a full refresh
    rejects when the database fails; the continuation the queue attached
    with [then] is skipped for a promise that rejects, so the scheduler is
    left as it was, the item still counted. *)
Theorem unguarded_tasks_reject :
  (forall (env : Incremental.Env) (uuid directoryPath : string)
          (file : FileType) (files : list FileType) (d : MetadataStore.Table),
      (forall t, env_hash env t (path file) = None) ->
      (runTask (Incremental.directoryTask env uuid directoryPath (file :: files)
                  false true) d).1 = [Rejected])
  /\ (forall (env : Incremental.Env) (uuid directoryPath : string)
             (files : list FileType) (incrementalUpdate : bool)
             (d : MetadataStore.Table),
         env_database env [] (Incremental.DeleteDirectory directoryPath) = false ->
         head (runTask (Incremental.directoryTask env uuid directoryPath files
                          true incrementalUpdate) d).1 = Some Rejected)
  /\ (forall (tid : nat) (it : Scheduler.LoaderTaskItem) (s : Scheduler.Service),
         Scheduler.onSettled (Rejected : Settled LoaderReturn) tid it s = s).
Proof.
  split; [|split].
  - intros env uuid directoryPath file files d Hhash.
    unfold runTask, Incremental.directoryTask, start. simpl.
    unfold Incremental.incrementalTask.
    IncrementalFacts.run.
    destruct (env_database env [] (Incremental.SelectDirectory directoryPath));
      [|reflexivity].
    cbn [forOf]. unfold Incremental.incrementalFile at 1.
    IncrementalFacts.run. rewrite Hhash. reflexivity.
  - intros env uuid directoryPath files incrementalUpdate d Hdb.
    unfold runTask, Incremental.directoryTask, start.
    rewrite andb_false_r, orb_true_r. simpl.
    unfold Incremental.clearMetadataTask.
    IncrementalFacts.run. rewrite Hdb.
    destruct (runItems _ _). reflexivity.
  - reflexivity.
Qed.

Lemma unguarded_tasks_reject_witness :
  (runTask (Incremental.directoryTask Incremental.unreadable "u" "/d" [Incremental.a_txt]
              false true) []).1 = [Rejected]
  /\ head (runTask (Incremental.directoryTask Incremental.database_down "u" "/d"
                      [Incremental.a_txt] true true) []).1 = Some Rejected.
Proof.
  split.
  - apply (proj1 unguarded_tasks_reject Incremental.unreadable "u" "/d" Incremental.a_txt [] []).
    reflexivity.
  - apply (proj1 (proj2 unguarded_tasks_reject) Incremental.database_down "u" "/d"
             [Incremental.a_txt] true []).
    reflexivity.
Defined.

(** C8, on the scheduler: the 50-byte item of the sync of [/d] is admitted
    into the idle service, its promise rejects, and the service keeps
    [workload = 50], [processingItemCount = 1] and the task in the map. *)
Lemma rejected_item_stays_counted :
  let r := runTask (Incremental.directoryTask Incremental.unreadable "u" "/d"
                      [Incremental.a_txt] false true) [] in
  let it := Scheduler.mkItem 0 Scheduler.PENDING
              (Incremental.sum_sizes [Incremental.a_txt]) in
  let s := Scheduler.add (Scheduler.mkTask 0 [it]) Scheduler.init in
  r.1 = [Rejected]
  /\ Scheduler.workload s = 50
  /\ Scheduler.processingItemCount s = 1
  /\ forall out, In out r.1 ->
       Scheduler.onSettled out 0 it s = s
       /\ Scheduler.queue s
          = [Scheduler.mkTask 0 [Scheduler.mkItem 0 Scheduler.PROCESSING 50]].
Proof.
  repeat split; try (vm_compute; reflexivity).
  - destruct H as [<-|[]]. reflexivity.
Qed.

End RevisionFacts.


(** * Further properties of the queue, the stores and the tasks *)

Module SchedulerInvariants.
Import Scheduler SchedulerFacts.

(** *** What a scan changes *)

Lemma admitted_or_same_refl (items : list LoaderTaskItem) :
  Forall2 admitted_or_same items items.
Proof. induction items; constructor; [left; reflexivity | assumption]. Qed.

Lemma scanItems_frame (items : list LoaderTaskItem) (w c : Z) :
  Forall2 admitted_or_same items (sc_items (scanItems w c items)).
Proof.
  revert w c. induction items as [|it rest IH]; intros w c; simpl; [constructor|].
  destruct (maximumLoad w c); simpl; [apply admitted_or_same_refl|].
  destruct (state it) eqn:Hst; simpl; constructor; auto.
  - right. auto.
  - left. reflexivity.
  - left. reflexivity.
Qed.

Lemma scanned_refl (tasks : list LoaderTaskOfSet) : Forall2 scanned tasks tasks.
Proof.
  induction tasks; constructor; [|assumption].
  split; [reflexivity | apply admitted_or_same_refl].
Qed.

Lemma scanTasks_frame (tasks : list LoaderTaskOfSet) (w c : Z) :
  Forall2 scanned tasks (sc_items (scanTasks w c tasks)).
Proof.
  revert w c. induction tasks as [|t rest IH]; intros w c; [constructor|].
  cbn [scanTasks].
  pose proof (scanItems_frame (loaderTasks t) w c) as Ht.
  destruct (sc_break (scanItems w c (loaderTasks t))); simpl.
  - constructor; [split; [reflexivity | exact Ht] | apply scanned_refl].
  - constructor; [split; [reflexivity | exact Ht] | apply IH].
Qed.

(** X1.  A scan keeps the tasks of the map and the items of each task in
    their order, with their identity and their estimate, and changes the
    state of an item in one way only, from [PENDING] to [PROCESSING]. *)
Theorem scan_only_admits_pending_items (s : Service) :
  Forall2 scanned (queue s) (queue (processingQueueHandle s)).
Proof. apply scanTasks_frame. Qed.

Lemma admitted_or_same_ids (a b : list LoaderTaskItem) :
  Forall2 admitted_or_same a b -> map item_id b = map item_id a.
Proof.
  induction 1 as [|x y a b [->|[_ ->]] _ IH]; simpl; congruence.
Qed.

Lemma scanned_distinct (q q' : list LoaderTaskOfSet) :
  Forall2 scanned q q' -> distinct q -> distinct q'.
Proof.
  intros H [Hq Hi]. split.
  - replace (map task_id q') with (map task_id q); [exact Hq|].
    clear Hq Hi. induction H as [|t t' q q' [Hid _] _ IH]; simpl; congruence.
  - clear Hq. induction H as [|t t' q q' [_ Hit] _ IH]; [constructor|].
    apply Forall_cons in Hi as [Ht Hrest]. constructor; [|auto].
    rewrite (admitted_or_same_ids _ _ Hit). exact Ht.
Qed.

Lemma scanned_not_done (q q' : list LoaderTaskOfSet) :
  Forall2 scanned q q' ->
  Forall (fun it => state it <> DONE) (allItems q) ->
  Forall (fun it => state it <> DONE) (allItems q').
Proof.
  unfold allItems.
  induction 1 as [|t t' q q' [_ Hit] _ IH]; intros Hall; [constructor|].
  simpl in *. apply Forall_app in Hall as [Ht Hrest]. apply Forall_app. split; [|auto].
  clear IH Hrest. induction Hit as [|x y a b Hxy _ IH']; [constructor|].
  apply Forall_cons in Ht as [Hx Ha]. constructor; [|auto].
  destruct Hxy as [->|[_ ->]]; [exact Hx | simpl; discriminate].
Qed.

(** *** The counters count the items that are [PROCESSING] *)

Lemma scanItems_processing (items : list LoaderTaskItem) (w c : Z) :
  let r := scanItems w c items in
  let proc := List.filter (fun it => is_processing (state it)) in
  sum_workload (proc (sc_items r))
  = sum_workload (proc items) + sum_workload (sc_admitted r)
  /\ length (proc (sc_items r)) = (length (proc items) + length (sc_admitted r))%nat.
Proof.
  revert w c. induction items as [|it rest IH]; intros w c; simpl; [split; lia|].
  destruct (maximumLoad w c); simpl; [split; lia|].
  destruct (state it) eqn:Hst; simpl.
  - destruct (IH (w + evaluateTaskWorkload it) (c + 1)) as [H1 H2].
    simpl in H1, H2. rewrite H1, H2. split; lia.
  - destruct (IH w c) as [H1 H2]. simpl in H1, H2. rewrite Hst. simpl.
    rewrite H1, H2. split; lia.
  - destruct (IH w c) as [H1 H2]. simpl in H1, H2. rewrite Hst. simpl.
    rewrite H1, H2. split; lia.
Qed.

Lemma scanTasks_processing (tasks : list LoaderTaskOfSet) (w c : Z) :
  let r := scanTasks w c tasks in
  sum_workload (processingItems (sc_items r))
  = sum_workload (processingItems tasks) + sum_workload (sc_admitted r)
  /\ length (processingItems (sc_items r))
     = (length (processingItems tasks) + length (sc_admitted r))%nat.
Proof.
  revert w c. induction tasks as [|t rest IH]; intros w c; [split; simpl; lia|].
  cbn [scanTasks]. unfold processingItems, allItems in *.
  destruct (scanItems_processing (loaderTasks t) w c) as [H1 H2].
  destruct (sc_break (scanItems w c (loaderTasks t))); simpl in *.
  - rewrite !List.filter_app, !sum_workload_app, !length_app, H1, H2. split; lia.
  - destruct (IH (sc_workload (scanItems w c (loaderTasks t)))
                 (sc_count (scanItems w c (loaderTasks t)))) as [H3 H4].
    rewrite !List.filter_app, !sum_workload_app, !length_app, H1, H2, H3, H4.
    split; lia.
Qed.

Lemma processingQueueHandle_settled (s : Service) :
  settled s -> settled (processingQueueHandle s).
Proof.
  intros [Hd Hw Hc Hn].
  pose proof (scanTasks_frame (queue s) (workload s) (processingItemCount s)) as Hf.
  destruct (scanTasks_spec (queue s) (workload s) (processingItemCount s))
    as [_ W1 C1 _ _ _].
  destruct (scanTasks_processing (queue s) (workload s) (processingItemCount s))
    as [P1 P2].
  unfold processingQueueHandle, getSubtasksUntilMaximumLoad.
  constructor; simpl.
  - eapply scanned_distinct; eauto.
  - rewrite W1, P1, Hw. reflexivity.
  - rewrite C1, P2, Hc. lia.
  - eapply scanned_not_done; eauto.
Qed.

Lemma processingQueueHandle_saturates (s : Service) :
  let s' := processingQueueHandle s in
  pendingItems (queue s') <> [] ->
  maximumLoad (workload s') (processingItemCount s') = true.
Proof.
  destruct (scanTasks_spec (queue s) (workload s) (processingItemCount s))
    as [_ _ _ _ B1 D1].
  unfold processingQueueHandle, getSubtasksUntilMaximumLoad, pendingItems. simpl.
  intros Hne. apply B1.
  destruct (sc_break _); [reflexivity|]. exfalso. apply Hne. apply D1. reflexivity.
Qed.

Lemma delete_item_absent (iid : nat) (items : list LoaderTaskItem) :
  ~ In iid (map item_id items) -> delete_item iid items = items.
Proof.
  induction items as [|a rest IH]; intros Hout; [reflexivity|]. simpl in *.
  destruct (Nat.eqb_spec (item_id a) iid) as [Heq|Hne]; [tauto|].
  simpl. f_equal. apply IH. tauto.
Qed.

Lemma delete_item_processing (items : list LoaderTaskItem) (it : LoaderTaskItem) :
  NoDup (map item_id items) -> In it items -> state it = PROCESSING ->
  let proc := List.filter (fun it => is_processing (state it)) in
  sum_workload (proc (delete_item (item_id it) items))
  = sum_workload (proc items) - evaluateTaskWorkload it
  /\ Z.of_nat (length (proc (delete_item (item_id it) items)))
     = Z.of_nat (length (proc items)) - 1.
Proof.
  intros Hnd Hin Hst. induction items as [|a rest IH]; [destruct Hin|].
  simpl in Hnd. inversion Hnd as [|? ? Hout Hrest]; subst.
  destruct Hin as [->|Hin].
  - simpl. rewrite Nat.eqb_refl. simpl.
    rewrite delete_item_absent by (rewrite <- list_elem_of_In; exact Hout).
    rewrite Hst. simpl. split; lia.
  - assert (Hne : item_id a <> item_id it).
    { intros Heq. apply Hout. rewrite Heq. apply list_elem_of_In.
      apply in_map. exact Hin. }
    simpl. apply Nat.eqb_neq in Hne. rewrite Hne. simpl.
    destruct (IH Hrest Hin) as [H1 H2]. simpl in H1, H2.
    destruct (is_processing (state a)); simpl; rewrite ?H1; split; lia.
Qed.

Lemma allItems_delete_from_task (tid iid : nat) (t : LoaderTaskOfSet) :
  allItems (delete_from_task tid iid t)
  = if Nat.eqb (task_id t) tid then delete_item iid (loaderTasks t) else loaderTasks t.
Proof.
  unfold delete_from_task, allItems. destruct (Nat.eqb (task_id t) tid); simpl.
  - destruct (delete_item iid (loaderTasks t)); simpl; rewrite ?app_nil_r; reflexivity.
  - apply app_nil_r.
Qed.

Lemma allItems_delete (tid iid : nat) (q : list LoaderTaskOfSet) :
  allItems (flat_map (delete_from_task tid iid) q)
  = flat_map (fun t => if Nat.eqb (task_id t) tid
                       then delete_item iid (loaderTasks t) else loaderTasks t) q.
Proof.
  induction q as [|t q IH]; [reflexivity|].
  simpl. rewrite <- IH, <- allItems_delete_from_task.
  unfold allItems. apply flat_map_app.
Qed.

Lemma delete_processing (q : list LoaderTaskOfSet) (t : LoaderTaskOfSet)
  (it : LoaderTaskItem) :
  distinct q -> In t q -> In it (loaderTasks t) -> state it = PROCESSING ->
  let q' := flat_map (delete_from_task (task_id t) (item_id it)) q in
  sum_workload (processingItems q')
  = sum_workload (processingItems q) - evaluateTaskWorkload it
  /\ Z.of_nat (length (processingItems q'))
     = Z.of_nat (length (processingItems q)) - 1.
Proof.
  intros [Hnd Hitems] Ht Hit Hst. simpl.
  unfold processingItems. rewrite allItems_delete. unfold allItems.
  induction q as [|a q IH]; [destruct Ht|].
  simpl in Hnd. inversion Hnd as [|? ? Hout Hrest]; subst.
  rewrite list_elem_of_In in Hout.
  apply Forall_cons in Hitems as [Ha Hq].
  simpl. rewrite !List.filter_app, !sum_workload_app, !length_app.
  destruct Ht as [->|Ht].
  - rewrite Nat.eqb_refl.
    destruct (delete_item_processing (loaderTasks t) it Ha Hit Hst) as [H1 H2].
    simpl in H1, H2.
    assert (Hsame : flat_map (fun t0 => if Nat.eqb (task_id t0) (task_id t)
                                        then delete_item (item_id it) (loaderTasks t0)
                                        else loaderTasks t0) q
                    = flat_map loaderTasks q).
    { clear - Hout. induction q as [|b q IH]; [reflexivity|].
      simpl in *.
      destruct (Nat.eqb_spec (task_id b) (task_id t)) as [Heq|Hne]; [tauto|].
      rewrite IH by tauto. reflexivity. }
    rewrite Hsame. split; lia.
  - assert (Hne : task_id a <> task_id t).
    { intros Heq. apply Hout. rewrite Heq. apply in_map. exact Ht. }
    apply Nat.eqb_neq in Hne. rewrite Hne.
    destruct (IH Hrest Hq Ht) as [H1 H2]. split; lia.
Qed.

(** Rows that are kept out of rows with distinct keys have distinct keys. *)
Lemma map_filter_NoDup {Row Key : Type} (key : Row -> Key) (keep : Row -> bool)
  (rows : list Row) (Hnd : NoDup (map key rows)) :
  NoDup (map key (List.filter keep rows)).
Proof.
  induction rows as [|a l IH]; [constructor|].
  simpl in Hnd. inversion Hnd as [|? ? Hout Hrest]; subst. simpl.
  destruct (keep a); [|auto]. simpl. constructor; [|auto].
  intros Hin. apply Hout. rewrite list_elem_of_In in *.
  apply in_map_iff in Hin as (x & Hx & Hin). apply List.filter_In in Hin as [Hin _].
  rewrite <- Hx. apply in_map. exact Hin.
Qed.

Lemma delete_task_ids (tid iid : nat) (q : list LoaderTaskOfSet) (x : nat) :
  In x (map task_id (flat_map (delete_from_task tid iid) q)) -> In x (map task_id q).
Proof.
  induction q as [|a q IH]; [auto|]. simpl. rewrite map_app, in_app_iff.
  intros [Hin|Hin]; [|auto]. left.
  unfold delete_from_task in Hin. destruct (Nat.eqb (task_id a) tid).
  - destruct (delete_item iid (loaderTasks a)); [destruct Hin|].
    destruct Hin as [<-|[]]. reflexivity.
  - destruct Hin as [<-|[]]. reflexivity.
Qed.

Lemma delete_distinct (tid iid : nat) (q : list LoaderTaskOfSet) :
  distinct q -> distinct (flat_map (delete_from_task tid iid) q).
Proof.
  intros [Hnd Hitems]. split.
  - induction q as [|a q IH]; [constructor|].
    simpl in Hnd. inversion Hnd as [|? ? Hout Hrest]; subst.
    apply Forall_cons in Hitems as [_ Hq]. simpl. rewrite map_app.
    assert (Hrec := IH Hrest Hq).
    assert (Hfresh : ~ In (task_id a)
                       (map task_id (flat_map (delete_from_task tid iid) q))).
    { intros Hin. apply Hout. apply list_elem_of_In. eapply delete_task_ids; eauto. }
    unfold delete_from_task at 1. destruct (Nat.eqb (task_id a) tid).
    + destruct (delete_item iid (loaderTasks a)); [exact Hrec|].
      simpl. constructor; [rewrite list_elem_of_In|]; assumption.
    + simpl. constructor; [rewrite list_elem_of_In|]; assumption.
  - clear Hnd. induction q as [|a q IH]; [constructor|].
    apply Forall_cons in Hitems as [Ha Hq]. simpl. apply Forall_app. split; [|auto].
    unfold delete_from_task. destruct (Nat.eqb (task_id a) tid).
    + pose proof (map_filter_NoDup item_id
                    (fun it => negb (Nat.eqb (item_id it) iid)) (loaderTasks a) Ha) as H.
      fold (delete_item iid (loaderTasks a)) in H.
      destruct (delete_item iid (loaderTasks a)); constructor; [exact H|constructor].
    + constructor; [exact Ha|constructor].
Qed.

Lemma step_settled (W : Z) (s s' : Service) :
  step W s s' -> settled s -> settled s'.
Proof.
  intros Hstep [Hd Hw Hc Hn].
  destruct Hstep as [s t (Hfresh & Hnd & Hsub) | s t it Ht Hit Hst].
  - apply processingQueueHandle_settled. unfold appendProcessingQueue.
    assert (Hproc : List.filter (fun it => is_processing (state it)) (loaderTasks t) = []).
    { clear - Hsub. induction Hsub as [|x l [Hx _] _ IH]; [reflexivity|].
      simpl. rewrite Hx. exact IH. }
    constructor; simpl.
    + destruct Hd as [Hq Hi]. split.
      * rewrite map_app. apply NoDup_app. split; [exact Hq|]. split.
        -- intros x Hx Hin. apply list_elem_of_In in Hx, Hin.
           simpl in Hin. destruct Hin as [<-|[]]. exact (Hfresh Hx).
        -- simpl. apply NoDup_singleton.
      * apply Forall_app. split; [exact Hi|]. constructor; [exact Hnd|constructor].
    + unfold processingItems, allItems. rewrite flat_map_app, List.filter_app. simpl.
      rewrite app_nil_r, Hproc, app_nil_r. exact Hw.
    + unfold processingItems, allItems. rewrite flat_map_app, List.filter_app. simpl.
      rewrite app_nil_r, Hproc, app_nil_r. exact Hc.
    + unfold allItems. rewrite flat_map_app. apply Forall_app. split; [exact Hn|].
      simpl. rewrite app_nil_r. eapply Forall_impl; [exact Hsub|].
      simpl. intros x [Hx _]. rewrite Hx. discriminate.
  - apply processingQueueHandle_settled.
    destruct (delete_processing (queue s) t it Hd Ht Hit Hst) as [H1 H2].
    simpl in H1, H2. constructor; simpl.
    + apply delete_distinct. exact Hd.
    + rewrite H1, Hw. reflexivity.
    + rewrite H2, Hc. reflexivity.
    + apply delete_from_task_items. exact Hn.
Qed.

Lemma reachable_settled (W : Z) (s : Service) : reachable W s -> settled s.
Proof.
  induction 1 as [|s s' _ IH Hstep].
  - constructor; simpl; try reflexivity; [|constructor].
    split; constructor.
  - eapply step_settled; eauto.
Qed.

Lemma reachable_saturated (W : Z) (s : Service) :
  reachable W s ->
  pendingItems (queue s) <> [] ->
  maximumLoad (workload s) (processingItemCount s) = true.
Proof.
  destruct 1 as [|s s' _ Hstep]; [intros H; destruct H; reflexivity|].
  destruct Hstep; apply processingQueueHandle_saturates.
Qed.

(** X2.  In every state the service reaches, [workload] is the sum of the
    estimates of the items that are [PROCESSING] and [processingItemCount]
    is their number. *)
Theorem counters_count_processing_items (W : Z) (s : Service) :
  reachable W s ->
  workload s = sum_workload (processingItems (queue s))
  /\ processingItemCount s = Z.of_nat (length (processingItems (queue s))).
Proof.
  intros Hreach. destruct (reachable_settled W s Hreach) as [_ Hw Hc _]. auto.
Qed.

Lemma counters_count_processing_items_witness :
  workload (add one_big_file init)
  = sum_workload (processingItems (queue (add one_big_file init)))
  /\ processingItemCount (add one_big_file init)
     = Z.of_nat (length (processingItems (queue (add one_big_file init)))).
Proof.
  exact (counters_count_processing_items (100 * MB) (add one_big_file init)
           one_big_file_reachable).
Defined.

(** *** The map empties as promises are fulfilled *)

Lemma scanned_length (q q' : list LoaderTaskOfSet) :
  Forall2 scanned q q' -> length (allItems q') = length (allItems q).
Proof.
  induction 1 as [|t t' q q' [_ Hit] _ IH]; [reflexivity|].
  unfold allItems in *. simpl. rewrite !length_app, IH.
  rewrite (Forall2_length _ _ _ Hit). reflexivity.
Qed.

Lemma delete_item_length (items : list LoaderTaskItem) (it : LoaderTaskItem) :
  NoDup (map item_id items) -> In it items ->
  S (length (delete_item (item_id it) items)) = length items.
Proof.
  intros Hnd Hin. induction items as [|a rest IH]; [destruct Hin|].
  simpl in Hnd. inversion Hnd as [|? ? Hout Hrest]; subst.
  destruct Hin as [->|Hin].
  - simpl. rewrite Nat.eqb_refl. simpl.
    rewrite delete_item_absent by (rewrite <- list_elem_of_In; exact Hout).
    reflexivity.
  - assert (Hne : item_id a <> item_id it).
    { intros Heq. apply Hout. rewrite Heq. apply list_elem_of_In.
      apply in_map. exact Hin. }
    simpl. apply Nat.eqb_neq in Hne. rewrite Hne. simpl.
    rewrite (IH Hrest Hin). reflexivity.
Qed.

Lemma delete_length (q : list LoaderTaskOfSet) (t : LoaderTaskOfSet)
  (it : LoaderTaskItem) :
  distinct q -> In t q -> In it (loaderTasks t) ->
  S (length (allItems (flat_map (delete_from_task (task_id t) (item_id it)) q)))
  = length (allItems q).
Proof.
  intros [Hnd Hitems] Ht Hit. rewrite allItems_delete. unfold allItems.
  induction q as [|a q IH]; [destruct Ht|].
  simpl in Hnd. inversion Hnd as [|? ? Hout Hrest]; subst.
  rewrite list_elem_of_In in Hout.
  apply Forall_cons in Hitems as [Ha Hq].
  simpl. rewrite !length_app.
  destruct Ht as [->|Ht].
  - rewrite Nat.eqb_refl.
    assert (Hsame : flat_map (fun t0 => if Nat.eqb (task_id t0) (task_id t)
                                        then delete_item (item_id it) (loaderTasks t0)
                                        else loaderTasks t0) q
                    = flat_map loaderTasks q).
    { clear - Hout. induction q as [|b q IH]; [reflexivity|].
      simpl in *.
      destruct (Nat.eqb_spec (task_id b) (task_id t)) as [Heq|Hne]; [tauto|].
      rewrite IH by tauto. reflexivity. }
    rewrite Hsame, <- (delete_item_length (loaderTasks t) it Ha Hit). reflexivity.
  - assert (Hne : task_id a <> task_id t).
    { intros Heq. apply Hout. rewrite Heq. apply in_map. exact Ht. }
    apply Nat.eqb_neq in Hne. rewrite Hne.
    rewrite <- (IH Hrest Hq Ht). simpl. lia.
Qed.

(** X3.  The map empties as the promises that were started are fulfilled:
    in every state the service reaches in which the map holds an item, some
    item is [PROCESSING], that is, its promise was started; and when the
    promise of an item that is [PROCESSING] is fulfilled, the service is in
    a state it reaches in which the map holds one item less.  (An item
    whose promise rejects stays [PROCESSING] in the map.) *)
Theorem fulfilled_promises_empty_the_map (W : Z) (s : Service) :
  reachable W s ->
  allItems (queue s) <> [] ->
  (exists t it, In t (queue s) /\ In it (loaderTasks t) /\ state it = PROCESSING)
  /\ forall t it,
       In t (queue s) -> In it (loaderTasks t) -> state it = PROCESSING ->
       let s' := onFulfilled (task_id t) it s in
       reachable W s'
       /\ S (length (allItems (queue s'))) = length (allItems (queue s)).
Proof.
  intros Hreach Hsome. split.
  - destruct (reachable_settled W s Hreach) as [_ Hw Hc Hn].
    destruct (processingItems (queue s)) as [|it rest] eqn:Hproc.
    + exfalso. simpl in Hw, Hc.
      assert (Hpend : pendingItems (queue s) = []).
      { destruct (pendingItems (queue s)) eqn:Hp; [reflexivity|].
        assert (Hmax := reachable_saturated W s Hreach).
        rewrite Hp, Hw, Hc in Hmax. discriminate Hmax. discriminate. }
      unfold pendingItems, processingItems in *.
      destruct (allItems (queue s)) as [|it rest]; [congruence|].
      apply Forall_cons in Hn as [Hit _]. simpl in Hpend, Hproc.
      destruct (state it); simpl in *; congruence.
    + assert (Hin : In it (processingItems (queue s)))
        by (rewrite Hproc; left; reflexivity).
      unfold processingItems in Hin. apply List.filter_In in Hin as [Hin Hst].
      unfold allItems in Hin. apply in_flat_map in Hin as (t & Ht & Hit).
      exists t, it. repeat split; try assumption.
      destruct (state it); simpl in Hst; congruence.
  - intros t it Ht Hit Hst s'. split.
    + eapply reach_step; [exact Hreach|]. apply step_fulfilled; assumption.
    + destruct (reachable_settled W s Hreach) as [Hd _ _ _].
      unfold s', onFulfilled, processingQueueHandle, getSubtasksUntilMaximumLoad.
      cbn [queue workload processingItemCount].
      rewrite (scanned_length _ _ (scanTasks_frame _ _ _)).
      apply delete_length; assumption.
Qed.

Lemma fulfilled_promises_empty_the_map_witness :
  (exists t it, In t (queue (add one_big_file init)) /\ In it (loaderTasks t)
                /\ state it = PROCESSING)
  /\ forall t it,
       In t (queue (add one_big_file init)) -> In it (loaderTasks t) ->
       state it = PROCESSING ->
       let s' := onFulfilled (task_id t) it (add one_big_file init) in
       reachable (100 * MB) s'
       /\ S (length (allItems (queue s')))
          = length (allItems (queue (add one_big_file init))).
Proof.
  apply (fulfilled_promises_empty_the_map (100 * MB) (add one_big_file init)
           one_big_file_reachable).
  discriminate.
Defined.

(** *** A scan that follows a scan *)

Lemma scanItems_idle (items : list LoaderTaskItem) (w c : Z) :
  maximumLoad w c = true
  \/ List.filter (fun it => is_pending (state it)) items = [] ->
  let r := scanItems w c items in
  sc_workload r = w /\ sc_count r = c /\ sc_items r = items.
Proof.
  intros H. induction items as [|it rest IH]; simpl; [auto|].
  destruct (maximumLoad w c) eqn:Hmax; simpl; [auto|].
  destruct H as [H|H]; [discriminate|]. simpl in H.
  destruct (is_pending (state it)); [discriminate|]. simpl.
  destruct (IH (or_intror H)) as (-> & -> & ->). auto.
Qed.

Lemma scanTasks_idle (tasks : list LoaderTaskOfSet) (w c : Z) :
  maximumLoad w c = true \/ pendingItems tasks = [] ->
  let r := scanTasks w c tasks in
  sc_workload r = w /\ sc_count r = c /\ sc_items r = tasks.
Proof.
  intros H. induction tasks as [|t rest IH]; [simpl; auto|].
  cbn [scanTasks].
  assert (Ht : maximumLoad w c = true
               \/ List.filter (fun it => is_pending (state it)) (loaderTasks t) = []).
  { destruct H as [H|H]; [auto|right].
    unfold pendingItems, allItems in H. simpl in H. rewrite List.filter_app in H.
    apply app_eq_nil in H. tauto. }
  assert (Hrest : maximumLoad w c = true \/ pendingItems rest = []).
  { destruct H as [H|H]; [auto|right].
    unfold pendingItems, allItems in *. simpl in H. rewrite List.filter_app in H.
    apply app_eq_nil in H. tauto. }
  destruct (scanItems_idle (loaderTasks t) w c Ht) as (-> & -> & ->).
  destruct (IH Hrest) as (-> & -> & ->).
  destruct t as [tid items]. simpl.
  destruct (sc_break (scanItems w c items)); simpl; auto.
Qed.

(** X4.  [processingQueueHandle] called again, with nothing completed in
    between, admits nothing and leaves the service as it is. *)
Theorem processingQueueHandle_twice (s : Service) :
  processingQueueHandle (processingQueueHandle s) = processingQueueHandle s.
Proof.
  pose proof (processingQueueHandle_saturates s) as Hsat. cbv zeta in Hsat.
  set (s' := processingQueueHandle s) in *.
  assert (H : maximumLoad (workload s') (processingItemCount s') = true
              \/ pendingItems (queue s') = []).
  { destruct (pendingItems (queue s')) eqn:Hp; [right; reflexivity|].
    left. apply Hsat. intros Hnil. discriminate Hnil. }
  destruct (scanTasks_idle _ _ _ H) as (Hw & Hc & Hq).
  unfold processingQueueHandle at 1, getSubtasksUntilMaximumLoad.
  rewrite Hw, Hc, Hq. reflexivity.
Qed.

(** *** When a task leaves the map *)

Lemma scanned_task_ids (q q' : list LoaderTaskOfSet) :
  Forall2 scanned q q' -> map task_id q' = map task_id q.
Proof. induction 1 as [|t t' q q' [Hid _] _ IH]; simpl; congruence. Qed.

Lemma delete_other_tasks (tid iid : nat) (q : list LoaderTaskOfSet) :
  ~ In tid (map task_id q) -> flat_map (delete_from_task tid iid) q = q.
Proof.
  induction q as [|a q IH]; intros Hout; [reflexivity|]. simpl in *.
  unfold delete_from_task at 1.
  destruct (Nat.eqb_spec (task_id a) tid) as [Heq|Hne]; [tauto|].
  simpl. rewrite IH by tauto. reflexivity.
Qed.

Lemma filter_other_ids (tid : nat) (ids : list nat) :
  ~ In tid ids -> List.filter (fun x => negb (Nat.eqb x tid)) ids = ids.
Proof.
  induction ids as [|a ids IH]; intros Hout; [reflexivity|]. simpl in *.
  destruct (Nat.eqb_spec a tid) as [Heq|Hne]; [tauto|].
  simpl. rewrite IH by tauto. reflexivity.
Qed.

(** X5.  When the promise of an item is fulfilled, its task leaves the map
    exactly when the item was the last one of the task; the other tasks
    stay, in their order. *)
Theorem task_leaves_with_its_last_item (s : Service) (t : LoaderTaskOfSet)
  (it : LoaderTaskItem) :
  distinct (queue s) -> In t (queue s) -> In it (loaderTasks t) ->
  let s' := onFulfilled (task_id t) it s in
  (loaderTasks t = [it] ->
   map task_id (queue s')
   = List.filter (fun x => negb (Nat.eqb x (task_id t))) (map task_id (queue s)))
  /\ (loaderTasks t <> [it] -> map task_id (queue s') = map task_id (queue s)).
Proof.
  intros [Hnd Hitems] Ht Hit s'. subst s'. unfold onFulfilled.
  unfold processingQueueHandle, getSubtasksUntilMaximumLoad. cbn [queue].
  rewrite (scanned_task_ids _ _ (scanTasks_frame _ _ _)). cbn [queue].
  induction (queue s) as [|a q IH]; [destruct Ht|].
  simpl in Hnd. inversion Hnd as [|? ? Hout Hrest]; subst.
  rewrite list_elem_of_In in Hout.
  apply Forall_cons in Hitems as [Ha Hq].
  simpl. rewrite map_app.
  destruct Ht as [->|Ht].
  - rewrite delete_other_tasks, Nat.eqb_refl by exact Hout. simpl.
    rewrite filter_other_ids by exact Hout.
    unfold delete_from_task. rewrite Nat.eqb_refl. split.
    + intros ->. simpl. rewrite Nat.eqb_refl. reflexivity.
    + intros Hne.
      destruct (delete_item (item_id it) (loaderTasks t)) eqn:Hdel; [|reflexivity].
      exfalso. apply Hne. clear - Ha Hit Hdel.
      destruct (loaderTasks t) as [|x [|y rest]]; [destruct Hit| |].
      * destruct Hit as [->|[]]. reflexivity.
      * simpl in Ha. inversion Ha as [|? ? Hx _]; subst.
        rewrite list_elem_of_In in Hx. unfold delete_item in Hdel. simpl in Hx, Hdel.
        destruct (Nat.eqb (item_id x) (item_id it)) eqn:Hex; simpl in Hdel;
          [|discriminate].
        destruct (Nat.eqb (item_id y) (item_id it)) eqn:Hey; simpl in Hdel;
          [|discriminate].
        apply Nat.eqb_eq in Hex, Hey. exfalso. apply Hx. left. congruence.
  - assert (Hne : task_id a <> task_id t).
    { intros Heq. apply Hout. rewrite Heq. apply in_map. exact Ht. }
    unfold delete_from_task at 1 3. apply Nat.eqb_neq in Hne. rewrite Hne. simpl.
    destruct (IH Hrest Hq Ht) as [H1 H2]. split; intros H; f_equal; auto.
Qed.

Lemma task_leaves_with_its_last_item_witness :
  map task_id (queue (onFulfilled 0 (mkItem 0 PROCESSING (100 * MB))
                        (add one_big_file init)))
  = [].
Proof.
  apply (proj1 (task_leaves_with_its_last_item (add one_big_file init)
                  (mkTask 0 [mkItem 0 PROCESSING (100 * MB)])
                  (mkItem 0 PROCESSING (100 * MB))
                  (st_distinct _ (reachable_settled _ _ one_big_file_reachable))
                  (or_introl eq_refl) (or_introl eq_refl))).
  reflexivity.
Defined.

(** *** How many items run at once *)

Lemma reachable_bounded (W : Z) (s : Service) :
  0 <= W -> reachable W s ->
  bounded W (workload s) (processingItemCount s) (allItems (queue s)).
Proof.
  intros HW Hreach. induction Hreach as [|s s' _ IH Hstep].
  - repeat split; simpl; [unfold MAXIMUM_PROCESSING_ITEM_COUNT; lia | | constructor].
    unfold MAXIMUM_WORKLOAD, MB. lia.
  - eapply step_bounded; eauto.
Qed.

Lemma sum_workload_at_least (e : Z) (items : list LoaderTaskItem) :
  Forall (fun it => e <= evaluateTaskWorkload it) items ->
  Z.of_nat (length items) * e <= sum_workload items.
Proof.
  induction 1 as [|it items Hit _ IH]; simpl; lia.
Qed.

(** X6.  The estimates bound the number of items that run at once: when
    no estimate is above [W] and every item in the map has an estimate of at
    least [e], [processingItemCount] times [e] stays below
    [MAXIMUM_WORKLOAD + W]. *)
Theorem estimates_bound_the_items_at_once (W e : Z) (s : Service) :
  0 <= W -> reachable W s ->
  Forall (fun it => e <= evaluateTaskWorkload it) (allItems (queue s)) ->
  processingItemCount s * e < MAXIMUM_WORKLOAD + W.
Proof.
  intros HW Hreach Hall.
  destruct (reachable_bounded W s HW Hreach) as (_ & Hw & _).
  destruct (reachable_settled W s Hreach) as [_ Hsum Hcount _].
  assert (Hproc : Forall (fun it => e <= evaluateTaskWorkload it)
                         (processingItems (queue s))).
  { unfold processingItems. rewrite List.Forall_forall in *. intros it Hit.
    apply Hall. apply List.filter_In in Hit. tauto. }
  pose proof (sum_workload_at_least e _ Hproc). rewrite Hcount. lia.
Qed.

Lemma estimates_bound_the_items_at_once_witness :
  processingItemCount (add one_big_file init) * (100 * MB)
  < MAXIMUM_WORKLOAD + 100 * MB.
Proof.
  apply (estimates_bound_the_items_at_once (100 * MB) (100 * MB)
           (add one_big_file init)).
  - unfold MB. lia.
  - exact one_big_file_reachable.
  - constructor; [|constructor]. simpl. lia.
Defined.

End SchedulerInvariants.

Module FileMetadataFacts.
Import MetadataStore.

Lemma find_none_iff {A} (p : A -> bool) (l : list A) :
  List.find p l = None <-> existsb p l = false.
Proof.
  induction l as [|a l IH]; simpl; [tauto|].
  destruct (p a); simpl; [split; discriminate | exact IH].
Qed.

Lemma find_app_none {A} (p : A -> bool) (l k : list A) :
  List.find p l = None -> List.find p (l ++ k) = List.find p k.
Proof.
  induction l as [|a l IH]; simpl; [reflexivity|].
  destruct (p a); [discriminate | exact IH].
Qed.

Lemma find_app_some {A} (p : A -> bool) (l k : list A) (x : A) :
  List.find p l = Some x -> List.find p (l ++ k) = Some x.
Proof.
  induction l as [|a l IH]; simpl; [discriminate|].
  destruct (p a); [auto | exact IH].
Qed.

Lemma find_app_other {A} (p : A -> bool) (l : list A) (x : A) :
  p x = false -> List.find p (l ++ [x]) = List.find p l.
Proof.
  intros Hx. induction l as [|a l IH]; simpl; [rewrite Hx; reflexivity|].
  destruct (p a); [reflexivity | exact IH].
Qed.

(** X7.  When an [INSERT] goes through, the table holds the rows it held
    and the new row; a path that found no row finds the new row, and what is
    found by another path is what was found before. *)
Theorem insert_then_get (db db' : Table) (m : FileMetadata) :
  insertFileMetadata db m = Some db' ->
  (forall x, In x db' <-> In x db \/ x = m)
  /\ (getFileMetadata db (filePath m) = None ->
      getFileMetadata db' (filePath m) = Some m)
  /\ (forall p, p <> filePath m -> getFileMetadata db' p = getFileMetadata db p).
Proof.
  unfold insertFileMetadata, getFileMetadata.
  destruct (existsb _ db || existsb _ db); [discriminate|].
  intros H. injection H as <-. split; [|split].
  - intros x. rewrite in_app_iff. simpl. intuition congruence.
  - intros Hnone. rewrite find_app_none by exact Hnone. simpl. unfold has_path.
    rewrite String.eqb_refl. reflexivity.
  - intros p Hp. apply find_app_other. unfold has_path.
    apply String.eqb_neq. congruence.
Qed.

Lemma insert_then_get_witness :
  (forall x, In x [under_b_c; under_bxc] <-> In x [under_b_c] \/ x = under_bxc)
  /\ (getFileMetadata [under_b_c] "/a/bxc/g.txt" = None ->
      getFileMetadata [under_b_c; under_bxc] "/a/bxc/g.txt" = Some under_bxc)
  /\ (forall p, p <> "/a/bxc/g.txt" ->
        getFileMetadata [under_b_c; under_bxc] p = getFileMetadata [under_b_c] p).
Proof.
  exact (insert_then_get [under_b_c] [under_b_c; under_bxc] under_bxc eq_refl).
Defined.

(** *** [DELETE] by path *)

Lemma find_filter_other {A} (p q : A -> bool) (l : list A) :
  (forall x, p x = true -> q x = true) ->
  List.find p (List.filter q l) = List.find p l.
Proof.
  intros Hpq. induction l as [|a l IH]; simpl; [reflexivity|].
  destruct (p a) eqn:Hp.
  - rewrite (Hpq a Hp). simpl. rewrite Hp. reflexivity.
  - destruct (q a); simpl; rewrite ?Hp; exact IH.
Qed.

Lemma find_filter_negb {A} (p : A -> bool) (l : list A) :
  List.find p (List.filter (fun x => negb (p x)) l) = None.
Proof.
  induction l as [|a l IH]; simpl; [reflexivity|].
  destruct (p a) eqn:Hp; simpl; rewrite ?Hp; exact IH.
Qed.

Lemma filter_all {A} (q : A -> bool) (l : list A) :
  (forall x, In x l -> q x = true) -> List.filter q l = l.
Proof.
  induction l as [|a l IH]; intros H; simpl; [reflexivity|].
  rewrite (H a (or_introl eq_refl)). f_equal. apply IH. intros x Hx. apply H. right. exact Hx.
Qed.

(** X8.  After a [DELETE] by path no row is found by that path, what is
    found by another path is what was found before, and a [DELETE] of a
    path that has no row leaves the table as it is. *)
Theorem delete_then_get (db : Table) (p : string) :
  getFileMetadata (deleteFileMetadata db p) p = None
  /\ (forall q, q <> p ->
        getFileMetadata (deleteFileMetadata db p) q = getFileMetadata db q)
  /\ (getFileMetadata db p = None -> deleteFileMetadata db p = db).
Proof.
  unfold getFileMetadata, deleteFileMetadata. split; [apply find_filter_negb|]. split.
  - intros q Hq. apply find_filter_other. intros x Hx. unfold has_path in *.
    apply String.eqb_eq in Hx. apply negb_true_iff, String.eqb_neq. congruence.
  - intros Hnone. apply filter_all. intros x Hx. apply negb_true_iff.
    apply find_none_iff in Hnone.
    destruct (has_path p x) eqn:Hk; [|reflexivity].
    assert (existsb (has_path p) db = true); [|congruence].
    apply existsb_exists. eauto.
Qed.

(** *** The rows of a directory *)

Lemma filter_filter_negb {A} (p : A -> bool) (l : list A) :
  List.filter p (List.filter (fun x => negb (p x)) l) = [].
Proof.
  induction l as [|a l IH]; simpl; [reflexivity|].
  destruct (p a) eqn:Hp; simpl; rewrite ?Hp; exact IH.
Qed.

(** X9.  [deleteDirectoryMetadata] deletes the rows that
    [getDirectoryMetadata] returns for the same path, and no other: a row
    of the table is either returned by the query or kept by the deletion,
    never both, and after the deletion the query returns nothing. *)
Theorem deleteDirectoryMetadata_deletes_what_the_query_returns (db : Table)
  (directoryPath : string) :
  getDirectoryMetadata (deleteDirectoryMetadata db directoryPath) directoryPath = []
  /\ (forall m, In m db <->
        In m (getDirectoryMetadata db directoryPath)
        \/ In m (deleteDirectoryMetadata db directoryPath))
  /\ (forall m, In m (getDirectoryMetadata db directoryPath) ->
        ~ In m (deleteDirectoryMetadata db directoryPath))
  /\ db ≡ₚ getDirectoryMetadata db directoryPath
           ++ deleteDirectoryMetadata db directoryPath.
Proof.
  unfold getDirectoryMetadata, deleteDirectoryMetadata.
  split; [|split; [|split]].
  - apply (filter_filter_negb
             (fun m => Sqlite.like (pathPrefix directoryPath +:+ "%") (filePath m))).
  - intros m. rewrite !List.filter_In.
    destruct (Sqlite.like _ (filePath m)); simpl; intuition congruence.
  - intros m. rewrite !List.filter_In. intros [_ H1] [_ H2].
    rewrite H1 in H2. discriminate.
  - induction db as [|a db IH]; simpl; [reflexivity|].
    destruct (Sqlite.like _ (filePath a)); simpl.
    + constructor. exact IH.
    + rewrite <- Permutation_middle. constructor. exact IH.
Qed.

Lemma endsWith_append (s suffix : string) : endsWith (s +:+ suffix) suffix = true.
Proof.
  unfold endsWith.
  assert (Hlen : String.length (s +:+ suffix)
                 = (String.length s + String.length suffix)%nat).
  { induction s as [|c s IH]; simpl; [reflexivity | rewrite IH; reflexivity]. }
  rewrite Hlen.
  replace (String.length suffix <=? String.length s + String.length suffix)%nat
    with true by (symmetry; apply Nat.leb_le; lia).
  replace (String.length s + String.length suffix - String.length suffix)%nat
    with (String.length s) by lia.
  apply String.eqb_eq. clear Hlen.
  induction s as [|c s IH]; simpl.
  - clear. induction suffix as [|c t IH]; simpl; [reflexivity|].
    f_equal. destruct t; [reflexivity|exact IH].
  - exact IH.
Qed.

(** X10.  A trailing slash in the directory path makes no difference to
    the query and to the deletion. *)
Theorem trailing_slash_is_ignored (db : Table) (directoryPath : string) :
  endsWith directoryPath "/" = false ->
  getDirectoryMetadata db (directoryPath +:+ "/") = getDirectoryMetadata db directoryPath
  /\ deleteDirectoryMetadata db (directoryPath +:+ "/")
     = deleteDirectoryMetadata db directoryPath.
Proof.
  intros Hno. unfold getDirectoryMetadata, deleteDirectoryMetadata, pathPrefix.
  rewrite endsWith_append, Hno. split; reflexivity.
Qed.

Lemma trailing_slash_is_ignored_witness :
  getDirectoryMetadata [under_b_c; under_bxc] "/a/bxc/"
  = getDirectoryMetadata [under_b_c; under_bxc] "/a/bxc"
  /\ deleteDirectoryMetadata [under_b_c; under_bxc] "/a/bxc/"
     = deleteDirectoryMetadata [under_b_c; under_bxc] "/a/bxc".
Proof.
  exact (trailing_slash_is_ignored [under_b_c; under_bxc] "/a/bxc" eq_refl).
Defined.

(** *** [UPDATE] *)

Lemma apply_partial_nothing (m : FileMetadata) :
  apply_partial (mkPartial None None None None None) m = m.
Proof. destruct m. reflexivity. Qed.

Lemma partial_is_empty_spec (u : PartialFileMetadata) :
  partial_is_empty u = true -> u = mkPartial None None None None None.
Proof.
  destruct u as [[?|] [?|] [?|] [?|] [?|]]; simpl; intros H;
    try discriminate H; reflexivity.
Qed.

Lemma find_map_update (p : string) (u : PartialFileMetadata) (db : Table) :
  p_filePath u = None ->
  let f := fun m => if has_path p m then apply_partial u m else m in
  forall q, List.find (has_path q) (map f db) = f <$> List.find (has_path q) db.
Proof.
  intros Hu f q. induction db as [|a db IH]; simpl; [reflexivity|].
  assert (Hf : has_path q (f a) = has_path q a).
  { unfold f, has_path. destruct (String.eqb (filePath a) p); [|reflexivity].
    unfold apply_partial. simpl. rewrite Hu. reflexivity. }
  rewrite Hf. destruct (has_path q a); [reflexivity | exact IH].
Qed.

(** X11.  An [UPDATE] that does not set [filePath] changes the row of the
    path by the fields given and no other row; on a path that has no row
    it changes nothing. *)
Theorem update_then_get (db db' : Table) (p : string) (u : PartialFileMetadata) :
  p_filePath u = None ->
  updateFileMetadata db p u = Some db' ->
  (forall m, getFileMetadata db p = Some m ->
     getFileMetadata db' p = Some (apply_partial u m))
  /\ (forall q, q <> p -> getFileMetadata db' q = getFileMetadata db q)
  /\ (getFileMetadata db p = None -> db' = db).
Proof.
  intros Hu. unfold updateFileMetadata, getFileMetadata.
  destruct (partial_is_empty u) eqn:He.
  - intros H. injection H as <-. apply partial_is_empty_spec in He. subst u.
    split; [|split]; auto. intros m ->. rewrite apply_partial_nothing. reflexivity.
  - destruct (no_duplicate_keys _); [|discriminate]. intros H. injection H as <-.
    split; [|split].
    + intros m Hm. rewrite (find_map_update p u db Hu), Hm. simpl.
      apply List.find_some in Hm as [_ Hk]. rewrite Hk. reflexivity.
    + intros q Hq. rewrite (find_map_update p u db Hu).
      destruct (List.find (has_path q) db) as [x|] eqn:Hx; [|reflexivity]. simpl.
      apply List.find_some in Hx as [_ Hk]. unfold has_path in *.
      apply String.eqb_eq in Hk.
      replace (String.eqb (filePath x) p) with false; [reflexivity|].
      symmetry. apply String.eqb_neq. congruence.
    + intros Hnone. rewrite <- (map_id db) at 2. apply map_ext_in. intros x Hx.
      destruct (has_path p x) eqn:Hk; [|reflexivity].
      apply find_none_iff in Hnone.
      assert (existsb (has_path p) db = true); [|congruence].
      apply existsb_exists. eauto.
Qed.

Lemma update_then_get_witness :
  getFileMetadata
    [under_b_c; mkFileMetadata "/a/bxc/g.txt" 2 10 "h3" "u2"] "/a/bxc/g.txt"
  = Some (apply_partial (mkPartial None (Some 2) None (Some "h3") None) under_bxc).
Proof.
  exact (proj1 (update_then_get [under_b_c; under_bxc]
                  [under_b_c; mkFileMetadata "/a/bxc/g.txt" 2 10 "h3" "u2"]
                  "/a/bxc/g.txt" (mkPartial None (Some 2) None (Some "h3") None)
                  eq_refl eq_refl)
           under_bxc eq_refl).
Defined.

End FileMetadataFacts.

Module DocumentMetadataFacts.
Import KnowledgeMetadataStore FileMetadataFacts.

Lemma has_key_spec (kb p : string) (m : DocumentMetadata) :
  has_key kb p m = true <-> knowledge_base_id m = kb /\ file_path m = p.
Proof. unfold has_key. rewrite andb_true_iff, !String.eqb_eq. tauto. Qed.

Lemma has_key_self (m : DocumentMetadata) :
  has_key (knowledge_base_id m) (file_path m) m = true.
Proof. apply has_key_spec. auto. Qed.

(** The row an upsert leaves in the place of a row [x]. *)
Lemma upsert_row (metadata x : DocumentMetadata) :
  has_key (knowledge_base_id metadata) (file_path metadata) x = true ->
  mkDocumentMetadata (knowledge_base_id x) (file_path x)
    (content_hash metadata) (unique_id_embedjs metadata)
    (loader_type metadata) (last_modified_timestamp metadata)
  = metadata.
Proof.
  intros [-> ->]%has_key_spec. destruct metadata. reflexivity.
Qed.

Lemma addOrUpdateMetadata_present (db : Table) (metadata : DocumentMetadata) :
  existsb (has_key (knowledge_base_id metadata) (file_path metadata)) db = true ->
  addOrUpdateMetadata db metadata
  = map (fun m => if has_key (knowledge_base_id metadata) (file_path metadata) m
                  then metadata else m) db.
Proof.
  intros Hex. unfold addOrUpdateMetadata. rewrite Hex.
  apply map_ext. intros x.
  destruct (has_key _ _ x) eqn:Hk; [apply upsert_row; exact Hk | reflexivity].
Qed.

Lemma find_map_replace (metadata : DocumentMetadata) (kb p : string) (db : Table) :
  let key := has_key (knowledge_base_id metadata) (file_path metadata) in
  let f := fun m => if key m then metadata else m in
  List.find (has_key kb p) (map f db) = f <$> List.find (has_key kb p) db.
Proof.
  intros key f. induction db as [|a db IH]; simpl; [reflexivity|].
  assert (Hf : has_key kb p (f a) = has_key kb p a).
  { unfold f. destruct (key a) eqn:Hk; [|reflexivity].
    apply has_key_spec in Hk as [Hkb Hp]. unfold has_key. rewrite Hkb, Hp. reflexivity. }
  rewrite Hf. destruct (has_key kb p a); [reflexivity | exact IH].
Qed.

Lemma addOrUpdateMetadata_lookup (db : Table) (metadata : DocumentMetadata) :
  getMetadataByPath (addOrUpdateMetadata db metadata)
    (knowledge_base_id metadata) (file_path metadata) = Some metadata
  /\ forall kb p,
       (kb, p) <> (knowledge_base_id metadata, file_path metadata) ->
       getMetadataByPath (addOrUpdateMetadata db metadata) kb p
       = getMetadataByPath db kb p.
Proof.
  unfold getMetadataByPath.
  destruct (existsb (has_key (knowledge_base_id metadata) (file_path metadata)) db)
    eqn:Hex.
  - rewrite addOrUpdateMetadata_present by exact Hex. split.
    + rewrite find_map_replace.
      destruct (List.find _ db) as [x|] eqn:Hx.
      * simpl. apply List.find_some in Hx as [_ Hk]. rewrite Hk. reflexivity.
      * apply find_none_iff in Hx. congruence.
    + intros kb p Hne. rewrite find_map_replace.
      destruct (List.find (has_key kb p) db) as [x|] eqn:Hx; [|reflexivity]. simpl.
      apply List.find_some in Hx as [_ Hk]. apply has_key_spec in Hk as [Hkb Hp].
      destruct (has_key _ _ x) eqn:Hk'; [|reflexivity].
      apply has_key_spec in Hk' as [Hkb' Hp']. exfalso. apply Hne. congruence.
  - unfold addOrUpdateMetadata. rewrite Hex. split.
    + rewrite find_app_none by (apply find_none_iff; exact Hex).
      simpl. rewrite has_key_self. reflexivity.
    + intros kb p Hne. apply find_app_other.
      destruct (has_key kb p metadata) eqn:Hk; [|reflexivity].
      apply has_key_spec in Hk as [Hkb Hp]. exfalso. apply Hne. congruence.
Qed.

(** X13.  After [addOrUpdateMetadata] the row given is the one found by its
    knowledge base and path, whether a row was there before or not, and
    what is found by another key is what was found before. *)
Theorem upsert_then_get (db : Table) (metadata : DocumentMetadata) :
  getMetadataByPath (addOrUpdateMetadata db metadata)
    (knowledge_base_id metadata) (file_path metadata) = Some metadata
  /\ forall kb p,
       (kb, p) <> (knowledge_base_id metadata, file_path metadata) ->
       getMetadataByPath (addOrUpdateMetadata db metadata) kb p
       = getMetadataByPath db kb p.
Proof. exact (addOrUpdateMetadata_lookup db metadata). Qed.


Lemma has_unique_id_spec (kb u : string) (m : DocumentMetadata) :
  has_unique_id kb u m = true <-> knowledge_base_id m = kb /\ unique_id_embedjs m = u.
Proof. unfold has_unique_id. rewrite andb_true_iff, !String.eqb_eq. tauto. Qed.

Lemma find_filter_kept {A} (p q : A -> bool) (l : list A) (x : A) :
  List.find p l = Some x -> q x = true -> List.find p (List.filter q l) = Some x.
Proof.
  intros Hx Hq. induction l as [|a l IH]; [discriminate|]. simpl in *.
  destruct (p a) eqn:Hp.
  - injection Hx as ->. rewrite Hq. simpl. rewrite Hp. reflexivity.
  - destruct (q a); simpl; rewrite ?Hp; auto.
Qed.

(** X15.  The two deletions of the store.  After [deleteMetadata] nothing
    is found by that knowledge base and path; after
    [deleteMetadataByEmbedjsUniqueId] nothing is found by that knowledge
    base and loader id; and either leaves every row of another knowledge
    base, and every row that does not have the path or the id, where it
    was. *)
Theorem deletions_are_by_knowledge_base (db : Table) (kb : string) :
  (forall p,
      getMetadataByPath (deleteMetadata db kb p) kb p = None
      /\ forall kb' q x, getMetadataByPath db kb' q = Some x ->
           kb' <> kb \/ q <> p ->
           getMetadataByPath (deleteMetadata db kb p) kb' q = Some x)
  /\ (forall u,
        getMetadataByEmbedjsUniqueId (deleteMetadataByEmbedjsUniqueId db kb u) kb u = None
        /\ forall kb' q x, getMetadataByPath db kb' q = Some x ->
             kb' <> kb \/ unique_id_embedjs x <> u ->
             getMetadataByPath (deleteMetadataByEmbedjsUniqueId db kb u) kb' q = Some x).
Proof.
  unfold getMetadataByPath, getMetadataByEmbedjsUniqueId, deleteMetadata,
    deleteMetadataByEmbedjsUniqueId.
  split; intros k; (split; [apply find_filter_negb|]); intros kb' q x Hx Hne;
    apply (find_filter_kept _ _ _ _ Hx); apply negb_true_iff;
    apply List.find_some in Hx as [_ Hk]; apply has_key_spec in Hk as [Hkb Hp].
  - destruct (has_key kb k x) eqn:Hk; [|reflexivity].
    apply has_key_spec in Hk as [? ?]. exfalso. destruct Hne; congruence.
  - destruct (has_unique_id kb k x) eqn:Hk; [|reflexivity].
    apply has_unique_id_spec in Hk as [? ?]. exfalso. destruct Hne; congruence.
Qed.

Lemma deletions_are_by_knowledge_base_witness :
  getMetadataByPath
    (deleteMetadataByEmbedjsUniqueId
       [Hashed.doc_a; mkDocumentMetadata "other" "/d/a.txt" "h" "loader:old" "FileLoader" 7]
       "kb" "loader:old")
    "other" "/d/a.txt"
  = Some (mkDocumentMetadata "other" "/d/a.txt" "h" "loader:old" "FileLoader" 7).
Proof.
  apply (proj2 (proj2 (deletions_are_by_knowledge_base
                         [Hashed.doc_a;
                          mkDocumentMetadata "other" "/d/a.txt" "h" "loader:old"
                                             "FileLoader" 7]
                         "kb") "loader:old") "other" "/d/a.txt").
  - reflexivity.
  - left. discriminate.
Defined.

(** X16.  [getMetadataByDirectoryPath] returns rows of the table, all of
    the knowledge base asked for, and a separator at the end of the
    directory path makes no difference. *)
Theorem directory_query_is_by_knowledge_base (sep : string) (db : Table)
  (kb directory_path : string) :
  (forall m, In m (getMetadataByDirectoryPath sep db kb directory_path) ->
     In m db /\ knowledge_base_id m = kb)
  /\ (endsWith directory_path sep = false ->
      getMetadataByDirectoryPath sep db kb (directory_path +:+ sep)
      = getMetadataByDirectoryPath sep db kb directory_path).
Proof.
  unfold getMetadataByDirectoryPath. split.
  - intros m Hm. apply List.filter_In in Hm as [Hin Hk].
    apply andb_true_iff in Hk as [Hkb _]. apply String.eqb_eq in Hkb. auto.
  - intros Hno. unfold normalizedPath. rewrite endsWith_append, Hno. reflexivity.
Qed.

Lemma directory_query_is_by_knowledge_base_witness :
  getMetadataByDirectoryPath "/" [Hashed.doc_a] "kb" ("/d" +:+ "/")
  = getMetadataByDirectoryPath "/" [Hashed.doc_a] "kb" "/d".
Proof.
  exact (proj2 (directory_query_is_by_knowledge_base "/" [Hashed.doc_a] "kb" "/d")
           eq_refl).
Defined.

End DocumentMetadataFacts.

Module PrefixQueryFacts.
Import Sqlite MetadataStore DirectoryQueryFacts.

Lemma like_prefix_nocase (p s : string) :
  no_wildcard p = true -> like (p +:+ "%") s = prefix_nocase p s.
Proof.
  revert s. induction p as [|c p IH]; intros s Hp.
  - change (EmptyString +:+ "%") with "%"%string. rewrite like_percent_anything.
    destruct s; reflexivity.
  - simpl in Hp. apply andb_true_iff in Hp as [Hc Hp].
    unfold is_wildcard in Hc. apply negb_true_iff, orb_false_iff in Hc as [H1 H2].
    change (String c p +:+ "%") with (String c (p +:+ "%")).
    cbn [like]. rewrite H1, H2.
    destruct s as [|d s]; [reflexivity|]. simpl. rewrite IH by exact Hp. reflexivity.
Qed.

(** X17.  For a directory path that holds neither [%] nor [_], the query
    returns exactly the rows whose path begins with the path and a slash,
    ASCII letters compared without regard to case; the deletion deletes
    exactly those. *)
Theorem directory_query_without_wildcards (db : Table) (directoryPath : string) :
  no_wildcard (pathPrefix directoryPath) = true ->
  getDirectoryMetadata db directoryPath
  = List.filter (fun m => prefix_nocase (pathPrefix directoryPath) (filePath m)) db
  /\ deleteDirectoryMetadata db directoryPath
     = List.filter
         (fun m => negb (prefix_nocase (pathPrefix directoryPath) (filePath m))) db.
Proof.
  intros Hp. unfold getDirectoryMetadata, deleteDirectoryMetadata.
  split; apply List.filter_ext; intros m; rewrite like_prefix_nocase by exact Hp;
    reflexivity.
Qed.

Lemma directory_query_without_wildcards_witness :
  getDirectoryMetadata [under_b_c; under_bxc] "/a/bxc"
  = List.filter (fun m => prefix_nocase (pathPrefix "/a/bxc") (filePath m))
                [under_b_c; under_bxc].
Proof.
  exact (proj1 (directory_query_without_wildcards [under_b_c; under_bxc] "/a/bxc"
                  eq_refl)).
Defined.

End PrefixQueryFacts.

Module IncrementalTaskFacts.
Import Promise Runtime Incremental PromiseFacts.

(** X18.  The task of a file item makes one call, [addFileLoader], and
    neither reads nor writes the table.  When the loader fails the task
    resolves to the error value, and [loaderDoneReturn] is left [null]. *)
Theorem file_item_only_calls_addFileLoader (env : Env) (file : FileType)
  (forceReload : bool) (d : Table) :
  let r := runTask (fileTask env file forceReload) d in
  trace r.2 = [AddFileLoader file forceReload]
  /\ db r.2 = d
  /\ match env_addFileLoader env [] file forceReload with
     | Some result => r.1 = [Fulfilled result] /\ loaderDoneReturn r.2 = Some result
     | None => r.1 = [Fulfilled ERROR_LOADER_RETURN] /\ loaderDoneReturn r.2 = None
     end.
Proof.
  unfold runTask, fileTask, start. simpl. IncrementalFacts.run.
  destruct (env_addFileLoader env [] file forceReload); simpl; auto.
Qed.

Lemma deleteLoader_run {Row Query : Type} (env : Runtime.Env Query) (u : string)
  (w : Runtime.World Row Query) :
  deleteLoader env u w
  = (if env_deleteLoader env (trace w) u then Fulfilled tt else Rejected,
     log (DeleteLoader u) w).
Proof.
  unfold deleteLoader, external. destruct (env_deleteLoader env (trace w) u); reflexivity.
Qed.

(** X19.  [remove] deletes the loaders in the order of [uniqueIds], stops at
    the first whose deletion fails, and leaves the table as it is. *)
Theorem remove_keeps_the_rows (env : Env) (uniqueIds : list string) (w : World) :
  let r := remove env uniqueIds w in
  db r.2 = db w
  /\ exists done rest,
       uniqueIds = done ++ rest
       /\ trace r.2 = trace w ++ map DeleteLoader done
       /\ (r.1 = Fulfilled tt -> rest = [])
       /\ (r.1 = Rejected ->
           exists u, last done = Some u
                     /\ env_deleteLoader env (trace w ++ map DeleteLoader (removelast done)) u
                        = false).
Proof.
  unfold remove. revert w.
  induction uniqueIds as [|id ids IH]; intros w.
  - simpl. split; [reflexivity|]. exists [], []. simpl. rewrite app_nil_r.
    repeat split; auto. discriminate.
  - cbn [forOf]. unfold await. rewrite deleteLoader_run.
    destruct (env_deleteLoader env (trace w) id) eqn:Hdel.
    + specialize (IH (log (DeleteLoader id) w)).
      cbv zeta in IH. destruct IH as (Hdb & done & rest & -> & Htr & Hok & Hrej).
      split; [exact Hdb|]. exists (id :: done), rest.
      split; [reflexivity|]. split; [|split; [exact Hok|]].
      * rewrite Htr. simpl. rewrite <- app_assoc. reflexivity.
      * intros Hr. destruct (Hrej Hr) as (u & Hlast & Hu).
        exists u. destruct done as [|x done']; [discriminate|].
        split; [exact Hlast|].
        simpl in Hu. rewrite <- app_assoc in Hu. exact Hu.
    + simpl. split; [reflexivity|]. exists [id], ids. simpl.
      split; [reflexivity|]. split; [reflexivity|]. split; [discriminate|].
      intros _. exists id. rewrite app_nil_r. auto.
Qed.

Section FullRefresh.
Variable env : Env.

Lemma refreshFileTask_never_rejects (totalFiles : Z) (file : FileType) (w : World) :
  exists ret w', refreshFileTask env totalFiles file w = (Fulfilled ret, w').
Proof.
  unfold refreshFileTask. apply catch_fulfilled. intros w1.
  IncrementalFacts.run. eauto.
Qed.

Lemma refresh_items_never_reject (totalFiles : Z) (files : list FileType) (w : World) :
  let outcomes :=
    (runItems (map (fun file => mkLoaderTaskItem (refreshFileTask env totalFiles file)
                                                 (Runtime.size file)) files) w).1 in
  length outcomes = length files /\ Forall (fun o => o <> Rejected) outcomes.
Proof.
  revert w. induction files as [|f files IH]; intros w; simpl; [split; [reflexivity|constructor]|].
  destruct (refreshFileTask_never_rejects totalFiles f w) as (ret & w' & ->).
  specialize (IH w'). destruct (runItems _ w') as [rs w2]. simpl in *.
  destruct IH as [Hlen Hall]. split; [congruence|].
  constructor; [discriminate | exact Hall].
Qed.

End FullRefresh.

(** X20.  In a directory sync that is not incremental, the task that clears
    the rows comes first and rejects exactly when its [DELETE] fails; the
    tasks of the files, one for each file of the listing, never reject. *)
Theorem only_the_clearing_task_can_reject (env : Env) (uuid directoryPath : string)
  (files : list FileType) (forceReload incrementalUpdate : bool) (d : Table) :
  incrementalUpdate && negb forceReload = false ->
  exists first rest,
    (runTask (directoryTask env uuid directoryPath files forceReload incrementalUpdate)
             d).1 = first :: rest
    /\ (first = Rejected <->
        env_database env [] (DeleteDirectory directoryPath) = false)
    /\ length rest = length files
    /\ Forall (fun o => o <> Rejected) rest.
Proof.
  intros Hfull. unfold runTask, directoryTask, start. rewrite Hfull.
  assert (Hpre : negb incrementalUpdate || forceReload = true)
    by (destruct incrementalUpdate, forceReload; try reflexivity; discriminate).
  rewrite Hpre. simpl. unfold clearMetadataTask. IncrementalFacts.run.
  destruct (env_database env [] (DeleteDirectory directoryPath)) eqn:Hdb; simpl.
  all: match goal with |- context [runItems _ ?w] =>
         destruct (refresh_items_never_reject env (Z.of_nat (length files)) files w)
           as [Hlen Hrest]
       end.
  all: destruct (runItems _ _) as [rs w2]; simpl in *.
  all: eexists _, rs; split; [reflexivity|]; repeat split; try assumption.
  all: try discriminate; reflexivity.
Qed.

Lemma only_the_clearing_task_can_reject_witness :
  exists first rest,
    (runTask (directoryTask database_down "u" "/d" [a_txt] true true) []).1
    = first :: rest
    /\ (first = Rejected <->
        env_database database_down [] (DeleteDirectory "/d") = false)
    /\ length rest = length [a_txt]
    /\ Forall (fun o => o <> Rejected) rest.
Proof.
  exact (only_the_clearing_task_can_reject database_down "u" "/d" [a_txt] true true []
           eq_refl).
Defined.

End IncrementalTaskFacts.

Module SyncFacts.
Import Promise Runtime Incremental PromiseFacts IncrementalFacts.

Section Counts.
Variable env : Env.

Lemma incrementalFile_counts (M : gmap string FileMetadata) (totalFiles : Z)
  (l : Locals) (g : FileType) (w : World) :
  match incrementalFile env M totalFiles l g w with
  | (Fulfilled l', w') =>
      length (currentUniqueIds l') = S (length (currentUniqueIds l))
      /\ currentEntriesAdded l <= currentEntriesAdded l' <= currentEntriesAdded l + 1
      /\ processedFiles w' = processedFiles w + 1
  | (Rejected, _) => True
  end.
Proof.
  unfold incrementalFile. run. repeat split_call; try exact I.
  all: simpl; rewrite ?length_app; simpl; repeat split; lia.
Qed.

Lemma deleteMissing_keeps_processedFiles (seen : gset string)
  (oldMeta : FileMetadata) (w : World) :
  processedFiles (deleteMissing env seen tt oldMeta w).2 = processedFiles w.
Proof.
  unfold deleteMissing. destruct (decide _); [reflexivity|].
  run. repeat split_call; reflexivity.
Qed.

End Counts.

(** X21.  When the incremental sync of a directory completes, [uniqueIds]
    holds one entry for each file of the listing, [entriesAdded] is at most
    their number, every file has been counted in the progress, and the
    aggregate result of the directory carries the two. *)
Theorem completed_sync_counts_every_file (env : Env) (uuid directoryPath : string)
  (files : list FileType) (d : Table) (ret : LoaderReturn) (w' : World) :
  runTask (directoryTask env uuid directoryPath files false true) d
  = ([Fulfilled ret], w') ->
  length (uniqueIds ret) = length files
  /\ 0 <= entriesAdded ret <= Z.of_nat (length files)
  /\ processedFiles w' = Z.of_nat (length files)
  /\ loaderDoneReturn w'
     = Some (mkLoaderReturn (entriesAdded ret) ("DirectoryLoader_" +:+ uuid)
                            (uniqueIds ret) "DirectoryLoader").
Proof.
  unfold runTask, directoryTask. simpl.
  set (w0 := start _ d). set (id := "DirectoryLoader_" +:+ uuid).
  rewrite incrementalTask_run.
  destruct (env_database env (trace w0) (SelectDirectory directoryPath));
    [|discriminate].
  set (rows := MetadataStore.getDirectoryMetadata (db w0) directoryPath).
  set (w1 := log _ w0).
  pose proof (forOf_invariant
                (incrementalFile env (existingMetadataMapOf rows)
                   (Z.of_nat (length files)))
                files
                (fun done l w =>
                   length (currentUniqueIds l) = length done
                   /\ 0 <= currentEntriesAdded l <= Z.of_nat (length done)
                   /\ processedFiles w = Z.of_nat (length done)
                   /\ loaderDoneReturn w = loaderDoneReturn w0)
                (fun _ => True)) as Hfiles.
  cbv beta in Hfiles.
  assert (Hbody1 : forall done x rest s w,
             files = done ++ x :: rest ->
             length (currentUniqueIds s) = length done
             /\ 0 <= currentEntriesAdded s <= Z.of_nat (length done)
             /\ processedFiles w = Z.of_nat (length done)
             /\ loaderDoneReturn w = loaderDoneReturn w0 ->
             match incrementalFile env (existingMetadataMapOf rows)
                     (Z.of_nat (length files)) s x w with
             | (Fulfilled s', w') =>
                 length (currentUniqueIds s') = length (done ++ [x])
                 /\ 0 <= currentEntriesAdded s' <= Z.of_nat (length (done ++ [x]))
                 /\ processedFiles w' = Z.of_nat (length (done ++ [x]))
                 /\ loaderDoneReturn w' = loaderDoneReturn w0
             | (Rejected, w') => True
             end).
  { intros done x rest s w _ (H1 & H2 & H3 & H4).
    pose proof (incrementalFile_counts env (existingMetadataMapOf rows)
                  (Z.of_nat (length files)) s x w) as Hc.
    pose proof (incrementalFile_reports env directoryPath w0
                  (Z.of_nat (length files)) s x w) as Hr.
    fold rows in Hr.
    destruct (incrementalFile env (existingMetadataMapOf rows)
                (Z.of_nat (length files)) s x w) as [[l'|] wn]; [|exact I].
    destruct Hc as (C1 & C2 & C3). destruct Hr as (_ & _ & R3).
    rewrite length_app. simpl. rewrite C1, C3, R3, H1, H3.
    repeat split; try lia. exact H4. }
  specialize (Hfiles Hbody1 (mkLocals ∅ 0 []) w1). clear Hbody1.
  destruct (forOf (incrementalFile env (existingMetadataMapOf rows)
                     (Z.of_nat (length files)))
                  files (mkLocals ∅ 0 []) w1) as [[l|] w2]; [|discriminate].
  destruct (Hfiles (conj eq_refl (conj (conj (Z.le_refl 0) (Z.le_refl 0))
                                       (conj eq_refl eq_refl))))
    as (L1 & L2 & L3 & L4).
  pose proof (forOf_invariant (deleteMissing env (processedFilePaths l)) rows
                (fun _ _ w => processedFiles w = processedFiles w2
                              /\ loaderDoneReturn w = loaderDoneReturn w2)
                (fun _ => True)) as Hdel.
  cbv beta in Hdel.
  assert (Hbody2 : forall (done : list FileMetadata) x (rest : list FileMetadata)
                          (s : unit) w,
             rows = done ++ x :: rest ->
             processedFiles w = processedFiles w2
             /\ loaderDoneReturn w = loaderDoneReturn w2 ->
             match deleteMissing env (processedFilePaths l) s x w with
             | (Fulfilled _, w') =>
                 processedFiles w' = processedFiles w2
                 /\ loaderDoneReturn w' = loaderDoneReturn w2
             | (Rejected, w') => True
             end).
  { intros done x rest [] w _ [H1 H2].
    pose proof (deleteMissing_keeps_processedFiles env (processedFilePaths l) x w) as Hp.
    pose proof (deleteMissing_keeps_loaderDoneReturn env (processedFilePaths l) x w) as Hl.
    destruct (deleteMissing env (processedFilePaths l) tt x w) as [[[]|] wn];
      [|exact I].
    simpl in *. split; congruence. }
  specialize (Hdel Hbody2 tt w2 (conj eq_refl eq_refl)). clear Hbody2.
  destruct (forOf (deleteMissing env (processedFilePaths l)) rows tt w2)
    as [[[]|] w3]; [|discriminate].
  destruct Hdel as [D1 D2].
  intros Heq. injection Heq as <- <-. unfold scanPart, finish. simpl.
  rewrite D1, D2, L3, L4. repeat split; auto; lia.
Qed.

Lemma completed_sync_counts_every_file_witness :
  let r := runTask (directoryTask (steady 7) "u" "/d" [a_txt; b_txt] false true)
                   [row_a] in
  processedFiles r.2 = 2
  /\ loaderDoneReturn r.2
     = Some (mkLoaderReturn 1 "DirectoryLoader_u" ["/d/a.txt"; "loader:/d/b.txt"]
                            "DirectoryLoader").
Proof.
  intros r.
  destruct (completed_sync_counts_every_file (steady 7) "u" "/d" [a_txt; b_txt]
              [row_a]
              (mkLoaderReturn 1 "DirectoryLoader_u" ["/d/a.txt"; "loader:/d/b.txt"]
                              "DirectoryIncrementalScanPart")
              r.2) as (_ & _ & H3 & H4).
  - vm_compute. reflexivity.
  - split; [exact H3 | exact H4].
Defined.

(** *** The rows a completed sync leaves *)

Section Records.
Variable env : Env.
Variables (hashOf : string -> string) (mtimeOf : string -> Z).

(** A row that records the file at [p] as it is read now. *)
Let current (p : string) (row : FileMetadata) : Prop :=
  filePath row = p /\ hash row = hashOf p
  /\ MetadataStore.lastModified row = mtimeOf p.

(** From [d] to [d'] no path loses its row, and no path loses a row that
    records the file as it is. *)
Let keeps (d d' : Table) : Prop :=
  (forall p row, In row d -> current p row -> exists row', In row' d' /\ current p row')
  /\ (forall row, In row d -> exists row', In row' d' /\ filePath row' = filePath row).

Lemma keeps_refl (d : Table) : keeps d d.
Proof. split; eauto. Qed.

Lemma keeps_trans (d1 d2 d3 : Table) : keeps d1 d2 -> keeps d2 d3 -> keeps d1 d3.
Proof.
  intros [A1 B1] [A2 B2]. split.
  - intros p row Hin Hc. destruct (A1 p row Hin Hc) as (r2 & H2 & C2). eauto.
  - intros row Hin. destruct (B1 row Hin) as (r2 & H2 & E2).
    destruct (B2 r2 H2) as (r3 & H3 & E3). exists r3. split; congruence.
Qed.

Lemma update_keeps (d d' : Table) (p : string) (size : Z) (u : string) :
  MetadataStore.updateFileMetadata d p
    (mkPartial None (Some (mtimeOf p)) (Some size) (Some (hashOf p)) (Some u))
  = Some d' ->
  keeps d d'
  /\ forall row, In row d -> filePath row = p -> exists row', In row' d' /\ current p row'.
Proof.
  unfold MetadataStore.updateFileMetadata. simpl.
  destruct (no_duplicate_keys _); [|discriminate]. intros H. injection H as <-.
  set (f := fun m => if has_path p m then _ else m).
  assert (Hpath : forall m, filePath (f m) = filePath m).
  { intros m. unfold f. destruct (has_path p m); reflexivity. }
  assert (Hset : forall m, filePath m = p -> current p (f m)).
  { intros m Hm. unfold f, has_path. rewrite Hm, String.eqb_refl.
    unfold current. simpl. auto. }
  split; [split|].
  - intros q row Hin Hc. exists (f row). split; [apply in_map; exact Hin|].
    destruct Hc as (Hq & Hh & Ht). destruct (String.eqb_spec (filePath row) p) as [Hp|Hp].
    + rewrite <- Hq, Hp. apply Hset. exact Hp.
    + unfold f, has_path. apply String.eqb_neq in Hp. rewrite Hp.
      unfold current. auto.
  - intros row Hin. exists (f row). split; [apply in_map; exact Hin | apply Hpath].
  - intros row Hin Hp. exists (f row). split; [apply in_map; exact Hin | apply Hset; exact Hp].
Qed.

Lemma insert_keeps (d d' : Table) (m : FileMetadata) :
  MetadataStore.insertFileMetadata d m = Some d' ->
  keeps d d' /\ In m d'.
Proof.
  unfold MetadataStore.insertFileMetadata.
  destruct (_ || _); [discriminate|]. intros H. injection H as <-.
  split; [split|].
  - intros p row Hin Hc. exists row. split; [apply in_or_app; auto | exact Hc].
  - intros row Hin. exists row. split; [apply in_or_app; auto | reflexivity].
  - apply in_or_app. right. left. reflexivity.
Qed.

Lemma incrementalFile_records (d0 : Table) (M : gmap string FileMetadata)
  (totalFiles : Z) (l : Locals) (g : FileType) (w : World) :
  (forall t, env_hash env t (path g) = Some (hashOf (path g))) ->
  (forall t, env_mtimeMs env t (path g) = Some (mtimeOf (path g))) ->
  (forall e, M !! path g = Some e -> In e d0 /\ filePath e = path g) ->
  keeps d0 (db w) ->
  match incrementalFile env M totalFiles l g w with
  | (Fulfilled l', w') =>
      keeps (db w) (db w')
      /\ exists row, In row (db w') /\ current (path g) row
  | (Rejected, _) => True
  end.
Proof.
  intros Hh Ht HM [K1 K2]. unfold incrementalFile. run.
  rewrite Hh; run. rewrite Ht; run.
  destruct (M !! path g) as [e|] eqn:He.
  - destruct (HM e eq_refl) as [Hin Hp].
    destruct (changed e (hashOf (path g)) (mtimeOf (path g))) eqn:Hch; run.
    + repeat split_call; try exact I.
      match goal with
      | H : MetadataStore.updateFileMetadata _ _ _ = Some _ |- _ =>
          apply update_keeps in H as [Hk Hrow]
      end.
      split; [exact Hk|].
      destruct (K2 e Hin) as (row & Hrin & Hrp). apply (Hrow row Hrin). congruence.
    + split; [apply keeps_refl|].
      apply unchanged_iff in Hch as [Hhash Htime].
      apply (K1 (path g) e Hin). unfold current. auto.
  - repeat split_call; try exact I.
    match goal with
    | H : MetadataStore.insertFileMetadata _ _ = Some _ |- _ =>
        apply insert_keeps in H as [Hk Hm]
    end.
    split; [exact Hk|]. eexists. split; [exact Hm|]. unfold current. simpl. auto.
Qed.

Lemma deleteMissing_records (seen : gset string) (oldMeta : FileMetadata) (w : World)
  (p : string) :
  p ∈ seen ->
  (exists row, In row (db w) /\ current p row) ->
  exists row, In row (db (deleteMissing env seen tt oldMeta w).2) /\ current p row.
Proof.
  intros Hp (row & Hin & Hc). unfold deleteMissing.
  destruct (decide (filePath oldMeta ∈ seen)) as [Hseen|Hout]; [simpl; eauto|].
  run. repeat split_call; simpl; try solve [eauto].
  exists row. split; [|exact Hc].
  unfold MetadataStore.deleteFileMetadata. apply List.filter_In. split; [exact Hin|].
  apply negb_true_iff. unfold has_path. apply String.eqb_neq.
  destruct Hc as [Hq _]. intros Heq. apply Hout. rewrite <- Heq, Hq. exact Hp.
Qed.

End Records.

(** X22.  When the incremental sync of a directory completes, and the hash
    and the time of each file of the listing read the same all through, the
    table holds for each file a row with its path, that hash and that
    time. *)
Theorem completed_sync_records_every_file (env : Env) (uuid directoryPath : string)
  (files : list FileType) (d : Table) (hashOf : string -> string)
  (mtimeOf : string -> Z) (ret : LoaderReturn) (w' : World) :
  (forall g t, In g files -> env_hash env t (path g) = Some (hashOf (path g))) ->
  (forall g t, In g files -> env_mtimeMs env t (path g) = Some (mtimeOf (path g))) ->
  runTask (directoryTask env uuid directoryPath files false true) d
  = ([Fulfilled ret], w') ->
  forall g, In g files ->
    exists row, In row (db w')
      /\ filePath row = path g /\ hash row = hashOf (path g)
      /\ MetadataStore.lastModified row = mtimeOf (path g).
Proof.
  intros Hh Ht. unfold runTask, directoryTask. simpl.
  set (w0 := start _ d). set (id := "DirectoryLoader_" +:+ uuid).
  rewrite incrementalTask_run.
  destruct (env_database env (trace w0) (SelectDirectory directoryPath));
    [|discriminate].
  set (rows := MetadataStore.getDirectoryMetadata (db w0) directoryPath).
  set (w1 := log _ w0).
  set (current := fun (p : string) (row : FileMetadata) =>
                    filePath row = p /\ hash row = hashOf p
                    /\ MetadataStore.lastModified row = mtimeOf p).
  set (keeps := fun (d d' : Table) =>
     (forall p row, In row d -> current p row -> exists row', In row' d' /\ current p row')
     /\ (forall row, In row d -> exists row', In row' d' /\ filePath row' = filePath row)).
  pose proof (forOf_invariant
                (incrementalFile env (existingMetadataMapOf rows)
                   (Z.of_nat (length files)))
                files
                (fun done l w =>
                   keeps d (db w)
                   /\ forall g, In g done -> exists row, In row (db w) /\ current (path g) row)
                (fun _ => True)) as Hfiles.
  cbv beta in Hfiles.
  assert (Hbody1 : forall done x rest s w,
             files = done ++ x :: rest ->
             keeps d (db w)
             /\ (forall g, In g done -> exists row, In row (db w) /\ current (path g) row) ->
             match incrementalFile env (existingMetadataMapOf rows)
                     (Z.of_nat (length files)) s x w with
             | (Fulfilled s', w') =>
                 keeps d (db w')
                 /\ (forall g, In g (done ++ [x]) ->
                       exists row, In row (db w') /\ current (path g) row)
             | (Rejected, w') => True
             end).
  { intros done x rest s w Hl [HK Hdone].
    assert (Hx : In x files) by (rewrite Hl; apply in_or_app; right; left; reflexivity).
    pose proof (incrementalFile_records env hashOf mtimeOf d (existingMetadataMapOf rows)
                  (Z.of_nat (length files)) s x w
                  (fun t => Hh x t Hx) (fun t => Ht x t Hx)) as Hrec.
    destruct (incrementalFile env (existingMetadataMapOf rows)
                (Z.of_nat (length files)) s x w) as [[l'|] wn]; [|exact I].
    destruct Hrec as [Hk Hrow]; [|exact HK|].
    { intros e He. apply existingMetadataMapOf_lookup in He as [He Hp].
      split; [|exact Hp]. apply (getDirectoryMetadata_sub _ _ _ He). }
    split; [exact (keeps_trans hashOf mtimeOf _ _ _ HK Hk)|].
    intros g Hg. apply in_app_or in Hg as [Hg|[<-|[]]]; [|exact Hrow].
    destruct (Hdone g Hg) as (row & Hin & Hc). exact (proj1 Hk _ row Hin Hc). }
  specialize (Hfiles Hbody1 (mkLocals ∅ 0 []) w1). clear Hbody1.
  pose proof (files_loop_seen env directoryPath files w0 w1) as Hseen.
  fold rows in Hseen.
  destruct (forOf (incrementalFile env (existingMetadataMapOf rows)
                     (Z.of_nat (length files)))
                  files (mkLocals ∅ 0 []) w1) as [[l|] w2]; [|discriminate].
  destruct Hfiles as [_ Hall].
  { split; [apply (keeps_refl hashOf mtimeOf)|]. intros g []. }
  pose proof (forOf_invariant (deleteMissing env (processedFilePaths l)) rows
                (fun _ _ w => forall g, In g files ->
                                exists row, In row (db w) /\ current (path g) row)
                (fun _ => True)) as Hdel.
  cbv beta in Hdel.
  assert (Hbody2 : forall (done : list FileMetadata) x (rest : list FileMetadata)
                          (s : unit) w,
             rows = done ++ x :: rest ->
             (forall g, In g files -> exists row, In row (db w) /\ current (path g) row) ->
             match deleteMissing env (processedFilePaths l) s x w with
             | (Fulfilled _, w') =>
                 forall g, In g files -> exists row, In row (db w') /\ current (path g) row
             | (Rejected, w') => True
             end).
  { intros done x rest [] w _ HI.
    pose proof (fun g (Hg : In g files) =>
                  deleteMissing_records env hashOf mtimeOf (processedFilePaths l) x w
                    (path g) (proj2 (Hseen (path g)) (in_map path _ _ Hg)) (HI g Hg))
      as Hrec.
    destruct (deleteMissing env (processedFilePaths l) tt x w) as [[[]|] wn];
      [exact Hrec | exact I]. }
  specialize (Hdel Hbody2 tt w2 Hall). clear Hbody2.
  destruct (forOf (deleteMissing env (processedFilePaths l)) rows tt w2)
    as [[[]|] w3]; [|discriminate].
  intros Heq. injection Heq as <- <-. exact Hdel.
Qed.

Lemma completed_sync_records_every_file_witness :
  exists row,
    In row (db (runTask (directoryTask (steady 8) "u" "/d" [a_txt; b_txt] false true)
                        [row_a]).2)
    /\ filePath row = "/d/b.txt" /\ hash row = "sha:/d/b.txt"
    /\ MetadataStore.lastModified row = 8.
Proof.
  apply (fun Hrun =>
           completed_sync_records_every_file (steady 8) "u" "/d" [a_txt; b_txt] [row_a]
             (fun p => "sha:" +:+ p) (fun _ => 8)
             (mkLoaderReturn 2 "DirectoryLoader_u" ["loader:/d/a.txt"; "loader:/d/b.txt"]
                             "DirectoryIncrementalScanPart")
             (runTask (directoryTask (steady 8) "u" "/d" [a_txt; b_txt] false true)
                      [row_a]).2
             (fun _ _ _ => eq_refl) (fun _ _ _ => eq_refl) Hrun
             b_txt (or_intror (or_introl eq_refl))).
  vm_compute. reflexivity.
Defined.

End SyncFacts.

Module RefreshFacts.
Import Promise Runtime Incremental PromiseFacts IncrementalFacts.

(** X23.  The task of a file in a sync that is not incremental records the
    file entirely or not at all.  Either it resolves to the error value and
    leaves the table, the progress and the aggregate result as they were,
    or it has appended the row of the file, counted the file in the
    progress, and added one entry and the loader id to the aggregate
    result. *)
Theorem refresh_task_is_all_or_nothing (env : Env) (totalFiles : Z)
  (file : FileType) (w : World) :
  let r := refreshFileTask env totalFiles file w in
  (r.1 = Fulfilled ERROR_LOADER_RETURN
   /\ db r.2 = db w
   /\ processedFiles r.2 = processedFiles w
   /\ loaderDoneReturn r.2 = loaderDoneReturn w)
  \/ (exists result h mtimeMs,
        r.1 = Fulfilled result
        /\ db r.2 = db w ++ [mkFileMetadata (path file) mtimeMs (Runtime.size file) h
                                            (uniqueId result)]
        /\ processedFiles r.2 = processedFiles w + 1
        /\ loaderDoneReturn r.2
           = (fun a => mkLoaderReturn (entriesAdded a + 1) (uniqueId a)
                                      (uniqueIds a ++ [uniqueId result]) (loaderType a))
               <$> loaderDoneReturn w).
Proof.
  unfold refreshFileTask. run. repeat split_call; simpl; auto.
  right.
  match goal with
  | H : MetadataStore.insertFileMetadata _ _ = Some _ |- _ =>
      unfold MetadataStore.insertFileMetadata in H;
      destruct (_ || _) in H; [discriminate H|]; injection H as <-
  end.
  eexists _, _, _. repeat split.
  destruct (loaderDoneReturn w); reflexivity.
Qed.

End RefreshFacts.

Module HashedTaskFacts.
Import Promise Runtime Hashed PromiseFacts HashedFacts.

(** *** No task of this revision rejects *)

Lemma runItems_never_reject (items : list LoaderTaskItem) :
  (forall it w, In it items -> exists r w', task it w = (Fulfilled r, w')) ->
  forall w, let outcomes := (runItems items w).1 in
    length outcomes = length items /\ Forall (fun o => o <> Rejected) outcomes.
Proof.
  induction items as [|it items IH]; intros Hall w; simpl;
    [split; [reflexivity|constructor]|].
  destruct (Hall it w (or_introl eq_refl)) as (r & w' & ->).
  specialize (IH (fun it w H => Hall it w (or_intror H)) w').
  destruct (runItems items w') as [rs w2]. simpl in *.
  destruct IH as [Hlen Hok]. split; [congruence|].
  constructor; [discriminate | exact Hok].
Qed.

(** X24.  In the revision on [KnowledgeMetadataStore] every unit of work
    resolves, whatever fails in it: the task of a file item, and each of
    the tasks of a directory item, one for each file and one for the
    deletion check. *)
Theorem every_task_resolves (env : Env) (base_id sep : string) :
  (forall file forceReload d,
      exists ret, (runTask (fileTask env base_id file forceReload) d).1 = [Fulfilled ret])
  /\ (forall uuid1 uuid2 directory files forceReload d,
        let outcomes :=
          (runTask (directoryTask env base_id sep uuid1 uuid2 directory files forceReload)
                   d).1 in
        length outcomes = S (length files)
        /\ Forall (fun o => o <> Rejected) outcomes).
Proof.
  split.
  - intros file forceReload d. unfold runTask.
    pose proof (fileTask_never_rejects env base_id file forceReload
                  (start (fileTask env base_id file forceReload) d)) as H.
    apply Forall_cons in H as [(r & w' & H) _].
    simpl in *. rewrite H. eauto.
  - intros uuid1 uuid2 directory files forceReload d. unfold runTask.
    destruct (runItems_never_reject
                (loaderTasks (directoryTask env base_id sep uuid1 uuid2 directory files
                                forceReload))) with (w := start
                (directoryTask env base_id sep uuid1 uuid2 directory files forceReload) d)
      as [Hlen Hok].
    + intros it w Hin. unfold directoryTask in Hin. simpl in Hin.
      apply in_app_or in Hin as [Hin|[<-|[]]].
      * apply in_map_iff in Hin as (f & <- & _). simpl.
        apply directoryFileTask_never_rejects.
      * simpl. apply deletionCheckTask_never_rejects.
    + split; [|exact Hok]. rewrite Hlen. unfold directoryTask. simpl.
      rewrite length_app, length_map. simpl. lia.
Qed.

(** *** Progress *)

Section Progress.
Variable env : Env.
Variables (base_id sep : string).

Lemma directoryFileTask_counts_once (totalFiles : Z) (file : FileType)
  (forceReload : bool) (w : World) :
  processedFiles (directoryFileTask env base_id totalFiles file forceReload w).2
  = processedFiles w + 1.
Proof.
  unfold directoryFileTask, directoryFileBody, replaceExisting, addAndRecord. run.
  repeat split_call; reflexivity.
Qed.

Lemma deleteIfMissing_keeps_processedFiles (cur : gset string) (n : Z)
  (meta : DocumentMetadata) (w : World) :
  processedFiles (deleteIfMissing env base_id cur n meta w).2 = processedFiles w.
Proof.
  unfold deleteIfMissing. destruct (decide _); [reflexivity|].
  run. repeat split_call; reflexivity.
Qed.

Lemma deletionCheckTask_keeps_processedFiles (uuid directory : string)
  (cur : gset string) (w : World) :
  processedFiles (deletionCheckTask env base_id sep uuid directory cur w).2
  = processedFiles w.
Proof.
  rewrite deletionCheckTask_run.
  destruct (env_database env (trace w) (SelectByDirectory base_id directory));
    [|reflexivity].
  set (rows := KnowledgeMetadataStore.getMetadataByDirectoryPath sep (db w) base_id
                 directory).
  set (w1 := log _ w).
  assert (H : forall l n w2, processedFiles w2 = processedFiles w ->
            processedFiles (forOf (deleteIfMissing env base_id cur) l n w2).2
            = processedFiles w).
  { induction l as [|x l IH]; intros n w2 Hw2; [exact Hw2|].
    cbn [forOf]. unfold await.
    pose proof (deleteIfMissing_keeps_processedFiles cur n x w2) as Hx.
    destruct (deleteIfMissing env base_id cur n x w2) as [[n'|] w3]; simpl in *.
    - apply IH. congruence.
    - congruence. }
  specialize (H rows 0 w1 eq_refl).
  destruct (forOf (deleteIfMissing env base_id cur) rows 0 w1) as [[n|] w2]; exact H.
Qed.

Lemma file_items_count (totalFiles : Z) (forceReload : bool)
  (tail : list LoaderTaskItem) (files : list FileType) (w : World) :
  (forall w, processedFiles (runItems tail w).2 = processedFiles w) ->
  processedFiles
    (runItems (map (fun file => mkLoaderTaskItem
                                  (directoryFileTask env base_id totalFiles file forceReload)
                                  (Runtime.size file)) files ++ tail) w).2
  = processedFiles w + Z.of_nat (length files).
Proof.
  intros Htail. revert w. induction files as [|f files IH]; intros w.
  - simpl. rewrite Htail. lia.
  - cbn [map app runItems Runtime.task].
    pose proof (directoryFileTask_counts_once totalFiles f forceReload w) as H.
    destruct (directoryFileTask env base_id totalFiles f forceReload w) as [o w1].
    simpl in H. specialize (IH w1).
    destruct (runItems _ w1) as [os w2]. simpl in *. lia.
Qed.

End Progress.

(** X25.  In the revision on [KnowledgeMetadataStore], the tasks of a
    directory item count every file once in the progress, whether the file
    is skipped, added or fails: after them [processedFiles] is the number of
    files. *)
Theorem every_file_is_counted_once (env : Env) (base_id sep : string)
  (uuid1 uuid2 directory : string) (files : list FileType) (forceReload : bool)
  (d : Table) :
  processedFiles
    (runTask (directoryTask env base_id sep uuid1 uuid2 directory files forceReload) d).2
  = Z.of_nat (length files).
Proof.
  unfold runTask, directoryTask, start. cbn [loaderTasks initialLoaderDoneReturn].
  rewrite file_items_count; [reflexivity|].
  intros w. simpl.
  pose proof (deletionCheckTask_keeps_processedFiles env base_id sep uuid2 directory
                (list_to_set (map path files)) w) as H.
  destruct (deletionCheckTask _ _ _ _ _ _ w) as [o w1]. exact H.
Qed.

(** *** A file item run twice *)

Section FileItem.
Variable env : Env.
Variables (base_id : string) (file : FileType) (fileHash : string).

Hypothesis hash_ok : forall t, env_hash env t (path file) = Some fileHash.
Hypothesis database_ok : forall t q, env_database env t q = true.

Lemma fileTask_leaves_a_row (w w1 : World) (result : LoaderReturn) :
  runItems (loaderTasks (fileTask env base_id file false)) w = ([Fulfilled result], w1) ->
  valid_result result = true ->
  exists m,
    KnowledgeMetadataStore.getMetadataByPath (db w1) base_id (path file) = Some m
    /\ content_hash m = fileHash
    /\ unique_id_embedjs m = uniqueId result.
Proof.
  simpl. unfold fileTaskBody, replaceExisting, addAndStore. run.
  rewrite hash_ok; run. rewrite database_ok; run.
  destruct (KnowledgeMetadataStore.getMetadataByPath (db w) base_id (path file))
    as [e|] eqn:He.
  - destruct (unchanged false e fileHash) eqn:Hun; run.
    + intros Heq _. injection Heq as <- <-. simpl. exists e.
      unfold unchanged in Hun. simpl in Hun. apply String.eqb_eq in Hun. auto.
    + repeat split_call; try impossible.
      all: intros Heq Hvalid; injection Heq as <- <-; try discriminate Hvalid;
        try congruence.
      simpl. eexists. split; [apply DocumentMetadataFacts.addOrUpdateMetadata_lookup|].
      split; reflexivity.
  - repeat split_call.
    all: intros Heq Hvalid; injection Heq as <- <-; try discriminate Hvalid;
      try congruence.
    simpl. eexists. split; [apply DocumentMetadataFacts.addOrUpdateMetadata_lookup|].
    split; reflexivity.
Qed.

End FileItem.

(** X26.  In the revision on [KnowledgeMetadataStore], a file item added a
    second time, its content hash being the same, is skipped.  When the
    first task resolved to a valid result and the database answers, the
    second task finds the row, calls neither [addFileLoader] nor
    [deleteLoader], leaves the table as it is, and resolves to the loader id
    the first one reported. *)
Theorem file_added_twice_is_skipped (env : Env) (base_id : string) (file : FileType)
  (fileHash : string) (d : Table) (result : LoaderReturn) (w1 : World) :
  (forall t, env_hash env t (path file) = Some fileHash) ->
  (forall t q, env_database env t q = true) ->
  runTask (fileTask env base_id file false) d = ([Fulfilled result], w1) ->
  valid_result result = true ->
  exists m,
    KnowledgeMetadataStore.getMetadataByPath (db w1) base_id (path file) = Some m
    /\ unique_id_embedjs m = uniqueId result
    /\ runTask (fileTask env base_id file false) (db w1)
       = ([Fulfilled (skipped m)],
          mkWorld (db w1)
                  [CalculateFileHash (path file);
                   Database (SelectByPath base_id (path file))]
                  0 (Some (skipped m))).
Proof.
  intros Hh Hd Hrun Hvalid. unfold runTask in *.
  destruct (fileTask_leaves_a_row env base_id file fileHash Hh Hd _ _ _ Hrun Hvalid)
    as (m & Hm & Hhash & Hid).
  exists m. split; [exact Hm|]. split; [exact Hid|].
  exact (unchanged_file_is_skipped env base_id file fileHash Hh Hd
           (start (fileTask env base_id file false) (db w1)) m Hm Hhash).
Qed.

Lemma file_added_twice_is_skipped_witness :
  let first := runTask (fileTask (steady "sha:new") "kb" Incremental.a_txt false) [doc_a] in
  exists m,
    KnowledgeMetadataStore.getMetadataByPath (db first.2) "kb" "/d/a.txt" = Some m
    /\ unique_id_embedjs m = "loader:/d/a.txt"
    /\ runTask (fileTask (steady "sha:new") "kb" Incremental.a_txt false) (db first.2)
       = ([Fulfilled (skipped m)],
          mkWorld (db first.2)
                  [CalculateFileHash "/d/a.txt";
                   Database (SelectByPath "kb" "/d/a.txt")]
                  0 (Some (skipped m))).
Proof.
  intros first.
  apply (file_added_twice_is_skipped (steady "sha:new") "kb" Incremental.a_txt "sha:new"
           [doc_a]
           (mkLoaderReturn 1 "loader:/d/a.txt" ["loader:/d/a.txt"] "FileLoader")
           first.2 (fun _ => eq_refl) (fun _ _ => eq_refl)).
  - vm_compute. reflexivity.
  - reflexivity.
Defined.

(** *** A loader result that is not valid *)

(** X27.  In the revision on [KnowledgeMetadataStore], when [addFileLoader]
    resolves to a result whose [uniqueId] or [loaderType] is empty, the task
    of a file item writes no row: the row the file had, if any, has been
    deleted with its loader, [loaderDoneReturn] is the error value, and the
    task itself resolves to the result it was given. *)
Theorem invalid_result_is_not_recorded (env : Env) (base_id : string)
  (file : FileType) (forceReload : bool) (fileHash : string)
  (result : LoaderReturn) (w : World) :
  (forall t, env_hash env t (path file) = Some fileHash) ->
  (forall t q, env_database env t q = true) ->
  (forall t u, env_deleteLoader env t u = true) ->
  (forall t, env_addFileLoader env t file forceReload = Some result) ->
  valid_result result = false ->
  match KnowledgeMetadataStore.getMetadataByPath (db w) base_id (path file) with
  | Some e => unchanged forceReload e fileHash = false
  | None => True
  end ->
  let r := runItems (loaderTasks (fileTask env base_id file forceReload)) w in
  let old := KnowledgeMetadataStore.getMetadataByPath (db w) base_id (path file) in
  r.1 = [Fulfilled result]
  /\ loaderDoneReturn r.2 = Some ERROR_LOADER_RETURN
  /\ db r.2
     = match old with
       | Some e =>
           KnowledgeMetadataStore.deleteMetadataByEmbedjsUniqueId (db w) base_id
             (unique_id_embedjs e)
       | None => db w
       end
  /\ trace r.2
     = trace w
       ++ [CalculateFileHash (path file); Database (SelectByPath base_id (path file))]
       ++ match old with
          | Some e => [DeleteLoader (unique_id_embedjs e);
                       Database (DeleteByUniqueId base_id (unique_id_embedjs e))]
          | None => []
          end
       ++ [AddFileLoader file forceReload].
Proof.
  intros Hh Hd Hl Ha Hinv Hrow. simpl.
  unfold fileTaskBody, replaceExisting, addAndStore. run.
  rewrite Hh; run. rewrite Hd; run.
  destruct (KnowledgeMetadataStore.getMetadataByPath (db w) base_id (path file))
    as [e|] eqn:He.
  - rewrite Hrow. rewrite to_replace_negb, Hrow. simpl. run.
    rewrite Hl; run. rewrite Hd; run. rewrite Ha; run. rewrite Hinv. run.
    simpl. rewrite <- !app_assoc. repeat split; reflexivity.
  - run. rewrite Ha; run. rewrite Hinv. run.
    simpl. rewrite <- !app_assoc. repeat split; reflexivity.
Qed.

Lemma invalid_result_is_not_recorded_witness :
  let r := runItems (loaderTasks (fileTask nameless "kb" Incremental.a_txt false))
                    (mkWorld [doc_a] [] 0 None) in
  r.1 = [Fulfilled (mkLoaderReturn 1 "" [] "FileLoader")]
  /\ loaderDoneReturn r.2 = Some ERROR_LOADER_RETURN
  /\ db r.2 = [].
Proof.
  pose proof (invalid_result_is_not_recorded nameless "kb" Incremental.a_txt false
                "sha:new" (mkLoaderReturn 1 "" [] "FileLoader")
                (mkWorld [doc_a] [] 0 None)
                (fun _ => eq_refl) (fun _ _ => eq_refl) (fun _ _ => eq_refl)
                (fun _ => eq_refl) eq_refl eq_refl) as (H1 & H2 & H3 & _).
  split; [exact H1|]. split; [exact H2 | exact H3].
Defined.

(** *** [remove] *)

Lemma filter_filter {A} (p q : A -> bool) (l : list A) :
  List.filter p (List.filter q l) = List.filter (fun x => q x && p x) l.
Proof.
  induction l as [|a l IH]; simpl; [reflexivity|].
  destruct (q a); simpl; [destruct (p a)|]; rewrite IH; reflexivity.
Qed.

Lemma kept_cons (base_id id : string) (ids : list string) (m : DocumentMetadata) :
  kept base_id (id :: ids) m
  = negb (has_unique_id base_id id m) && kept base_id ids m.
Proof.
  unfold kept, has_unique_id. simpl.
  destruct (String.eqb (knowledge_base_id m) base_id),
    (String.eqb (unique_id_embedjs m) id), (existsb _ ids); reflexivity.
Qed.

(** X28.  In the revision on [KnowledgeMetadataStore], when [remove]
    completes it has, for each id in turn, deleted the loader and then the
    rows that store the id; the table is left with the rows of other
    knowledge bases and the rows whose loader id was not given. *)
Theorem remove_deletes_loaders_and_rows (env : Env) (base_id : string)
  (uniqueIds : list string) (w w' : World) :
  remove env base_id uniqueIds w = (Fulfilled tt, w') ->
  db w' = List.filter (kept base_id uniqueIds) (db w)
  /\ trace w'
     = trace w
       ++ flat_map (fun id => [DeleteLoader id; Database (DeleteByUniqueId base_id id)])
                   uniqueIds.
Proof.
  unfold remove. revert w.
  induction uniqueIds as [|id ids IH]; intros w.
  - simpl. intros H. injection H as <-. split.
    + symmetry. apply FileMetadataFacts.filter_all. intros x _.
      unfold kept. simpl. rewrite andb_false_r. reflexivity.
    + rewrite app_nil_r. reflexivity.
  - cbn [forOf]. unfold await at 1.
    destruct ((_ ← deleteLoader env id;
               deleteMetadataByEmbedjsUniqueId env base_id id) w)
      as [[[]|] w1] eqn:Hone; [|discriminate].
    intros Hrest. destruct (IH w1 Hrest) as [Hdb Htr].
    revert Hone. run. repeat split_call; try discriminate.
    intros H. injection H as <-. simpl in *. split.
    + rewrite Hdb. unfold KnowledgeMetadataStore.deleteMetadataByEmbedjsUniqueId.
      rewrite filter_filter. apply List.filter_ext. intros m.
      symmetry. apply kept_cons.
    + rewrite Htr, <- !app_assoc. reflexivity.
Qed.

Lemma remove_deletes_loaders_and_rows_witness :
  db (remove (steady "sha:new") "kb" ["loader:old"] (mkWorld [doc_a] [] 0 None)).2
  = List.filter (kept "kb" ["loader:old"]) [doc_a].
Proof.
  apply (remove_deletes_loaders_and_rows (steady "sha:new") "kb" ["loader:old"]
           (mkWorld [doc_a] [] 0 None)
           (remove (steady "sha:new") "kb" ["loader:old"] (mkWorld [doc_a] [] 0 None)).2).
  vm_compute. reflexivity.
Defined.

End HashedTaskFacts.

Module AggregateFacts.
Import Promise Runtime Hashed PromiseFacts HashedFacts.

Section Aggregate.
Variable env : Env.
Variables (base_id sep : string).

(** What the task of a file may do to the aggregate result. *)
Let grows (a a' : option LoaderReturn) : Prop :=
  match a, a' with
  | Some x, Some y =>
      uniqueId y = uniqueId x /\ loaderType y = loaderType x
      /\ ((uniqueIds y = uniqueIds x /\ entriesAdded y = entriesAdded x)
          \/ exists u, uniqueIds y = uniqueIds x ++ [u]
                       /\ entriesAdded x <= entriesAdded y <= entriesAdded x + 1)
  | None, None => True
  | _, _ => False
  end.

Lemma directoryFileTask_grows (totalFiles : Z) (file : FileType)
  (forceReload : bool) (w : World) :
  grows (loaderDoneReturn w)
        (loaderDoneReturn (directoryFileTask env base_id totalFiles file forceReload w).2).
Proof.
  unfold directoryFileTask, directoryFileBody, replaceExisting, addAndRecord, grows. run.
  repeat split_call.
  all: destruct (loaderDoneReturn w) as [a|]; simpl; auto.
  all: repeat split; auto.
  all: try (right; eexists; split; [reflexivity|];
            destruct (0 <? _); lia).
  all: try (right; eexists; split; [reflexivity|]; lia).
Qed.

Lemma deletionCheckTask_keeps_aggregate (uuid directory : string)
  (cur : gset string) (w : World) :
  loaderDoneReturn (deletionCheckTask env base_id sep uuid directory cur w).2
  = loaderDoneReturn w.
Proof.
  rewrite deletionCheckTask_run.
  destruct (env_database env (trace w) (SelectByDirectory base_id directory));
    [|reflexivity].
  set (rows := KnowledgeMetadataStore.getMetadataByDirectoryPath sep (db w) base_id
                 directory).
  set (w1 := log _ w).
  assert (H : forall l n w2, loaderDoneReturn w2 = loaderDoneReturn w ->
            loaderDoneReturn (forOf (deleteIfMissing env base_id cur) l n w2).2
            = loaderDoneReturn w).
  { induction l as [|x l IH]; intros n w2 Hw2; [exact Hw2|].
    cbn [forOf]. unfold await.
    assert (Hx : loaderDoneReturn (deleteIfMissing env base_id cur n x w2).2
                 = loaderDoneReturn w2).
    { unfold deleteIfMissing. destruct (decide _); [reflexivity|].
      run. repeat split_call; reflexivity. }
    destruct (deleteIfMissing env base_id cur n x w2) as [[n'|] w3]; simpl in *.
    - apply IH. congruence.
    - congruence. }
  specialize (H rows 0 w1 eq_refl).
  destruct (forOf (deleteIfMissing env base_id cur) rows 0 w1) as [[n|] w2]; exact H.
Qed.

Lemma file_items_aggregate (totalFiles : Z) (forceReload : bool)
  (tail : list LoaderTaskItem) (files : list FileType) (w : World) (a : LoaderReturn) :
  (forall w, loaderDoneReturn (runItems tail w).2 = loaderDoneReturn w) ->
  loaderDoneReturn w = Some a ->
  exists a',
    loaderDoneReturn
      (runItems (map (fun file => mkLoaderTaskItem
                                    (directoryFileTask env base_id totalFiles file forceReload)
                                    (Runtime.size file)) files ++ tail) w).2
    = Some a'
    /\ uniqueId a' = uniqueId a /\ loaderType a' = loaderType a
    /\ (length (uniqueIds a') <= length (uniqueIds a) + length files)%nat
    /\ entriesAdded a <= entriesAdded a'
    /\ entriesAdded a' - entriesAdded a
       <= Z.of_nat (length (uniqueIds a')) - Z.of_nat (length (uniqueIds a)).
Proof.
  intros Htail. revert w a. induction files as [|f files IH]; intros w a Ha.
  - simpl. rewrite Htail, Ha. exists a. repeat split; auto; lia.
  - cbn [map app runItems Runtime.task].
    pose proof (directoryFileTask_grows totalFiles f forceReload w) as H.
    destruct (directoryFileTask env base_id totalFiles f forceReload w) as [o w1].
    simpl in H. unfold grows in H. rewrite Ha in H.
    destruct (loaderDoneReturn w1) as [a1|] eqn:Ha1; [|destruct H].
    destruct H as (Hid & Hty & Hgrow).
    destruct (IH w1 a1 Ha1) as (a' & Hrun & Hid' & Hty' & Hlen & Hlo & Hhi).
    destruct (runItems _ w1) as [os w2]. simpl in *.
    exists a'. split; [exact Hrun|].
    split; [rewrite Hid'; exact Hid|]. split; [rewrite Hty'; exact Hty|].
    destruct Hgrow as [[Hu He]|(u & Hu & He)].
    + rewrite Hu, He in *. repeat split; lia.
    + rewrite Hu, length_app in *. simpl in *. repeat split; lia.
Qed.

End Aggregate.

(** X29.  In the revision on [KnowledgeMetadataStore], after the tasks of a
    directory item the aggregate result keeps its [DirectoryLoader] id and
    type, holds at most one loader id for each file, and counts in
    [entriesAdded] at most as many entries as it holds ids. *)
Theorem aggregate_result_is_within_the_listing (env : Env) (base_id sep : string)
  (uuid1 uuid2 directory : string) (files : list FileType) (forceReload : bool)
  (d : Table) :
  exists aggregate,
    loaderDoneReturn
      (runTask (directoryTask env base_id sep uuid1 uuid2 directory files forceReload) d).2
    = Some aggregate
    /\ uniqueId aggregate = "DirectoryLoader_" +:+ uuid1
    /\ loaderType aggregate = "DirectoryLoader"
    /\ (length (uniqueIds aggregate) <= length files)%nat
    /\ 0 <= entriesAdded aggregate <= Z.of_nat (length (uniqueIds aggregate)).
Proof.
  unfold runTask, directoryTask, start. cbn [loaderTasks initialLoaderDoneReturn].
  match goal with |- context [runItems (?items ++ ?tail) ?w] =>
    destruct (file_items_aggregate env base_id (Z.of_nat (length files)) forceReload
                tail files w
                (mkLoaderReturn 0 ("DirectoryLoader_" +:+ uuid1) [] "DirectoryLoader"))
      as (a' & Hrun & Hid & Hty & Hlen & Hlo & Hhi)
  end.
  - intros w. simpl.
    pose proof (deletionCheckTask_keeps_aggregate env base_id sep uuid2 directory
                  (list_to_set (map path files)) w) as H.
    destruct (deletionCheckTask _ _ _ _ _ _ w) as [o w1]. exact H.
  - reflexivity.
  - exists a'. simpl in *. repeat split; auto; lia.
Qed.

End AggregateFacts.
